(** * A data-oblivious key-value store over chunked integers

    Shallow embedding of [KVStore_commented.py] (the 32-bit store) and of
    [KVStore_4bit.py] (its one-chunk variant).

    Conventions of the embedding.
    - A NumPy integer array of rank 1 is a [list Z]; the state, of rank 2,
      is a list of rows, each row laid out as the source lays it out:
      the flag at column [FLAG], then the key chunks, then the value chunks.
    - Every integer the circuits compute on well-formed data is a flag, a
      chunk below 16 or a sum of at most [NUMBER_OF_ENTRIES] of them, far
      from the limits of [int64]; they are modelled in [Z].  [decode]
      multiplies chunks by powers of two and does reach these limits: its
      [int64] arithmetic is written out.
    - An operation that can raise in Python returns an [option]; [None]
      stands for the exception.
    - The circuits are compiled for one tensor shape; a call with arrays of
      another shape is refused by the circuit before the function runs.
      The array functions are therefore read on arrays of that shape, and
      every theorem about them assumes it.
    - A function receiving the state array returns, next to its result, the
      contents of that array when the call ends, so that an assignment into
      the argument is visible. *)

From Stdlib Require Import ZArith List Lia Bool Ascii String.
Import ListNotations.
Open Scope Z_scope.

(** ** Python and NumPy helpers *)

Definition bind {A B : Type} (m : option A) (k : A -> option B) : option B :=
  match m with
  | Some a => k a
  | None => None
  end.

Notation "x <- m ;; k" := (bind m (fun x => k))
  (at level 61, m at next level, right associativity).

Fixpoint mapM {A B : Type} (f : A -> option B) (l : list A) : option (list B) :=
  match l with
  | [] => Some []
  | a :: l' =>
      b <- f a ;;
      bs <- mapM f l' ;;
      Some (b :: bs)
  end.

Fixpoint zip_with {A B C : Type} (f : A -> B -> C) (l : list A) (m : list B)
  : list C :=
  match l, m with
  | a :: l', b :: m' => f a b :: zip_with f l' m'
  | _, _ => []
  end.

(** [l[i] = x] on an array; the source only writes inside the array. *)
Fixpoint list_set {A : Type} (l : list A) (i : nat) (x : A) : list A :=
  match l, i with
  | [], _ => []
  | _ :: l', O => x :: l'
  | a :: l', S i' => a :: list_set l' i' x
  end.

(** [l[i:j]] for [0 <= i <= j]: the slice stops at the end of [l]. *)
Definition slice {A : Type} (l : list A) (i j : nat) : list A :=
  firstn (j - i) (skipn i l).

(** [l[i:]]. *)
Definition slice_from {A : Type} (l : list A) (i : nat) : list A := skipn i l.

(** [range(n)], as integers. *)
Definition range (n : nat) : list Z := map Z.of_nat (seq 0 n).

(** [range(0, stop, step)] for a positive [step]: 0, step, 2*step, ... below
    [stop]. *)
Definition range_step (stop step : nat) : list nat :=
  map (fun k => (k * step)%nat) (seq 0 ((stop + step - 1) / step)).

(** [np.zeros(n)] and [np.zeros((n, m))]. *)
Definition zeros (n : nat) : list Z := repeat 0 n.
Definition zeros2 (n m : nat) : list (list Z) := repeat (zeros m) n.

(** [np.sum] of a rank-1 array, and of a rank-2 array along [axis=0]. *)
Definition np_sum (l : list Z) : Z := fold_right Z.add 0 l.

Definition np_sum_axis0 (width : nat) (rows : list (list Z)) : list Z :=
  fold_right (zip_with Z.add) (zeros width) rows.

(** A comparison stored into an integer array. *)
Definition b2z (b : bool) : Z := if b then 1 else 0.

(** The value an [int64] operation keeps of the exact result [z]. *)
Definition wrap64 (z : Z) : Z := (z + 2 ^ 63) mod 2 ^ 64 - 2 ^ 63.

(** ** Lookup tables

    [table[key]] on the plain values of a [cnp.LookupTable] is NumPy
    indexing: an index below zero counts from the end, an index outside
    [-len, len) raises [IndexError]. *)

Definition lut_get (table : list Z) (key : Z) : option Z :=
  let n := Z.of_nat (List.length table) in
  if (0 <=? key) && (key <? n) then nth_error table (Z.to_nat key)
  else if (- n <=? key) && (key <? 0) then nth_error table (Z.to_nat (n + key))
  else None.

(** [cnp.LookupTable([0 for _ in range(16)] + [i for i in range(16)])];
    [KVStore_4bit.py] calls the same table [lut2]. *)
Definition keep_selected_lut : list Z := map (fun _ => 0) (range 16) ++ range 16.

Definition lut2 : list Z := map (fun _ => 0) (range 16) ++ range 16.

(** [cnp.LookupTable([1, 0, 0, 0])] of [KVStore_4bit.py]. *)
Definition lut_zero : list Z := [1; 0; 0; 0].

(** ** Configuration shared by the two files *)

Definition CHUNK_SIZE : nat := 4.

Definition FLAG : nat := 0.

(** ** Chunk codec *)

Definition char0 : ascii := "0"%char.
Definition char1 : ascii := "1"%char.

(** [bin(p)[2:]] for a positive [p]: the binary digits, most significant
    first. *)
Fixpoint bin_pos (p : positive) : list ascii :=
  match p with
  | xH => [char1]
  | xO q => bin_pos q ++ [char0]
  | xI q => bin_pos q ++ [char1]
  end.

(** [bin(z)[2:]] for any integer: ["0"] for zero and, for a negative
    number, what is left of ["-0b..."]. *)
Definition bin_tail (z : Z) : list ascii :=
  match z with
  | Z0 => [char0]
  | Zpos p => bin_pos p
  | Zneg p => "b"%char :: bin_pos p
  end.

(** [s.zfill(w)] on a string of digits. *)
Definition zfill (s : list ascii) (w : nat) : list ascii :=
  repeat char0 (w - List.length s) ++ s.

(** [np.binary_repr(num, width=width)] of NumPy 1.x, the line
    [concrete.numpy] runs on: a width too small for the number is
    reported by a warning only and the digits are returned whole; a
    negative number is returned in two's complement. *)
Definition binary_repr (num : Z) (width : nat) : list ascii :=
  match num with
  | Z0 => repeat char0 (if Nat.eqb width 0 then 1%nat else width)
  | Zpos _ =>
      let binary := bin_tail num in
      let binwidth := List.length binary in
      let outwidth := Nat.max binwidth width in
      zfill binary outwidth
  | Zneg _ =>
      let poswidth := List.length (bin_tail (- num)) in
      let poswidth :=
        if 2 ^ (Z.of_nat poswidth - 1) =? - num
        then (poswidth - 1)%nat else poswidth in
      let twocomp := 2 ^ (Z.of_nat poswidth + 1) + num in
      let binary := bin_tail twocomp in
      let binwidth := List.length binary in
      let outwidth := Nat.max binwidth width in
      repeat char1 (outwidth - binwidth) ++ binary
  end.

Definition digit_of (c : ascii) : option Z :=
  if Ascii.eqb c char0 then Some 0
  else if Ascii.eqb c char1 then Some 1
  else None.

(** [int(block, 2)] on a string of binary digits: the empty string and any
    other character raise [ValueError]. *)
Definition int_base2 (block : list ascii) : option Z :=
  match block with
  | [] => None
  | _ =>
      fold_left
        (fun acc c => a <- acc ;; d <- digit_of c ;; Some (2 * a + d))
        block (Some 0)
  end.

(** [[s[i:i+CHUNK_SIZE] for i in range(0, len(s), CHUNK_SIZE)]]. *)
Definition blocks_of (s : list ascii) : list (list ascii) :=
  map (fun i => slice s i (i + CHUNK_SIZE))
      (range_step (List.length s) CHUNK_SIZE).

Definition encode (number : Z) (width : nat) : option (list Z) :=
  let binary_repr := binary_repr number width in
  let blocks := blocks_of binary_repr in
  mapM int_base2 blocks.

(** [decode]: the chunks are [np.int64] cells.  While the weight
    [2**(CHUNK_SIZE*i)] fits [int64] (up to 2**60, the first sixteen
    positions) NumPy multiplies and adds in [int64], wrapping at 2**63;
    a weight that no NumPy integer type holds (2**64 and more) makes it
    compute with Python integers, which are exact. *)
Definition decode (encoded_number : list Z) : Z :=
  let len := List.length encoded_number in
  fold_left
    (fun result i =>
       let weight := 2 ^ (Z.of_nat CHUNK_SIZE * Z.of_nat i) in
       let chunk := nth ((len - i) - 1) encoded_number 0 in
       if weight <? 2 ^ 63
       then wrap64 (result + wrap64 (weight * chunk))
       else result + weight * chunk)
    (seq 0 len) 0.

(** ** The three circuits of [KVStore_commented.py]

    The sizes are the module constants of the source; they are kept as
    parameters so that the results hold for every capacity and every key
    and value size, the source's among them. *)

Section Circuits.

Variable NUMBER_OF_ENTRIES : nat.
Variable KEY_SIZE : nat.
Variable VALUE_SIZE : nat.

Definition NUMBER_OF_KEY_CHUNKS : nat := KEY_SIZE / CHUNK_SIZE.
Definition NUMBER_OF_VALUE_CHUNKS : nat := VALUE_SIZE / CHUNK_SIZE.

Definition ROW_SIZE : nat := 1 + NUMBER_OF_KEY_CHUNKS + NUMBER_OF_VALUE_CHUNKS.

(** [row[FLAG]], [row[KEY]] and [row[VALUE]]. *)
Definition flag_of (row : list Z) : Z := nth FLAG row 0.
Definition KEY (row : list Z) : list Z := slice row 1 (1 + NUMBER_OF_KEY_CHUNKS).
Definition VALUE (row : list Z) : list Z :=
  slice_from row (1 + NUMBER_OF_KEY_CHUNKS).

(** [keep_selected_lut[selection * 2**CHUNK_SIZE + chunks]] for the
    selection bit of one row, broadcast over the chunks. *)
Definition keep_selected (selection : Z) (chunks : list Z) : option (list Z) :=
  mapM (fun c => lut_get keep_selected_lut
                   (selection * 2 ^ Z.of_nat CHUNK_SIZE + c)) chunks.

(** [(np.sum((keys - key) == 0, axis=1) == NUMBER_OF_KEY_CHUNKS)], one row
    at a time. *)
Definition key_selection (key : list Z) (row : list Z) : Z :=
  b2z (np_sum (map (fun d => b2z (d =? 0)) (zip_with Z.sub (KEY row) key))
       =? Z.of_nat NUMBER_OF_KEY_CHUNKS).

(** One round of the loop of [_insert_impl]. *)
Definition insert_step (flags : list Z) (acc : list Z * Z) (i : nat)
  : list Z * Z :=
  let '(selection, found) := acc in
  let packed_flag_and_found := found * 2 + nth i flags 0 in
  let is_selected := b2z (packed_flag_and_found =? 0) in
  (list_set selection i is_selected, found + is_selected).

Definition _insert_impl (state : list (list Z)) (key value : list Z)
  : option (list (list Z) * list (list Z)) :=
  let flags := map flag_of state in
  let '(selection, _) :=
    fold_left (insert_step flags) (seq 0 NUMBER_OF_ENTRIES)
              (zeros NUMBER_OF_ENTRIES, 0) in
  key_update <- mapM (fun s => keep_selected s key) selection ;;
  value_update <- mapM (fun s => keep_selected s value) selection ;;
  let state_update :=
    zip_with (fun s kv => s :: fst kv ++ snd kv)
             selection (combine key_update value_update) in
  let new_state := zip_with (zip_with Z.add) state state_update in
  Some (state, new_state).

Definition _replace_impl (state : list (list Z)) (key value : list Z)
  : option (list (list Z) * list (list Z)) :=
  let keys := map KEY state in
  let values := map VALUE state in
  let selection := map (key_selection key) state in
  set_value <- mapM (fun s => keep_selected s value) selection ;;
  let inverse_selection := map (fun s => 1 - s) selection in
  kept_values <-
    mapM (fun sv => keep_selected (fst sv) (snd sv))
         (combine inverse_selection values) ;;
  let new_values := zip_with (zip_with Z.add) kept_values set_value in
  (* state[:, VALUE] = new_values: the argument itself is written *)
  let state :=
    zip_with (fun row nv => firstn (1 + NUMBER_OF_KEY_CHUNKS) row ++ nv)
             state new_values in
  Some (state, state).

Definition _query_impl (state : list (list Z)) (key : list Z)
  : option (list (list Z) * list Z) :=
  let keys := map KEY state in
  let values := map VALUE state in
  let selection := map (key_selection key) state in
  let found := np_sum selection in
  value_selection <-
    mapM (fun sv => keep_selected (fst sv) (snd sv))
         (combine selection values) ;;
  let value := np_sum_axis0 NUMBER_OF_VALUE_CHUNKS value_selection in
  Some (state, found :: value).

(** *** The store *)

Definition encode_key (number : Z) : option (list Z) := encode number KEY_SIZE.
Definition encode_value (number : Z) : option (list Z) :=
  encode number VALUE_SIZE.

Record KeyValueDatabase : Type := { _state : list (list Z) }.

(** [KeyValueDatabase.__init__]: the state starts all zero. *)
Definition init : KeyValueDatabase :=
  {| _state := zeros2 NUMBER_OF_ENTRIES ROW_SIZE |}.

Definition has_shape (state : list (list Z)) : bool :=
  Nat.eqb (List.length state) NUMBER_OF_ENTRIES
  && forallb (fun row => Nat.eqb (List.length row) ROW_SIZE) state.

(** [circuit.encrypt_run_decrypt(args)]: the circuit was compiled for
    arrays of one shape and refuses any other; on arrays of that shape it
    returns what the compiled function returns.  The function runs on the
    encrypted copy of its arguments, never on the caller's array. *)
Definition encrypt_run_decrypt {A : Type}
  (shapes_ok : bool) (run : option (list (list Z) * A)) : option A :=
  if shapes_ok then r <- run ;; Some (snd r) else None.

Definition insert (self : KeyValueDatabase) (key value : Z)
  : option KeyValueDatabase :=
  k <- encode_key key ;;
  v <- encode_value value ;;
  new_state <-
    encrypt_run_decrypt
      (has_shape (_state self)
       && Nat.eqb (List.length k) NUMBER_OF_KEY_CHUNKS
       && Nat.eqb (List.length v) NUMBER_OF_VALUE_CHUNKS)
      (_insert_impl (_state self) k v) ;;
  Some {| _state := new_state |}.

Definition replace (self : KeyValueDatabase) (key value : Z)
  : option KeyValueDatabase :=
  k <- encode_key key ;;
  v <- encode_value value ;;
  new_state <-
    encrypt_run_decrypt
      (has_shape (_state self)
       && Nat.eqb (List.length k) NUMBER_OF_KEY_CHUNKS
       && Nat.eqb (List.length v) NUMBER_OF_VALUE_CHUNKS)
      (_replace_impl (_state self) k v) ;;
  Some {| _state := new_state |}.

(** [KeyValueDatabase.query]: the store is returned as the call leaves it;
    the inner [option] is Python's [None] for an absent key. *)
Definition query (self : KeyValueDatabase) (key : Z)
  : option (KeyValueDatabase * option Z) :=
  k <- encode_key key ;;
  result <-
    encrypt_run_decrypt
      (has_shape (_state self)
       && Nat.eqb (List.length k) NUMBER_OF_KEY_CHUNKS)
      (_query_impl (_state self) k) ;;
  if nth 0 result 0 =? 0 then Some (self, None)
  else Some (self, Some (decode (slice_from result 1))).

End Circuits.

(** The sizes of [KVStore_commented.py]. *)
Module Commented.
Definition NUMBER_OF_ENTRIES : nat := 5.
Definition KEY_SIZE : nat := 32.
Definition VALUE_SIZE : nat := 32.
Definition db0 : KeyValueDatabase := init NUMBER_OF_ENTRIES KEY_SIZE VALUE_SIZE.
Definition insert := insert NUMBER_OF_ENTRIES KEY_SIZE VALUE_SIZE.
Definition replace := replace NUMBER_OF_ENTRIES KEY_SIZE VALUE_SIZE.
Definition query := query NUMBER_OF_ENTRIES KEY_SIZE VALUE_SIZE.

(** Sample keys, values and tables. *)
Definition chunks_of (n : Z) : list Z := [0; 0; 0; 0; 0; 0; n / 16; n mod 16].

Definition free_row : list Z := zeros (ROW_SIZE KEY_SIZE VALUE_SIZE).

(** The table after [insert(3, 4)] and [insert(25, 40)]. *)
Definition two_used : list (list Z) :=
  [1 :: chunks_of 3 ++ chunks_of 4;
   1 :: chunks_of 25 ++ chunks_of 40;
   free_row; free_row; free_row].

(** A table with no free row. *)
Definition full_table : list (list Z) :=
  map (fun n => 1 :: chunks_of n ++ chunks_of (n + 100)) [1; 2; 3; 4; 5].

(** The table [replace(0, 7)] leaves when run on the empty table: every
    row is still free and now carries the value 7. *)
Definition after_replace_zero : list (list Z) :=
  repeat (0 :: chunks_of 0 ++ chunks_of 7) 5.
End Commented.

(** ** The circuits of [KVStore_4bit.py]

    One chunk per key and per value; the selection of the free row goes
    through [lut_zero], the comparison of keys through a loop, and
    [_replace_impl] builds a fresh array instead of writing its argument. *)

Module FourBit.

Definition NUMBER_OF_ENTRIES : nat := 5.
Definition KEY_SIZE : nat := 4.
Definition VALUE_SIZE : nat := 4.
Definition NUMBER_OF_KEY_CHUNKS : nat := KEY_SIZE / CHUNK_SIZE.
Definition NUMBER_OF_VALUE_CHUNKS : nat := VALUE_SIZE / CHUNK_SIZE.

Definition KEY (row : list Z) : list Z := slice row 1 (1 + NUMBER_OF_KEY_CHUNKS).
Definition VALUE (row : list Z) : list Z :=
  slice_from row (1 + NUMBER_OF_KEY_CHUNKS).

(** [lut2[selection * 2**CHUNK_SIZE + chunks]] for one row. *)
Definition lut2_select (selection : Z) (chunks : list Z) : option (list Z) :=
  mapM (fun c => lut_get lut2 (selection * 2 ^ Z.of_nat CHUNK_SIZE + c)) chunks.

Definition insert_step (flags : list Z) (acc : option (list Z * Z)) (i : nat)
  : option (list Z * Z) :=
  a <- acc ;;
  let '(selection, found) := a in
  selection_i <- lut_get lut_zero (found * 2 + nth i flags 0) ;;
  Some (list_set selection i selection_i, found + selection_i).

Definition _insert_impl (state : list (list Z)) (key value : list Z)
  : option (list (list Z) * list (list Z)) :=
  let flags := map flag_of state in
  r <- fold_left (insert_step flags) (seq 0 NUMBER_OF_ENTRIES)
                 (Some (zeros NUMBER_OF_ENTRIES, 0)) ;;
  let selection := fst r in
  key_diff <- mapM (fun s => lut2_select s key) selection ;;
  val_diff <- mapM (fun s => lut2_select s value) selection ;;
  let diff :=
    zip_with (fun s kv => s :: fst kv ++ snd kv)
             selection (combine key_diff val_diff) in
  Some (state, zip_with (zip_with Z.add) state diff).

(** [selection[i] = (keys[i] - key == 0)]: the comparison is an array of
    one cell, which NumPy stores as a scalar; an array of another size
    cannot be stored into one cell. *)
Definition replace_step (keys : list (list Z)) (key : list Z)
  (acc : option (list Z)) (i : nat) : option (list Z) :=
  selection <- acc ;;
  match zip_with Z.sub (nth i keys []) key with
  | [d] => Some (list_set selection i (b2z (d =? 0)))
  | _ => None
  end.

Definition _replace_impl (state : list (list Z)) (key value : list Z)
  : option (list (list Z) * list (list Z)) :=
  let keys := map KEY state in
  let values := map VALUE state in
  selection <- fold_left (replace_step keys key) (seq 0 NUMBER_OF_ENTRIES)
                         (Some (zeros NUMBER_OF_ENTRIES)) ;;
  let inverse_selection := map (fun s => 1 - s) selection in
  set_value <- mapM (fun s => lut2_select s value) selection ;;
  kept_values <-
    mapM (fun sv => lut2_select (fst sv) (snd sv))
         (combine inverse_selection values) ;;
  let new_value := zip_with (zip_with Z.add) set_value kept_values in
  let new_state :=
    zip_with (fun row nv => flag_of row :: KEY row ++ nv) state new_value in
  Some (state, new_state).

(** The loop of [_query_impl] is the loop of [_replace_impl]; the values
    kept by the table are then summed over the whole array. *)
Definition _query_impl (state : list (list Z)) (key : list Z)
  : option (list (list Z) * list Z) :=
  let keys := map KEY state in
  let values := map VALUE state in
  selection <- fold_left (replace_step keys key) (seq 0 NUMBER_OF_ENTRIES)
                         (Some (zeros NUMBER_OF_ENTRIES)) ;;
  let found := np_sum selection in
  val_diff <-
    mapM (fun sv => lut2_select (fst sv) (snd sv))
         (combine selection values) ;;
  let result := np_sum (List.concat val_diff) in
  Some (state, [found; result]).

(** The store of the 4-bit file: keys and values are passed as arrays of
    one chunk, and [query] returns the chunk itself. *)
Definition init : KeyValueDatabase :=
  {| _state := zeros2 NUMBER_OF_ENTRIES (1 + 1 + 1) |}.

Definition state_ok (state : list (list Z)) : bool :=
  has_shape NUMBER_OF_ENTRIES KEY_SIZE VALUE_SIZE state.

Definition insert (self : KeyValueDatabase) (key value : list Z)
  : option KeyValueDatabase :=
  new_state <-
    encrypt_run_decrypt
      (state_ok (_state self)
       && Nat.eqb (List.length key) NUMBER_OF_KEY_CHUNKS
       && Nat.eqb (List.length value) NUMBER_OF_VALUE_CHUNKS)
      (_insert_impl (_state self) key value) ;;
  Some {| _state := new_state |}.

Definition replace (self : KeyValueDatabase) (key value : list Z)
  : option KeyValueDatabase :=
  new_state <-
    encrypt_run_decrypt
      (state_ok (_state self)
       && Nat.eqb (List.length key) NUMBER_OF_KEY_CHUNKS
       && Nat.eqb (List.length value) NUMBER_OF_VALUE_CHUNKS)
      (_replace_impl (_state self) key value) ;;
  Some {| _state := new_state |}.

Definition query (self : KeyValueDatabase) (key : list Z)
  : option (KeyValueDatabase * option Z) :=
  result <-
    encrypt_run_decrypt
      (state_ok (_state self)
       && Nat.eqb (List.length key) NUMBER_OF_KEY_CHUNKS)
      (_query_impl (_state self) key) ;;
  if nth 0 result 0 =? 0 then Some (self, None)
  else Some (self, Some (nth 1 result 0)).

End FourBit.

(** ** Well-formed tables, keys and values *)

(** A chunk holds [CHUNK_SIZE] bits. *)
Definition in_range (c : Z) : bool := (0 <=? c) && (c <? 2 ^ Z.of_nat CHUNK_SIZE).

(** An encoded key or value: [n] chunks, each in range. *)
Definition is_chunks (n : nat) (v : list Z) : bool :=
  Nat.eqb (List.length v) n && forallb in_range v.

Definition flags_binary (state : list (list Z)) : bool :=
  forallb (fun row => (flag_of row =? 0) || (flag_of row =? 1)) state.

Definition table_full (state : list (list Z)) : bool :=
  forallb (fun row => flag_of row =? 1) state.

Definition values_in_range (KEY_SIZE : nat) (state : list (list Z)) : bool :=
  forallb (fun row => forallb in_range (VALUE KEY_SIZE row)) state.

Definition keys_in_range (KEY_SIZE : nat) (state : list (list Z)) : bool :=
  forallb (fun row => forallb in_range (KEY KEY_SIZE row)) state.

(** ** The operations as the specification words them *)

(** [decode] as the specification words it: the chunks read as a
    big-endian numeral in base 2^CHUNK_SIZE, in unbounded integers. *)
Definition numeral (chunks : list Z) : Z :=
  let len := List.length chunks in
  fold_left
    (fun result i =>
       result
       + 2 ^ (Z.of_nat CHUNK_SIZE * Z.of_nat i)
         * nth ((len - i) - 1) chunks 0)
    (seq 0 len) 0.

(** The arithmetic form of the masked select. *)
Definition masked_select (selector value : Z) : Z := selector * value.

Fixpoint chunks_eqb (a b : list Z) : bool :=
  match a, b with
  | [], [] => true
  | x :: a', y :: b' => (x =? y) && chunks_eqb a' b'
  | _, _ => false
  end.

(** The row's key chunks all equal the given key's chunks; the flag of the
    row plays no part. *)
Definition row_matches (KEY_SIZE : nat) (key row : list Z) : bool :=
  chunks_eqb (KEY KEY_SIZE row) key.

(** The result of a query as the specification words it: the number of
    matching rows, then the chunk-wise sum of the masked values. *)
Definition query_spec (KEY_SIZE VALUE_SIZE : nat)
  (state : list (list Z)) (key : list Z) : list Z :=
  Z.of_nat (List.length (filter (row_matches KEY_SIZE key) state))
  :: np_sum_axis0 (NUMBER_OF_VALUE_CHUNKS VALUE_SIZE)
       (map (fun row =>
               map (masked_select (b2z (row_matches KEY_SIZE key row)))
                   (VALUE KEY_SIZE row))
            state).

(** The row that replace leaves: flag and key kept, the value overwritten
    when the key matches. *)
Definition replace_row_spec (KEY_SIZE : nat) (key value row : list Z)
  : list Z :=
  flag_of row :: KEY KEY_SIZE row
    ++ (if row_matches KEY_SIZE key row then value else VALUE KEY_SIZE row).

(** Inserts one pair after the other, each on the table the previous one
    returned. *)
Fixpoint insert_all (NUMBER_OF_ENTRIES : nat)
  (state : list (list Z)) (pairs : list (list Z * list Z))
  : option (list (list Z)) :=
  match pairs with
  | [] => Some state
  | (key, value) :: rest =>
      r <- _insert_impl NUMBER_OF_ENTRIES state key value ;;
      insert_all NUMBER_OF_ENTRIES (snd r) rest
  end.

(** The selection the loop of [_insert_impl] computes, as a scan of the
    flags. *)
Fixpoint select_first_free (flags : list Z) (found : Z) : list Z :=
  match flags with
  | [] => []
  | f :: flags' =>
      let is_selected := b2z (found * 2 + f =? 0) in
      is_selected :: select_first_free flags' (found + is_selected)
  end.

(** The row [_insert_impl] adds to a row whose selection bit is [s], with
    the masked select in its arithmetic form. *)
Definition insert_delta (s : Z) (key value : list Z) : list Z :=
  s :: map (masked_select s) key ++ map (masked_select s) value.

(** The value of a string of binary digits. *)
Definition bits_value (s : list ascii) : Z :=
  fold_left (fun acc c => 2 * acc + (if Ascii.eqb c char1 then 1 else 0)) s 0.

Definition is_digit (c : ascii) : bool := Ascii.eqb c char0 || Ascii.eqb c char1.

(** ** Tables reached by the store *)

(** A free row holds zeros only. *)
Definition free_rows_zero (KEY_SIZE VALUE_SIZE : nat)
  (state : list (list Z)) : bool :=
  forallb (fun row =>
             negb (flag_of row =? 0)
             || chunks_eqb row (zeros (ROW_SIZE KEY_SIZE VALUE_SIZE)))
          state.

(** The shape the circuits are compiled for, flags 0 or 1, chunks in
    range, free rows zeroed. *)
Definition well_formed (NUMBER_OF_ENTRIES KEY_SIZE VALUE_SIZE : nat)
  (state : list (list Z)) : bool :=
  has_shape NUMBER_OF_ENTRIES KEY_SIZE VALUE_SIZE state
  && flags_binary state
  && keys_in_range KEY_SIZE state
  && values_in_range KEY_SIZE state
  && free_rows_zero KEY_SIZE VALUE_SIZE state.

(** The rows holding the given pairs, in order. *)
Definition stored_rows (pairs : list (list Z * list Z)) : list (list Z) :=
  map (fun kv => 1 :: fst kv ++ snd kv) pairs.

(** The number of used rows. *)
Definition used_rows (state : list (list Z)) : nat :=
  List.length (filter (fun row => flag_of row =? 1) state).

(** * Proofs *)

(** ** Generic facts on the helpers *)

Lemma mapM_map {A B : Type} (f : A -> option B) (g : A -> B) (l : list A) :
  (forall a, In a l -> f a = Some (g a)) -> mapM f l = Some (map g l).
Proof.
  induction l as [|a l IH]; intros H; simpl; [reflexivity|].
  rewrite (H a (or_introl eq_refl)); simpl.
  rewrite IH by (intros b Hb; apply H; right; exact Hb).
  reflexivity.
Qed.

Lemma zip_with_length {A B C : Type} (f : A -> B -> C) (l : list A) (m : list B) :
  List.length (zip_with f l m) = Nat.min (List.length l) (List.length m).
Proof.
  revert m; induction l as [|a l IH]; intros [|b m]; simpl; auto.
Qed.

Lemma zip_with_map_r {A B C D : Type} (f : A -> B -> C) (g : D -> B)
  (l : list A) (m : list D) :
  zip_with f l (map g m) = zip_with (fun a d => f a (g d)) l m.
Proof.
  revert m; induction l as [|a l IH]; intros [|d m]; simpl; auto.
  now rewrite IH.
Qed.

Lemma zip_with_map_l {A B C D : Type} (f : A -> B -> C) (g : D -> A)
  (l : list D) (m : list B) :
  zip_with f (map g l) m = zip_with (fun d b => f (g d) b) l m.
Proof.
  revert m; induction l as [|a l IH]; intros [|d m]; simpl; auto.
  now rewrite IH.
Qed.

Lemma zip_with_diag {A C : Type} (f : A -> A -> C) (l : list A) :
  zip_with f l l = map (fun a => f a a) l.
Proof. induction l as [|a l IH]; simpl; congruence. Qed.

Lemma zip_with_app {A B C : Type} (f : A -> B -> C) (l1 l2 : list A)
  (m1 m2 : list B) :
  List.length l1 = List.length m1 ->
  zip_with f (l1 ++ l2) (m1 ++ m2) = zip_with f l1 m1 ++ zip_with f l2 m2.
Proof.
  revert m1; induction l1 as [|a l1 IH]; intros [|b m1] H; simpl in *;
    try discriminate; auto.
  now rewrite IH by congruence.
Qed.

Lemma combine_map_diag {A B C : Type} (f : A -> B) (g : A -> C) (l : list A) :
  combine (map f l) (map g l) = map (fun a => (f a, g a)) l.
Proof. induction l as [|a l IH]; simpl; congruence. Qed.

Lemma zip_add_zeros_r (l : list Z) (n : nat) :
  List.length l = n -> zip_with Z.add l (zeros n) = l.
Proof.
  revert n; induction l as [|a l IH]; intros [|n] H; simpl in *;
    try discriminate; auto.
  rewrite Z.add_0_r, IH by congruence; reflexivity.
Qed.

Lemma zip_add_zeros_l (l : list Z) (n : nat) :
  List.length l = n -> zip_with Z.add (zeros n) l = l.
Proof.
  revert n; induction l as [|a l IH]; intros [|n] H; simpl in *;
    try discriminate; auto.
  rewrite IH by congruence; reflexivity.
Qed.

Lemma map_mul_0 (l : list Z) : map (Z.mul 0) l = zeros (List.length l).
Proof. induction l as [|a l IH]; simpl; [reflexivity|]. now rewrite IH. Qed.

Lemma map_mul_1 (l : list Z) : map (Z.mul 1) l = l.
Proof.
  induction l as [|a l IH]; simpl; [reflexivity|].
  rewrite IH. now destruct a.
Qed.

Lemma chunks_eqb_eq (a b : list Z) : chunks_eqb a b = true <-> a = b.
Proof.
  revert b; induction a as [|x a IH]; intros [|y b]; simpl;
    try (split; [discriminate|congruence]); [tauto|].
  rewrite andb_true_iff, Z.eqb_eq, IH.
  split; [intros [-> ->]; reflexivity|intros H; inversion H; auto].
Qed.

Lemma in_range_bounds (c : Z) : in_range c = true <-> 0 <= c < 16.
Proof.
  unfold in_range. change (2 ^ Z.of_nat CHUNK_SIZE) with 16.
  rewrite andb_true_iff, Z.leb_le, Z.ltb_lt. tauto.
Qed.

Lemma is_chunks_spec (n : nat) (v : list Z) :
  is_chunks n v = true <->
  List.length v = n /\ (forall c, In c v -> 0 <= c < 16).
Proof.
  unfold is_chunks.
  rewrite andb_true_iff, Nat.eqb_eq, forallb_forall.
  split; intros [H1 H2]; split; auto; intros c Hc;
    apply in_range_bounds; auto.
Qed.

(** ** Masked select *)

Lemma lut_get_keep_selected (s c : Z) :
  s = 0 \/ s = 1 -> 0 <= c < 16 ->
  lut_get keep_selected_lut (s * 2 ^ Z.of_nat CHUNK_SIZE + c) = Some (s * c).
Proof.
  intros Hs Hc.
  assert (c = 0 \/ c = 1 \/ c = 2 \/ c = 3 \/ c = 4 \/ c = 5 \/ c = 6 \/ c = 7
          \/ c = 8 \/ c = 9 \/ c = 10 \/ c = 11 \/ c = 12 \/ c = 13 \/ c = 14
          \/ c = 15) as Hcases by lia.
  destruct Hs as [-> | ->];
    repeat (destruct Hcases as [-> | Hcases]; [reflexivity|]);
    subst c; reflexivity.
Qed.

Lemma lut2_keep_selected : lut2 = keep_selected_lut.
Proof. reflexivity. Qed.

Lemma keep_selected_mul (s : Z) (chunks : list Z) :
  s = 0 \/ s = 1 -> (forall c, In c chunks -> 0 <= c < 16) ->
  keep_selected s chunks = Some (map (Z.mul s) chunks).
Proof.
  intros Hs Hc. unfold keep_selected.
  apply mapM_map. intros c Hin. apply lut_get_keep_selected; auto.
Qed.

(** C7. For every selector in {0,1} and every chunk value in
    [0, 2^CHUNK_SIZE), the lookup-table form of the masked select (the
    table of size 2 * 2^CHUNK_SIZE whose lower half is zero and whose
    upper half is the identity, read at selector * 2^CHUNK_SIZE + value)
    returns what the arithmetic form selector * value returns; [lut2] of
    the 4-bit file is the same table. *)
Theorem masked_select_lut_agrees (selector value : Z) :
  selector = 0 \/ selector = 1 ->
  0 <= value < 2 ^ Z.of_nat CHUNK_SIZE ->
  lut_get keep_selected_lut (selector * 2 ^ Z.of_nat CHUNK_SIZE + value)
    = Some (masked_select selector value)
  /\ lut_get lut2 (selector * 2 ^ Z.of_nat CHUNK_SIZE + value)
    = Some (masked_select selector value)
  /\ Z.of_nat (List.length keep_selected_lut) = 2 * 2 ^ Z.of_nat CHUNK_SIZE
  /\ firstn 16 keep_selected_lut = zeros 16
  /\ skipn 16 keep_selected_lut = range 16.
Proof.
  intros Hs Hv. change (2 ^ Z.of_nat CHUNK_SIZE) with 16 in Hv.
  rewrite lut2_keep_selected. unfold masked_select.
  rewrite lut_get_keep_selected by assumption.
  repeat split; reflexivity.
Qed.

Lemma masked_select_lut_agrees_witness :
  (1 = 0 \/ 1 = 1)
  /\ 0 <= 9 < 2 ^ Z.of_nat CHUNK_SIZE
  /\ lut_get keep_selected_lut (1 * 2 ^ Z.of_nat CHUNK_SIZE + 9)
      = Some (masked_select 1 9).
Proof.
  assert (H1 : 1 = 0 \/ 1 = 1) by (right; reflexivity).
  assert (H2 : 0 <= 9 < 2 ^ Z.of_nat CHUNK_SIZE)
    by (vm_compute; split; [discriminate|reflexivity]).
  split; [exact H1|]. split; [exact H2|].
  exact (proj1 (masked_select_lut_agrees 1 9 H1 H2)).
Defined.

(** ** Chunk codec *)

Lemma numeral_cons (x : Z) (l : list Z) :
  numeral (x :: l) = numeral l + 2 ^ (4 * Z.of_nat (List.length l)) * x.
Proof.
  unfold numeral. change (Z.of_nat CHUNK_SIZE) with 4.
  change (List.length (x :: l)) with (S (List.length l)).
  set (n := List.length l).
  rewrite seq_S, fold_left_app. cbn [fold_left].
  rewrite Nat.add_0_l.
  replace (S n - n - 1)%nat with 0%nat by lia. cbn [nth].
  f_equal.
  assert (forall idx acc, (forall i, In i idx -> (i < n)%nat) ->
    fold_left (fun result i => result + 2 ^ (4 * Z.of_nat i)
                 * nth (S n - i - 1) (x :: l) 0) idx acc
    = fold_left (fun result i => result + 2 ^ (4 * Z.of_nat i)
                 * nth (n - i - 1) l 0) idx acc) as Hext.
  { induction idx as [|i idx IH]; intros acc Hlt; cbn [fold_left]; [reflexivity|].
    assert (i < n)%nat as Hi by (apply Hlt; left; reflexivity).
    replace (S n - i - 1)%nat with (S (n - i - 1)) by lia.
    cbn [nth]. apply IH. intros j Hj; apply Hlt; right; exact Hj. }
  apply Hext. intros i Hi. apply in_seq in Hi. lia.
Qed.

Lemma bits_value_acc (s : list ascii) (acc : Z) :
  fold_left (fun acc c => 2 * acc + (if Ascii.eqb c char1 then 1 else 0)) s acc
  = acc * 2 ^ Z.of_nat (List.length s) + bits_value s.
Proof.
  unfold bits_value. revert acc.
  induction s as [|c s IH]; intros acc.
  - simpl. lia.
  - cbn [fold_left List.length]. rewrite IH, (IH (2 * 0 + _)).
    rewrite Nat2Z.inj_succ, Z.pow_succ_r by lia. lia.
Qed.

Lemma bits_value_app (a b : list ascii) :
  bits_value (a ++ b)
  = bits_value a * 2 ^ Z.of_nat (List.length b) + bits_value b.
Proof.
  unfold bits_value at 1. rewrite fold_left_app.
  fold (bits_value a). apply bits_value_acc.
Qed.

Lemma bits_value_bounds (s : list ascii) :
  0 <= bits_value s < 2 ^ Z.of_nat (List.length s).
Proof.
  induction s as [|c s IH] using rev_ind.
  - simpl. unfold bits_value; simpl. lia.
  - rewrite bits_value_app, length_app, Nat2Z.inj_add, Z.pow_add_r by lia.
    cbn [List.length]. change (2 ^ Z.of_nat 1) with 2.
    assert (0 <= bits_value [c] <= 1) as Hc.
    { unfold bits_value; simpl. destruct (Ascii.eqb c char1); lia. }
    nia.
Qed.

Lemma bits_value_repeat0 (n : nat) : bits_value (repeat char0 n) = 0.
Proof.
  induction n as [|n IH]; [reflexivity|].
  change (repeat char0 (S n)) with ([char0] ++ repeat char0 n).
  rewrite bits_value_app, IH. reflexivity.
Qed.

Lemma int_base2_acc (s : list ascii) (acc : Z) :
  forallb is_digit s = true ->
  fold_left (fun acc c => a <- acc ;; d <- digit_of c ;; Some (2 * a + d))
            s (Some acc)
  = Some (fold_left
            (fun acc c => 2 * acc + (if Ascii.eqb c char1 then 1 else 0))
            s acc).
Proof.
  revert acc; induction s as [|c s IH]; intros acc H; [reflexivity|].
  simpl in H. apply andb_true_iff in H as [Hc Hs].
  cbn [fold_left bind]. unfold digit_of, is_digit in *.
  destruct (Ascii.eqb c char0) eqn:E0.
  - apply Ascii.eqb_eq in E0; subst c. simpl. apply IH; exact Hs.
  - simpl in Hc. rewrite Hc. simpl. apply IH; exact Hs.
Qed.

Lemma int_base2_bits (s : list ascii) :
  s <> [] -> forallb is_digit s = true -> int_base2 s = Some (bits_value s).
Proof.
  intros Hne Hd. destruct s as [|c s]; [congruence|].
  unfold int_base2. rewrite int_base2_acc by exact Hd. reflexivity.
Qed.

(** The digits of a positive number. *)
Lemma bin_pos_digits (p : positive) : forallb is_digit (bin_pos p) = true.
Proof.
  induction p; simpl; try rewrite forallb_app, IHp; reflexivity.
Qed.

Lemma bin_pos_value (p : positive) : bits_value (bin_pos p) = Zpos p.
Proof.
  induction p; simpl; try rewrite bits_value_app, IHp; try reflexivity.
  - change (bits_value [char1]) with 1. simpl List.length. lia.
  - change (bits_value [char0]) with 0. simpl List.length. lia.
Qed.

Lemma bin_pos_length (p : positive) :
  2 ^ (Z.of_nat (List.length (bin_pos p)) - 1) <= Zpos p
  /\ Zpos p < 2 ^ Z.of_nat (List.length (bin_pos p)).
Proof.
  induction p; simpl bin_pos.
  - rewrite length_app. cbn [List.length].
    rewrite Nat2Z.inj_add. change (Z.of_nat 1) with 1.
    replace (Z.of_nat (List.length (bin_pos p)) + 1 - 1)
      with (Z.succ (Z.of_nat (List.length (bin_pos p)) - 1)) by lia.
    assert (0 < Z.of_nat (List.length (bin_pos p))).
    { destruct p; simpl; try rewrite length_app; simpl; lia. }
    rewrite Z.pow_succ_r, Z.pow_add_r by lia. change (2 ^ 1) with 2. lia.
  - rewrite length_app. cbn [List.length].
    rewrite Nat2Z.inj_add. change (Z.of_nat 1) with 1.
    replace (Z.of_nat (List.length (bin_pos p)) + 1 - 1)
      with (Z.succ (Z.of_nat (List.length (bin_pos p)) - 1)) by lia.
    assert (0 < Z.of_nat (List.length (bin_pos p))).
    { destruct p; simpl; try rewrite length_app; simpl; lia. }
    rewrite Z.pow_succ_r, Z.pow_add_r by lia. change (2 ^ 1) with 2. lia.
  - simpl. lia.
Qed.

Lemma forallb_repeat {A : Type} (f : A -> bool) (a : A) (n : nat) :
  f a = true -> forallb f (repeat a n) = true.
Proof. intros H; induction n as [|n IH]; simpl; [reflexivity|]. now rewrite H. Qed.

Lemma range_step_4 (n : nat) :
  n <> 0%nat ->
  range_step n 4 = 0%nat :: map (Nat.add 4) (range_step (n - 4) 4).
Proof.
  intros Hn. unfold range_step.
  assert ((n + 4 - 1) / 4 = S ((n - 4 + 4 - 1) / 4))%nat as ->.
  { destruct (Nat.lt_ge_cases n 4) as [Hlt|Hge].
    - destruct n as [|[|[|[|n]]]]; try reflexivity; lia.
    - replace (n + 4 - 1)%nat with ((n - 4 + 4 - 1) + 1 * 4)%nat by lia.
      rewrite Nat.div_add by lia. lia. }
  cbn [seq map]. f_equal.
  rewrite <- seq_shift, !map_map. apply map_ext. intros k. reflexivity.
Qed.

Lemma blocks_of_step (s : list ascii) :
  s <> [] -> blocks_of s = firstn 4 s :: blocks_of (skipn 4 s).
Proof.
  intros Hs. unfold blocks_of. change CHUNK_SIZE with 4%nat.
  rewrite range_step_4 by (destruct s; simpl; congruence).
  cbn [map].
  change (slice s 0 (0 + 4)) with (firstn 4 s). apply f_equal.
  rewrite length_skipn, map_map. apply map_ext. intros i.
  unfold slice. rewrite skipn_skipn.
  replace (4 + i + 4 - (4 + i))%nat with 4%nat by lia.
  replace (i + 4 - i)%nat with 4%nat by lia.
  replace (i + 4)%nat with (4 + i)%nat by lia. reflexivity.
Qed.

Lemma blocks_of_length (s : list ascii) :
  List.length (blocks_of s) = ((List.length s + 3) / 4)%nat.
Proof.
  unfold blocks_of, range_step. rewrite !length_map, length_seq.
  change CHUNK_SIZE with 4%nat. f_equal. lia.
Qed.

Lemma blocks_of_int (n : nat) (s : list ascii) :
  (List.length s <= n)%nat -> forallb is_digit s = true ->
  mapM int_base2 (blocks_of s) = Some (map bits_value (blocks_of s)).
Proof.
  revert s; induction n as [|n IH]; intros s Hlen Hd.
  - destruct s; [reflexivity|simpl in Hlen; lia].
  - destruct s as [|c s]; [reflexivity|].
    rewrite blocks_of_step by congruence.
    set (t := c :: s) in *.
    assert (forallb is_digit (firstn 4 t) = true
            /\ forallb is_digit (skipn 4 t) = true) as [Hf Hk].
    { rewrite <- (firstn_skipn 4 t), forallb_app in Hd.
      apply andb_true_iff in Hd. exact Hd. }
    cbn [mapM map]. rewrite int_base2_bits; [|subst t; simpl; congruence|exact Hf].
    cbn [bind]. rewrite IH; [reflexivity| |exact Hk].
    rewrite length_skipn. subst t. simpl in *. lia.
Qed.

Lemma blocks_of_in_range (s : list ascii) (c : Z) :
  In c (map bits_value (blocks_of s)) -> 0 <= c < 16.
Proof.
  unfold blocks_of. rewrite map_map. intros H.
  apply in_map_iff in H as [i [<- _]].
  pose proof (bits_value_bounds (slice s i (i + CHUNK_SIZE))) as Hb.
  assert (List.length (slice s i (i + CHUNK_SIZE)) <= 4)%nat as Hl.
  { unfold slice. rewrite length_firstn. change CHUNK_SIZE with 4%nat. lia. }
  assert (2 ^ Z.of_nat (List.length (slice s i (i + CHUNK_SIZE))) <= 2 ^ 4).
  { apply Z.pow_le_mono_r; lia. }
  change (2 ^ 4) with 16 in *. lia.
Qed.

Lemma numeral_blocks (m : nat) (s : list ascii) :
  List.length s = (4 * m)%nat ->
  numeral (map bits_value (blocks_of s)) = bits_value s.
Proof.
  revert s; induction m as [|m IH]; intros s Hlen.
  - destruct s; [reflexivity|simpl in Hlen; lia].
  - assert (s <> []) as Hne by (destruct s; simpl in Hlen; [lia|congruence]).
    rewrite blocks_of_step by exact Hne. cbn [map].
    assert (List.length (skipn 4 s) = (4 * m)%nat) as Hk
      by (rewrite length_skipn; lia).
    rewrite numeral_cons, length_map, blocks_of_length, Hk, IH by exact Hk.
    replace ((4 * m + 3) / 4)%nat with m
      by (rewrite Nat.mul_comm, Nat.div_add_l by lia; simpl; lia).
    rewrite <- (firstn_skipn 4 s) at 3.
    rewrite bits_value_app, Hk. rewrite Nat2Z.inj_mul. simpl Z.of_nat. lia.
Qed.

(** *** [np.binary_repr] *)

Lemma binary_repr_pos_eq (p : positive) (width : nat) :
  binary_repr (Zpos p) width
  = repeat char0 (width - List.length (bin_pos p)) ++ bin_pos p.
Proof.
  unfold binary_repr, zfill, bin_tail. f_equal. f_equal. lia.
Qed.

Lemma twocomp_pos (p : positive) :
  let poswidth := List.length (bin_pos p) in
  let poswidth' :=
    if 2 ^ (Z.of_nat poswidth - 1) =? Zpos p
    then (poswidth - 1)%nat else poswidth in
  2 ^ Z.of_nat poswidth' <= 2 ^ (Z.of_nat poswidth' + 1) + Zneg p
    < 2 ^ (Z.of_nat poswidth' + 1).
Proof.
  intros poswidth poswidth'. subst poswidth'.
  pose proof (bin_pos_length p) as [Hlo Hhi]. fold poswidth in Hlo, Hhi.
  assert (0 < Z.of_nat poswidth) as Hpos.
  { subst poswidth. destruct p; simpl; try rewrite length_app; simpl; lia. }
  change (Zneg p) with (- Zpos p).
  destruct (2 ^ (Z.of_nat poswidth - 1) =? Zpos p) eqn:E.
  - apply Z.eqb_eq in E.
    rewrite Nat2Z.inj_sub by lia. change (Z.of_nat 1) with 1.
    replace (Z.of_nat poswidth - 1 + 1) with (Z.succ (Z.of_nat poswidth - 1))
      by lia.
    rewrite Z.pow_succ_r by lia. lia.
  - replace (Z.of_nat poswidth + 1) with (Z.succ (Z.of_nat poswidth)) by lia.
    rewrite Z.pow_succ_r by lia. lia.
Qed.

Lemma binary_repr_digits (num : Z) (width : nat) :
  forallb is_digit (binary_repr num width) = true.
Proof.
  destruct num as [|p|p].
  - apply forallb_repeat. reflexivity.
  - rewrite binary_repr_pos_eq, forallb_app, bin_pos_digits.
    rewrite forallb_repeat; reflexivity.
  - unfold binary_repr. cbv zeta.
    change (- Zneg p) with (Zpos p). cbn [bin_tail].
    pose proof (twocomp_pos p) as H. cbv zeta in H.
    set (pw := if _ =? _ then _ else _) in *.
    assert (0 < 2 ^ Z.of_nat pw) by (apply Z.pow_pos_nonneg; lia).
    destruct (2 ^ (Z.of_nat pw + 1) + Zneg p) as [|q|q] eqn:E; try lia.
    cbn [bin_tail]. rewrite forallb_app, bin_pos_digits.
    rewrite forallb_repeat; reflexivity.
Qed.

Lemma binary_repr_nonneg_value (num : Z) (width : nat) :
  0 <= num -> bits_value (binary_repr num width) = num.
Proof.
  intros H. destruct num as [|p|p]; [| |lia].
  - apply bits_value_repeat0.
  - rewrite binary_repr_pos_eq, bits_value_app, bits_value_repeat0, bin_pos_value.
    lia.
Qed.

Lemma binary_repr_nonneg_length (num : Z) (width : nat) :
  0 <= num < 2 ^ Z.of_nat width -> (0 < width)%nat ->
  List.length (binary_repr num width) = width.
Proof.
  intros [H0 H1] Hw. destruct num as [|p|p]; [| |lia].
  - unfold binary_repr. rewrite repeat_length.
    destruct width; [lia|reflexivity].
  - rewrite binary_repr_pos_eq, length_app, repeat_length.
    pose proof (bin_pos_length p) as [Hlo _].
    assert (Z.of_nat (List.length (bin_pos p)) - 1 < Z.of_nat width).
    { apply (Z.pow_lt_mono_r_iff 2); lia. }
    lia.
Qed.

Lemma binary_repr_overflow_length (num : Z) (width : nat) :
  2 ^ Z.of_nat width <= num ->
  (width < List.length (binary_repr num width))%nat.
Proof.
  intros H.
  assert (0 < 2 ^ Z.of_nat width) by (apply Z.pow_pos_nonneg; lia).
  destruct num as [|p|p]; try lia.
  rewrite binary_repr_pos_eq, length_app, repeat_length.
  pose proof (bin_pos_length p) as [_ Hhi].
  assert (Z.of_nat width < Z.of_nat (List.length (bin_pos p))).
  { apply (Z.pow_lt_mono_r_iff 2); lia. }
  lia.
Qed.

Lemma encode_blocks (n : Z) (width : nat) :
  encode n width = Some (map bits_value (blocks_of (binary_repr n width))).
Proof.
  unfold encode. cbv zeta.
  apply (blocks_of_int (List.length (binary_repr n width))); [lia|].
  apply binary_repr_digits.
Qed.

Lemma encode_numeral_chunks (n : Z) (width : nat) :
  (width mod CHUNK_SIZE = 0)%nat ->
  0 <= n < 2 ^ Z.of_nat width ->
  exists chunks,
    encode n width = Some chunks
    /\ numeral chunks = n
    /\ List.length chunks = Nat.max 1 (width / CHUNK_SIZE)
    /\ (forall c, In c chunks -> 0 <= c < 2 ^ Z.of_nat CHUNK_SIZE).
Proof.
  intros Hmod Hn. change CHUNK_SIZE with 4%nat in *.
  exists (map bits_value (blocks_of (binary_repr n width))).
  split; [apply encode_blocks|].
  destruct (Nat.eq_dec width 0) as [->|Hw].
  - assert (n = 0) as -> by (simpl in Hn; lia).
    split; [reflexivity|]. split; [reflexivity|].
    intros c [<-|[]]. split; [discriminate|reflexivity].
  - assert (width = 4 * (width / 4))%nat as Hdiv.
    { pose proof (Nat.div_mod_eq width 4). lia. }
    assert (List.length (binary_repr n width) = width) as Hlen
      by (apply binary_repr_nonneg_length; lia).
    split; [|split].
    + rewrite (numeral_blocks (width / 4)) by lia.
      apply binary_repr_nonneg_value. lia.
    + rewrite length_map, blocks_of_length, Hlen.
      rewrite Hdiv at 1. rewrite Nat.mul_comm, Nat.div_add_l by lia.
      simpl (3 / 4)%nat. lia.
    + intros c Hc. apply blocks_of_in_range in Hc.
      change (2 ^ Z.of_nat 4) with 16. exact Hc.
Qed.


Lemma in_slice {A : Type} (l : list A) (i j : nat) (x : A) :
  In x (slice l i j) -> In x l.
Proof.
  unfold slice. intros H.
  rewrite <- (firstn_skipn i l). apply in_or_app. right.
  rewrite <- (firstn_skipn (j - i) (skipn i l)). apply in_or_app. left.
  exact H.
Qed.

Lemma numeral_zeros (n : nat) : numeral (zeros n) = 0.
Proof.
  induction n as [|n IH]; [reflexivity|].
  change (zeros (S n)) with (0 :: zeros n). rewrite numeral_cons, IH. lia.
Qed.

Lemma bits_value_all0 (s : list ascii) :
  (forall c, In c s -> c = char0) -> bits_value s = 0.
Proof.
  intros H. induction s as [|c s IH] using rev_ind; [reflexivity|].
  rewrite bits_value_app, IH by (intros d Hd; apply H, in_or_app; auto).
  rewrite (H c) by (apply in_or_app; right; left; reflexivity).
  reflexivity.
Qed.

Lemma all_zero_list (l : list Z) :
  (forall c, In c l -> c = 0) -> l = zeros (List.length l).
Proof.
  induction l as [|a l IH]; intros H; [reflexivity|].
  cbn [List.length zeros repeat]. rewrite (H a (or_introl eq_refl)).
  f_equal. apply IH. intros c Hc; apply H; right; exact Hc.
Qed.

Lemma encode_zero (width : nat) :
  encode 0 width = Some (zeros (Nat.max 1 ((width + 3) / 4))).
Proof.
  rewrite encode_blocks.
  set (s := binary_repr 0 width).
  assert (forall c, In c s -> c = char0) as Hs
    by (intros c Hc; apply repeat_spec in Hc; exact Hc).
  assert (List.length (map bits_value (blocks_of s))
          = Nat.max 1 ((width + 3) / 4)) as Hlen.
  { rewrite length_map, blocks_of_length. subst s. unfold binary_repr.
    rewrite repeat_length. destruct width as [|w]; [reflexivity|].
    cbn [Nat.eqb].
    assert (1 <= (S w + 3) / 4)%nat by (apply Nat.div_le_lower_bound; lia).
    lia. }
  rewrite <- Hlen. f_equal. apply all_zero_list.
  intros c Hc. apply in_map_iff in Hc as (b & <- & Hb).
  apply bits_value_all0. intros d Hd. apply Hs.
  unfold blocks_of in Hb. apply in_map_iff in Hb as (i & <- & _).
  eapply in_slice. exact Hd.
Qed.

(** An in-range number encodes to the configured number of in-range
    chunks. *)
Lemma encode_is_chunks (n : Z) (width : nat) :
  (width mod CHUNK_SIZE = 0)%nat -> (0 < width)%nat ->
  0 <= n < 2 ^ Z.of_nat width ->
  exists chunks,
    encode n width = Some chunks
    /\ is_chunks (width / CHUNK_SIZE) chunks = true
    /\ numeral chunks = n
    /\ (chunks = zeros (width / CHUNK_SIZE) <-> n = 0).
Proof.
  intros Hmod Hw Hn.
  destruct (encode_numeral_chunks n width Hmod Hn) as (chunks & He & Hd & Hl & Hr).
  exists chunks. split; [exact He|].
  assert (1 <= width / CHUNK_SIZE)%nat as Hq.
  { change CHUNK_SIZE with 4%nat in *.
    pose proof (Nat.div_mod_eq width 4). lia. }
  split; [|split; [exact Hd|]].
  - apply is_chunks_spec. split; [lia|].
    intros c Hc. specialize (Hr c Hc).
    change (2 ^ Z.of_nat CHUNK_SIZE) with 16 in Hr. exact Hr.
  - split.
    + intros ->. rewrite numeral_zeros in Hd. lia.
    + intros ->. rewrite encode_zero in He.
      assert (chunks = zeros (List.length chunks)) as Hz.
      { assert (chunks = zeros (Nat.max 1 ((width + 3) / 4))) as E
          by congruence.
        rewrite E. unfold zeros. now rewrite repeat_length. }
      rewrite Hz, Hl. f_equal. lia.
Qed.

(** *** [decode] and its [int64] arithmetic *)

Lemma wrap64_small (z : Z) : - 2 ^ 63 <= z < 2 ^ 63 -> wrap64 z = z.
Proof. intros H. unfold wrap64. rewrite Z.mod_small; lia. Qed.

Lemma wrap64_shift (z k : Z) : wrap64 (z + 2 ^ 64 * k) = wrap64 z.
Proof.
  unfold wrap64. f_equal.
  replace (z + 2 ^ 64 * k + 2 ^ 63) with (z + 2 ^ 63 + k * 2 ^ 64) by lia.
  apply Z.mod_add. lia.
Qed.

Lemma wrap64_eq (z : Z) : exists k, wrap64 z = z + 2 ^ 64 * k.
Proof.
  exists (- ((z + 2 ^ 63) / 2 ^ 64)). unfold wrap64.
  rewrite Z.mod_eq by lia. lia.
Qed.

Lemma wrap64_add (a b : Z) : wrap64 (wrap64 a + wrap64 b) = wrap64 (a + b).
Proof.
  destruct (wrap64_eq a) as [ka ->]. destruct (wrap64_eq b) as [kb ->].
  replace (a + 2 ^ 64 * ka + (b + 2 ^ 64 * kb))
    with (a + b + 2 ^ 64 * (ka + kb)) by lia.
  apply wrap64_shift.
Qed.

Lemma wrap64_add_r (a b : Z) : wrap64 (a + wrap64 b) = wrap64 (a + b).
Proof.
  destruct (wrap64_eq b) as [kb ->].
  replace (a + (b + 2 ^ 64 * kb)) with (a + b + 2 ^ 64 * kb) by lia.
  apply wrap64_shift.
Qed.

Lemma wrap64_mul_r (c a : Z) : wrap64 (c * wrap64 a) = wrap64 (c * a).
Proof.
  destruct (wrap64_eq a) as [ka ->].
  replace (c * (a + 2 ^ 64 * ka)) with (c * a + 2 ^ 64 * (c * ka)) by lia.
  apply wrap64_shift.
Qed.

Lemma wrap64_range (z : Z) : - 2 ^ 63 <= wrap64 z < 2 ^ 63.
Proof.
  unfold wrap64. pose proof (Z.mod_pos_bound (z + 2 ^ 63) (2 ^ 64)). lia.
Qed.

Lemma numeral_fold_ge (l : list Z) (len : nat) (idx : list nat) (acc : Z) :
  (forall i, 0 <= nth (len - i - 1) l 0) ->
  acc <= fold_left (fun result i =>
                      result + 2 ^ (Z.of_nat CHUNK_SIZE * Z.of_nat i)
                               * nth (len - i - 1) l 0) idx acc.
Proof.
  intros Hpos. revert acc. induction idx as [|i idx IH]; intros acc.
  - simpl. lia.
  - cbn [fold_left]. etransitivity; [|apply IH].
    assert (0 <= 2 ^ (Z.of_nat CHUNK_SIZE * Z.of_nat i))
      by (apply Z.pow_nonneg; lia).
    specialize (Hpos i). nia.
Qed.

Lemma decode_fold_exact (l : list Z) (len : nat) (idx : list nat) (acc : Z) :
  (forall i, 0 <= nth (len - i - 1) l 0) ->
  0 <= acc ->
  fold_left (fun result i =>
               result + 2 ^ (Z.of_nat CHUNK_SIZE * Z.of_nat i)
                        * nth (len - i - 1) l 0) idx acc < 2 ^ 63 ->
  fold_left (fun result i =>
               let weight := 2 ^ (Z.of_nat CHUNK_SIZE * Z.of_nat i) in
               let chunk := nth (len - i - 1) l 0 in
               if weight <? 2 ^ 63
               then wrap64 (result + wrap64 (weight * chunk))
               else result + weight * chunk) idx acc
  = fold_left (fun result i =>
                 result + 2 ^ (Z.of_nat CHUNK_SIZE * Z.of_nat i)
                          * nth (len - i - 1) l 0) idx acc.
Proof.
  intros Hpos. revert acc. induction idx as [|i idx IH]; intros acc Hacc Hlt;
    [reflexivity|].
  cbn [fold_left] in *. cbv zeta.
  set (w := 2 ^ (Z.of_nat CHUNK_SIZE * Z.of_nat i)) in *.
  set (x := nth (len - i - 1) l 0) in *.
  assert (0 <= w) by (apply Z.pow_nonneg; lia).
  assert (0 <= x) by apply Hpos.
  assert (0 <= w * x) by nia.
  pose proof (numeral_fold_ge l len idx (acc + w * x) Hpos) as Hge.
  assert ((if w <? 2 ^ 63 then wrap64 (acc + wrap64 (w * x)) else acc + w * x)
          = acc + w * x) as ->.
  { destruct (w <? 2 ^ 63); [|reflexivity].
    rewrite (wrap64_small (w * x)) by lia. apply wrap64_small. lia. }
  apply IH; lia.
Qed.

(** As long as nothing reaches 2^63, [decode] computes the numeral. *)
Lemma decode_no_overflow (l : list Z) :
  (forall c, In c l -> 0 <= c) ->
  numeral l < 2 ^ 63 ->
  decode l = numeral l.
Proof.
  intros Hpos Hlt. unfold decode, numeral in *.
  apply decode_fold_exact; [|lia|exact Hlt].
  intros i. destruct (nth_in_or_default (List.length l - i - 1) l 0) as [H|H].
  - apply Hpos. exact H.
  - rewrite H. lia.
Qed.

Lemma decode_fold_wrap (l : list Z) (len : nat) (idx : list nat) (acc : Z) :
  (forall i, In i idx -> (i < 16)%nat) ->
  fold_left (fun result i =>
               let weight := 2 ^ (Z.of_nat CHUNK_SIZE * Z.of_nat i) in
               let chunk := nth (len - i - 1) l 0 in
               if weight <? 2 ^ 63
               then wrap64 (result + wrap64 (weight * chunk))
               else result + weight * chunk) idx (wrap64 acc)
  = wrap64 (fold_left (fun result i =>
                         result + 2 ^ (Z.of_nat CHUNK_SIZE * Z.of_nat i)
                                  * nth (len - i - 1) l 0) idx acc).
Proof.
  revert acc. induction idx as [|i idx IH]; intros acc Hidx; [reflexivity|].
  cbn [fold_left]. cbv zeta.
  assert (i < 16)%nat as Hi by (apply Hidx; left; reflexivity).
  assert ((2 ^ (Z.of_nat CHUNK_SIZE * Z.of_nat i) <? 2 ^ 63) = true) as ->.
  { apply Z.ltb_lt. apply Z.pow_lt_mono_r; [lia|lia|].
    change (Z.of_nat CHUNK_SIZE) with 4. lia. }
  rewrite wrap64_add. apply IH.
  intros j Hj. apply Hidx. right. exact Hj.
Qed.

(** On at most sixteen chunks [decode] is the numeral kept in [int64]. *)
Lemma decode_wraps (l : list Z) :
  (List.length l <= 16)%nat -> decode l = wrap64 (numeral l).
Proof.
  intros Hlen.
  pose proof (decode_fold_wrap l (List.length l) (seq 0 (List.length l)) 0)
    as H.
  change (wrap64 0) with 0 in H. unfold decode, numeral. apply H.
  intros i Hi. apply in_seq in Hi. lia.
Qed.

Lemma decode_chunks (n : nat) (v : list Z) :
  is_chunks n v = true -> numeral v < 2 ^ 63 -> decode v = numeral v.
Proof.
  intros Hc Hlt. apply is_chunks_spec in Hc as [_ Hc].
  apply decode_no_overflow; [|exact Hlt].
  intros c Hin. apply Hc in Hin. lia.
Qed.

Lemma decode_zeros (n : nat) : decode (zeros n) = 0.
Proof.
  rewrite decode_no_overflow; [apply numeral_zeros| |rewrite numeral_zeros; lia].
  intros c Hc. apply repeat_spec in Hc. lia.
Qed.

(** C6, as the code has it.  For every width divisible by CHUNK_SIZE and
    every n in [0, 2^width) that is below 2^63, encode returns a list of
    chunks and decode of that list is n.  The chunks are in
    [0, 2^CHUNK_SIZE) and there are width/CHUNK_SIZE of them, or one, the
    digit 0, when the width is 0. *)
Theorem decode_encode_roundtrip (n : Z) (width : nat) :
  (width mod CHUNK_SIZE = 0)%nat ->
  0 <= n < 2 ^ Z.of_nat width ->
  n < 2 ^ 63 ->
  exists chunks,
    encode n width = Some chunks
    /\ decode chunks = n
    /\ List.length chunks = Nat.max 1 (width / CHUNK_SIZE)
    /\ (forall c, In c chunks -> 0 <= c < 2 ^ Z.of_nat CHUNK_SIZE).
Proof.
  intros Hmod Hn H63.
  destruct (encode_numeral_chunks n width Hmod Hn)
    as (chunks & He & Hv & Hl & Hr).
  exists chunks. split; [exact He|]. split; [|split; assumption].
  rewrite decode_no_overflow; [exact Hv| |lia].
  intros c Hc. apply Hr in Hc. lia.
Qed.

Lemma decode_encode_roundtrip_witness :
  (32 mod CHUNK_SIZE = 0)%nat
  /\ 0 <= 3000000000 < 2 ^ Z.of_nat 32
  /\ 3000000000 < 2 ^ 63
  /\ exists chunks,
       encode 3000000000 32 = Some chunks
       /\ decode chunks = 3000000000
       /\ List.length chunks = Nat.max 1 (32 / CHUNK_SIZE)
       /\ (forall c, In c chunks -> 0 <= c < 2 ^ Z.of_nat CHUNK_SIZE).
Proof.
  assert (H1 : (32 mod CHUNK_SIZE = 0)%nat) by reflexivity.
  assert (H2 : 0 <= 3000000000 < 2 ^ Z.of_nat 32)
    by (vm_compute; split; [discriminate|reflexivity]).
  assert (H3 : 3000000000 < 2 ^ 63) by reflexivity.
  split; [exact H1|]. split; [exact H2|]. split; [exact H3|].
  exact (decode_encode_roundtrip 3000000000 32 H1 H2 H3).
Defined.

(** C6, as it is stated, fails.  The width 64 is divisible by CHUNK_SIZE
    and 2^63 lies in [0, 2^64); its sixteen chunks decode to -2^63, the
    product 2^60 * 8 leaving [int64].  The width 0 is divisible by
    CHUNK_SIZE as well, and encode returns one chunk there, not 0/4. *)
Lemma decode_encode_wraps_at_64 :
  (64 mod CHUNK_SIZE = 0)%nat
  /\ 0 <= 2 ^ 63 < 2 ^ Z.of_nat 64
  /\ encode (2 ^ 63) 64
     = Some [8; 0; 0; 0; 0; 0; 0; 0; 0; 0; 0; 0; 0; 0; 0; 0]
  /\ decode [8; 0; 0; 0; 0; 0; 0; 0; 0; 0; 0; 0; 0; 0; 0; 0] = - 2 ^ 63
  /\ decode [8; 0; 0; 0; 0; 0; 0; 0; 0; 0; 0; 0; 0; 0; 0; 0] <> 2 ^ 63
  /\ encode 0 0 = Some [0]
  /\ List.length [0] <> (0 / CHUNK_SIZE)%nat.
Proof.
  split; [reflexivity|]. split; [vm_compute; split; [discriminate|reflexivity]|].
  split; [vm_compute; reflexivity|]. split; [vm_compute; reflexivity|].
  split; [vm_compute; discriminate|]. split; [reflexivity|].
  vm_compute. discriminate.
Qed.

Lemma bits_value_repeat1 (n : nat) :
  bits_value (repeat char1 n) = 2 ^ Z.of_nat n - 1.
Proof.
  induction n as [|n IH]; [reflexivity|].
  change (repeat char1 (S n)) with ([char1] ++ repeat char1 n).
  rewrite bits_value_app, IH, repeat_length.
  change (bits_value [char1]) with 1.
  rewrite Nat2Z.inj_succ, Z.pow_succ_r by lia. lia.
Qed.

Lemma bin_pos_length_unique (p : positive) (L : Z) :
  0 <= L -> 2 ^ L <= Zpos p < 2 ^ (L + 1) ->
  Z.of_nat (List.length (bin_pos p)) = L + 1.
Proof.
  intros HL [Hlo Hhi]. pose proof (bin_pos_length p) as [Hlo' Hhi'].
  assert (0 < Z.of_nat (List.length (bin_pos p))) as Hpos.
  { destruct p; simpl; try rewrite length_app; simpl; lia. }
  assert (Z.of_nat (List.length (bin_pos p)) - 1 < L + 1)
    by (apply (Z.pow_lt_mono_r_iff 2); lia).
  assert (L < Z.of_nat (List.length (bin_pos p)))
    by (apply (Z.pow_lt_mono_r_iff 2); lia).
  lia.
Qed.

(** A negative number comes back in two's complement on as many bits as
    the string has, and the string has [width] bits when the number is at
    least -2^(width-1). *)
Lemma binary_repr_neg (p : positive) (width : nat) :
  bits_value (binary_repr (Zneg p) width)
  = 2 ^ Z.of_nat (List.length (binary_repr (Zneg p) width)) - Zpos p
  /\ (Zpos p <= 2 ^ (Z.of_nat width - 1) -> (0 < width)%nat ->
      List.length (binary_repr (Zneg p) width) = width).
Proof.
  unfold binary_repr. cbv zeta.
  change (- Zneg p) with (Zpos p). cbn [bin_tail].
  pose proof (twocomp_pos p) as Htc. cbv zeta in Htc.
  pose proof (bin_pos_length p) as [Hlo Hhi].
  assert (0 < Z.of_nat (List.length (bin_pos p))) as Hpos.
  { destruct p; simpl; try rewrite length_app; simpl; lia. }
  set (L := List.length (bin_pos p)) in *.
  assert (forall pw : nat,
    2 ^ Z.of_nat pw <= 2 ^ (Z.of_nat pw + 1) + Zneg p < 2 ^ (Z.of_nat pw + 1) ->
    let s := repeat char1
               (Nat.max (List.length (bin_tail (2 ^ (Z.of_nat pw + 1) + Zneg p)))
                        width
                - List.length (bin_tail (2 ^ (Z.of_nat pw + 1) + Zneg p)))
             ++ bin_tail (2 ^ (Z.of_nat pw + 1) + Zneg p) in
    bits_value s = 2 ^ Z.of_nat (List.length s) - Zpos p
    /\ List.length s = Nat.max (S pw) width) as Hgen.
  { intros pw Hb s. subst s.
    assert (0 < 2 ^ Z.of_nat pw) by (apply Z.pow_pos_nonneg; lia).
    destruct (2 ^ (Z.of_nat pw + 1) + Zneg p) as [|q|q] eqn:E; try lia.
    cbn [bin_tail].
    pose proof (bin_pos_length_unique q (Z.of_nat pw) ltac:(lia) Hb) as Hq.
    assert (List.length (bin_pos q) = S pw) as Hlen by lia.
    rewrite bits_value_app, bits_value_repeat1, bin_pos_value, length_app,
      repeat_length, Hlen.
    split; [|lia].
    replace (Nat.max (S pw) width - S pw + S pw)%nat
      with ((Nat.max (S pw) width - S pw) + S pw)%nat by lia.
    rewrite Nat2Z.inj_add, Z.pow_add_r by lia.
    rewrite Nat2Z.inj_succ, <- Z.add_1_r.
    change (Zneg p) with (- Zpos p) in E. lia. }
  destruct (2 ^ (Z.of_nat L - 1) =? Zpos p) eqn:E.
  - apply Z.eqb_eq in E. destruct (Hgen (L - 1)%nat Htc) as [Hv Hl].
    split; [exact Hv|]. intros Hp Hw. rewrite Hl.
    assert (Z.of_nat L - 1 <= Z.of_nat width - 1).
    { apply (Z.pow_le_mono_r_iff 2); lia. }
    lia.
  - apply Z.eqb_neq in E. destruct (Hgen L Htc) as [Hv Hl].
    split; [exact Hv|]. intros Hp Hw. rewrite Hl.
    assert (Z.of_nat L - 1 < Z.of_nat width - 1).
    { apply (Z.pow_lt_mono_r_iff 2); lia. }
    lia.
Qed.

Lemma numeral_bounds (l : list Z) :
  (forall c, In c l -> 0 <= c < 16) ->
  0 <= numeral l < 2 ^ (4 * Z.of_nat (List.length l)).
Proof.
  induction l as [|x l IH]; intros H.
  - unfold numeral. simpl. lia.
  - rewrite numeral_cons. cbn [List.length].
    rewrite Nat2Z.inj_succ.
    replace (4 * Z.succ (Z.of_nat (List.length l)))
      with (4 * Z.of_nat (List.length l) + 4) by lia.
    rewrite Z.pow_add_r by lia. change (2 ^ 4) with 16.
    pose proof (H x (or_introl eq_refl)) as Hx.
    assert (0 <= numeral l < 2 ^ (4 * Z.of_nat (List.length l))) as Hl
      by (apply IH; intros c Hc; apply H; right; exact Hc).
    nia.
Qed.

Lemma numeral_injective (a b : list Z) :
  List.length a = List.length b ->
  (forall c, In c a -> 0 <= c < 16) ->
  (forall c, In c b -> 0 <= c < 16) ->
  numeral a = numeral b -> a = b.
Proof.
  revert b; induction a as [|x a IH]; intros [|y b] Hlen Ha Hb Hd;
    simpl in Hlen; try discriminate; [reflexivity|].
  rewrite !numeral_cons in Hd.
  assert (List.length a = List.length b) as Hl by congruence.
  rewrite Hl in Hd.
  pose proof (numeral_bounds a (fun c Hc => Ha c (or_intror Hc))) as Hba.
  pose proof (numeral_bounds b (fun c Hc => Hb c (or_intror Hc))) as Hbb.
  rewrite Hl in Hba.
  set (P := 2 ^ (4 * Z.of_nat (List.length b))) in *.
  assert (x = y) as -> by nia.
  f_equal. apply IH; auto; [intros c Hc; apply Ha; right; exact Hc|
                            intros c Hc; apply Hb; right; exact Hc|lia].
Qed.

Lemma encode_negative_chunks (n : Z) (width : nat) :
  (width mod CHUNK_SIZE = 0)%nat -> (0 < width)%nat ->
  - 2 ^ (Z.of_nat width - 1) <= n < 0 ->
  encode n width = encode (n + 2 ^ Z.of_nat width) width.
Proof.
  intros Hmod Hw [Hlo Hneg].
  assert (2 ^ Z.of_nat width = 2 * 2 ^ (Z.of_nat width - 1)) as Hpow.
  { replace (Z.of_nat width) with (Z.succ (Z.of_nat width - 1)) at 1 by lia.
    apply Z.pow_succ_r. lia. }
  assert (0 < 2 ^ (Z.of_nat width - 1)) by (apply Z.pow_pos_nonneg; lia).
  destruct (encode_numeral_chunks (n + 2 ^ Z.of_nat width) width Hmod)
    as (chunks & He & Hd & Hl & Hr); [lia|].
  rewrite He, encode_blocks. f_equal.
  change CHUNK_SIZE with 4%nat in *.
  pose proof (Nat.div_mod_eq width 4) as Hdiv.
  destruct n as [|p|p]; try lia.
  destruct (binary_repr_neg p width) as [Hv Hlen].
  change (Zneg p) with (- Zpos p) in *.
  specialize (Hlen ltac:(lia) Hw).
  apply numeral_injective.
  - rewrite length_map, blocks_of_length, Hlen, Hl.
    replace (width + 3)%nat with (3 + (width / 4) * 4)%nat by lia.
    rewrite Nat.div_add by lia. simpl (3 / 4)%nat. lia.
  - intros c Hc. eapply blocks_of_in_range. exact Hc.
  - intros c Hc. specialize (Hr c Hc).
    change (2 ^ Z.of_nat 4) with 16 in Hr. exact Hr.
  - rewrite (numeral_blocks (width / 4)) by lia.
    rewrite Hd, Hv, Hlen. lia.
Qed.

(** C10, as the code has it.  [encode] checks nothing and never raises:
    every integer and every width give a list of chunks in
    [0, 2^CHUNK_SIZE).  For a width divisible by CHUNK_SIZE, a number at
    or above 2^width gives more than width/CHUNK_SIZE chunks, and a
    number n in [-2^(width-1), 0) gives width/CHUNK_SIZE chunks, those of
    its two's complement: the chunks encode returns for n + 2^width. *)
Theorem encode_never_raises (n : Z) (width : nat) :
  exists chunks,
    encode n width = Some chunks
    /\ (forall c, In c chunks -> 0 <= c < 2 ^ Z.of_nat CHUNK_SIZE)
    /\ ((width mod CHUNK_SIZE = 0)%nat -> 2 ^ Z.of_nat width <= n ->
        (width / CHUNK_SIZE < List.length chunks)%nat)
    /\ ((width mod CHUNK_SIZE = 0)%nat -> (0 < width)%nat ->
        - 2 ^ (Z.of_nat width - 1) <= n < 0 ->
        List.length chunks = (width / CHUNK_SIZE)%nat
        /\ encode (n + 2 ^ Z.of_nat width) width = Some chunks).
Proof.
  exists (map bits_value (blocks_of (binary_repr n width))).
  split; [apply encode_blocks|]. split; [|split].
  - intros c Hc. apply blocks_of_in_range in Hc. exact Hc.
  - change CHUNK_SIZE with 4%nat. intros Hmod Hn.
    rewrite length_map, blocks_of_length.
    pose proof (binary_repr_overflow_length n width Hn) as Hlen.
    pose proof (Nat.div_mod_eq width 4) as Hdiv.
    apply Nat.div_le_lower_bound; lia.
  - intros Hmod Hw Hn.
    rewrite <- (encode_negative_chunks n width Hmod Hw Hn), encode_blocks.
    split; [|reflexivity].
    change CHUNK_SIZE with 4%nat in *. destruct Hn as [Hlo Hneg].
    destruct n as [|p|p]; try lia.
    destruct (binary_repr_neg p width) as [_ Hl].
    change (Zneg p) with (- Zpos p) in Hlo.
    specialize (Hl ltac:(lia) Hw).
    pose proof (Nat.div_mod_eq width 4) as Hdiv.
    rewrite length_map, blocks_of_length, Hl.
    replace (width + 3)%nat with (3 + (width / 4) * 4)%nat by lia.
    rewrite Nat.div_add by lia. reflexivity.
Qed.

(** C10, as it is stated, fails: -1 and 2^32 lie outside [0, 2^32) and
    [encode] returns chunks for both. *)
Lemma encode_out_of_range_returns :
  ~ (0 <= -1 < 2 ^ 32)
  /\ encode (-1) 32 = Some [15; 15; 15; 15; 15; 15; 15; 15]
  /\ ~ (0 <= 2 ^ 32 < 2 ^ 32)
  /\ encode (2 ^ 32) 32 = Some [8; 0; 0; 0; 0; 0; 0; 0; 0].
Proof.
  split; [lia|]. split; [reflexivity|]. split; [lia|reflexivity].
Qed.

(** ** Rows *)

Section CircuitProofs.

Variable NUMBER_OF_ENTRIES : nat.
Variable KEY_SIZE : nat.
Variable VALUE_SIZE : nat.

Local Abbreviation NK := (NUMBER_OF_KEY_CHUNKS KEY_SIZE).
Local Abbreviation NV := (NUMBER_OF_VALUE_CHUNKS VALUE_SIZE).
Local Abbreviation ROW := (ROW_SIZE KEY_SIZE VALUE_SIZE).
Local Abbreviation shaped := (has_shape NUMBER_OF_ENTRIES KEY_SIZE VALUE_SIZE).

Lemma has_shape_spec (state : list (list Z)) :
  shaped state = true <->
  List.length state = NUMBER_OF_ENTRIES
  /\ (forall row, In row state -> List.length row = ROW).
Proof.
  unfold has_shape. rewrite andb_true_iff, Nat.eqb_eq, forallb_forall.
  split; intros [H1 H2]; split; auto; intros row Hr; apply Nat.eqb_eq; auto.
Qed.

Lemma row_accessors (f : Z) (k v : list Z) :
  List.length k = NK ->
  flag_of (f :: k ++ v) = f
  /\ KEY KEY_SIZE (f :: k ++ v) = k
  /\ VALUE KEY_SIZE (f :: k ++ v) = v.
Proof.
  intros Hk. unfold flag_of, KEY, VALUE, slice, slice_from, FLAG.
  split; [reflexivity|].
  replace (1 + NK - 1)%nat with NK by lia.
  cbn [skipn Nat.add]. split.
  - rewrite firstn_app, Hk, Nat.sub_diag, firstn_O, app_nil_r.
    apply firstn_all2. lia.
  - rewrite skipn_app, Hk, Nat.sub_diag. cbn [skipn].
    rewrite skipn_all2 by lia. reflexivity.
Qed.

Lemma row_split (row : list Z) :
  List.length row = ROW ->
  row = flag_of row :: KEY KEY_SIZE row ++ VALUE KEY_SIZE row
  /\ List.length (KEY KEY_SIZE row) = NK
  /\ List.length (VALUE KEY_SIZE row) = NV.
Proof.
  unfold ROW_SIZE. intros Hlen.
  destruct row as [|f rest]; [simpl in Hlen; lia|].
  unfold flag_of, KEY, VALUE, slice, slice_from, FLAG.
  replace (1 + NK - 1)%nat with NK by lia.
  cbn [skipn Nat.add nth]. simpl in Hlen.
  rewrite firstn_skipn, length_firstn, length_skipn.
  split; [reflexivity|]. lia.
Qed.

Lemma nth_other_middle {A : Type} (pre post : list A) (x y d : A) (j : nat) :
  j <> List.length pre ->
  nth j (pre ++ x :: post) d = nth j (pre ++ y :: post) d.
Proof.
  intros Hj. destruct (Nat.lt_ge_cases j (List.length pre)) as [Hlt|Hge].
  - rewrite !app_nth1 by exact Hlt. reflexivity.
  - rewrite !app_nth2 by exact Hge.
    destruct (j - List.length pre)%nat as [|k] eqn:E; [lia|reflexivity].
Qed.

(** ** Insert *)

Lemma list_set_middle {A : Type} (pre post : list A) (x y : A) :
  list_set (pre ++ x :: post) (List.length pre) y = pre ++ y :: post.
Proof. induction pre as [|a pre IH]; simpl; congruence. Qed.

Lemma insert_loop (post pre sel : list Z) (found : Z) :
  List.length sel = List.length pre ->
  fold_left (insert_step (pre ++ post))
            (seq (List.length pre) (List.length post))
            (sel ++ zeros (List.length post), found)
  = (sel ++ select_first_free post found,
     found + np_sum (select_first_free post found)).
Proof.
  revert pre sel found.
  induction post as [|f post IH]; intros pre sel found Hlen.
  - simpl. rewrite Z.add_0_r. reflexivity.
  - cbn [List.length seq fold_left zeros repeat select_first_free].
    unfold insert_step at 2.
    rewrite nth_middle, <- Hlen, list_set_middle.
    specialize (IH (pre ++ [f])
                   (sel ++ [b2z (found * 2 + f =? 0)])
                   (found + b2z (found * 2 + f =? 0))).
    rewrite <- !app_assoc, !length_app in IH. cbn [List.length app] in IH.
    rewrite !Nat.add_1_r in IH. rewrite Hlen.
    fold (zeros (List.length post)).
    rewrite IH by congruence.
    cbn [np_sum fold_right]. fold (np_sum (select_first_free post
      (found + b2z (found * 2 + f =? 0)))).
    f_equal. lia.
Qed.

Lemma insert_loop_selection (flags : list Z) :
  List.length flags = NUMBER_OF_ENTRIES ->
  fst (fold_left (insert_step flags) (seq 0 NUMBER_OF_ENTRIES)
                 (zeros NUMBER_OF_ENTRIES, 0))
  = select_first_free flags 0.
Proof.
  intros <-. pose proof (insert_loop flags [] [] 0 eq_refl) as H.
  simpl in H. rewrite H. reflexivity.
Qed.

Lemma select_first_free_length (flags : list Z) (found : Z) :
  List.length (select_first_free flags found) = List.length flags.
Proof.
  revert found; induction flags as [|f flags IH]; intros found; simpl;
    [reflexivity|]. now rewrite IH.
Qed.

Lemma select_first_free_bits (flags : list Z) (found s : Z) :
  In s (select_first_free flags found) -> s = 0 \/ s = 1.
Proof.
  revert found; induction flags as [|f flags IH]; intros found; simpl;
    [tauto|].
  intros [<-|H]; [|eapply IH; exact H].
  destruct (found * 2 + f =? 0); simpl; auto.
Qed.

Lemma select_first_free_found (flags : list Z) (found : Z) :
  1 <= found -> (forall f, In f flags -> 0 <= f) ->
  select_first_free flags found = zeros (List.length flags).
Proof.
  revert found; induction flags as [|f flags IH]; intros found Hf Hfl;
    [reflexivity|].
  cbn [select_first_free List.length zeros repeat].
  assert ((found * 2 + f =? 0) = false) as ->.
  { apply Z.eqb_neq. specialize (Hfl f (or_introl eq_refl)). lia. }
  simpl b2z. rewrite Z.add_0_r. f_equal.
  apply IH; [exact Hf|]. intros g Hg; apply Hfl; right; exact Hg.
Qed.

Lemma select_first_free_used (pre post : list Z) :
  (forall f, In f pre -> f = 1) ->
  select_first_free (pre ++ post) 0
  = zeros (List.length pre) ++ select_first_free post 0.
Proof.
  induction pre as [|f pre IH]; intros Hpre; [reflexivity|].
  rewrite (Hpre f (or_introl eq_refl)).
  cbn [app select_first_free List.length zeros repeat].
  change (b2z (0 * 2 + 1 =? 0)) with 0. rewrite Z.add_0_r.
  f_equal. apply IH. intros g Hg; apply Hpre; right; exact Hg.
Qed.

Lemma select_first_free_full (flags : list Z) :
  (forall f, In f flags -> f = 1) ->
  select_first_free flags 0 = zeros (List.length flags).
Proof.
  intros H. rewrite <- (app_nil_r flags) at 1.
  rewrite select_first_free_used by exact H. apply app_nil_r.
Qed.

Lemma select_first_free_first (pre post : list Z) :
  (forall f, In f pre -> f = 1) ->
  (forall f, In f post -> 0 <= f) ->
  select_first_free (pre ++ 0 :: post) 0
  = zeros (List.length pre) ++ 1 :: zeros (List.length post).
Proof.
  intros Hpre Hpost. rewrite select_first_free_used by exact Hpre.
  cbn [select_first_free]. change (b2z (0 * 2 + 0 =? 0)) with 1.
  rewrite select_first_free_found by (auto; lia). reflexivity.
Qed.

Lemma insert_delta_0 (key value : list Z) :
  List.length key = NK -> List.length value = NV ->
  insert_delta 0 key value = zeros ROW.
Proof.
  intros Hk Hv. unfold insert_delta, masked_select, ROW_SIZE.
  rewrite !map_mul_0, Hk, Hv. unfold zeros.
  rewrite <- repeat_app. reflexivity.
Qed.

Lemma insert_delta_1 (key value : list Z) :
  insert_delta 1 key value = 1 :: key ++ value.
Proof. unfold insert_delta, masked_select. now rewrite !map_mul_1. Qed.

(** What [_insert_impl] returns, with the loop read as a scan and the
    table lookups as products. *)
Lemma insert_impl_eq (state : list (list Z)) (key value : list Z) :
  List.length state = NUMBER_OF_ENTRIES ->
  (forall c, In c key -> 0 <= c < 16) ->
  (forall c, In c value -> 0 <= c < 16) ->
  _insert_impl NUMBER_OF_ENTRIES state key value
  = Some (state,
          zip_with (zip_with Z.add) state
            (map (fun s => insert_delta s key value)
                 (select_first_free (map flag_of state) 0))).
Proof.
  intros Hlen Hk Hv. unfold _insert_impl.
  pose proof (insert_loop_selection (map flag_of state)) as Hsel.
  rewrite length_map in Hsel. specialize (Hsel Hlen).
  destruct (fold_left _ _ _) as [selection found]. simpl in Hsel. subst.
  set (sel := select_first_free (map flag_of state) 0).
  rewrite (mapM_map _ (fun s => map (Z.mul s) key)).
  2:{ intros s Hs. apply keep_selected_mul; [|exact Hk].
      eapply select_first_free_bits; exact Hs. }
  cbn [bind].
  rewrite (mapM_map _ (fun s => map (Z.mul s) value)).
  2:{ intros s Hs. apply keep_selected_mul; [|exact Hv].
      eapply select_first_free_bits; exact Hs. }
  cbn [bind]. rewrite combine_map_diag, zip_with_map_r, zip_with_diag.
  reflexivity.
Qed.

Lemma insert_rows_unselected (rows : list (list Z)) (key value : list Z) :
  (forall r, In r rows -> List.length r = ROW) ->
  List.length key = NK -> List.length value = NV ->
  zip_with (zip_with Z.add) rows
    (map (fun s => insert_delta s key value) (zeros (List.length rows)))
  = rows.
Proof.
  intros Hrows Hk Hv. induction rows as [|r rows IH]; [reflexivity|].
  cbn [List.length zeros repeat map zip_with].
  rewrite insert_delta_0 by assumption.
  rewrite zip_add_zeros_r by (apply Hrows; left; reflexivity).
  f_equal. apply IH. intros r' Hr'; apply Hrows; right; exact Hr'.
Qed.

Lemma insert_rows_first_free (pre post : list (list Z)) (row key value : list Z) :
  (forall r, In r (pre ++ row :: post) -> List.length r = ROW) ->
  List.length key = NK -> List.length value = NV ->
  (forall r, In r pre -> flag_of r = 1) ->
  flag_of row = 0 ->
  (forall r, In r post -> 0 <= flag_of r) ->
  zip_with (zip_with Z.add) (pre ++ row :: post)
    (map (fun s => insert_delta s key value)
         (select_first_free (map flag_of (pre ++ row :: post)) 0))
  = pre ++ (1 :: zip_with Z.add (KEY KEY_SIZE row) key
              ++ zip_with Z.add (VALUE KEY_SIZE row) value) :: post.
Proof.
  intros Hrows Hk Hv Hpre Hrow Hpost.
  rewrite map_app. cbn [map]. rewrite Hrow.
  rewrite select_first_free_first.
  2:{ intros f Hf. apply in_map_iff in Hf as [r [<- Hr]]. auto. }
  2:{ intros f Hf. apply in_map_iff in Hf as [r [<- Hr]]. auto. }
  rewrite !length_map, map_app. cbn [map].
  rewrite zip_with_app by (rewrite length_map; unfold zeros; now rewrite repeat_length).
  cbn [zip_with].
  rewrite !insert_rows_unselected; try assumption.
  2:{ intros r Hr. apply Hrows. apply in_or_app. right. right. exact Hr. }
  2:{ intros r Hr. apply Hrows. apply in_or_app. left. exact Hr. }
  f_equal. f_equal.
  rewrite insert_delta_1.
  destruct (row_split row) as (Hsplit & HK & HV).
  { apply Hrows. apply in_or_app. right. left. reflexivity. }
  rewrite Hsplit at 1. rewrite Hrow. cbn [zip_with].
  rewrite zip_with_app by congruence. reflexivity.
Qed.

Lemma flags_binary_nonneg (state : list (list Z)) (r : list Z) :
  flags_binary state = true -> In r state -> 0 <= flag_of r.
Proof.
  unfold flags_binary. rewrite forallb_forall. intros H Hr.
  specialize (H r Hr). apply orb_true_iff in H.
  rewrite !Z.eqb_eq in H. lia.
Qed.

(** C1, as the code has it.  On a table of the compiled shape whose flags
    are all 0 or 1, with a key and a value of in-range chunks, insert
    returns a table in which the first row with flag 0 has flag 1 and
    holds, chunk by chunk, the sum of what the row held and the given key
    and value; hence the given key and value when the row held zeros.
    Every other row is unchanged, and so is the array passed in. *)
Theorem insert_fills_first_free_row
  (state : list (list Z)) (key value : list Z) (i : nat) :
  shaped state = true ->
  flags_binary state = true ->
  is_chunks NK key = true ->
  is_chunks NV value = true ->
  (i < NUMBER_OF_ENTRIES)%nat ->
  flag_of (nth i state []) = 0 ->
  (forall j, (j < i)%nat -> flag_of (nth j state []) = 1) ->
  exists new_state,
    _insert_impl NUMBER_OF_ENTRIES state key value = Some (state, new_state)
    /\ List.length new_state = NUMBER_OF_ENTRIES
    /\ flag_of (nth i new_state []) = 1
    /\ KEY KEY_SIZE (nth i new_state [])
        = zip_with Z.add (KEY KEY_SIZE (nth i state [])) key
    /\ VALUE KEY_SIZE (nth i new_state [])
        = zip_with Z.add (VALUE KEY_SIZE (nth i state [])) value
    /\ (KEY KEY_SIZE (nth i state []) = zeros NK ->
        KEY KEY_SIZE (nth i new_state []) = key)
    /\ (VALUE KEY_SIZE (nth i state []) = zeros NV ->
        VALUE KEY_SIZE (nth i new_state []) = value)
    /\ (forall j, j <> i -> nth j new_state [] = nth j state []).
Proof.
  intros Hshape Hflags Hkey Hval Hi Hfree Hused.
  apply has_shape_spec in Hshape as [Hlen Hrows].
  apply is_chunks_spec in Hkey as [Hklen Hk].
  apply is_chunks_spec in Hval as [Hvlen Hv].
  rewrite insert_impl_eq by assumption.
  eexists; split; [reflexivity|].
  destruct (nth_split (n:=i) state []) as (pre & post & Hst & Hpre);
    [lia|].
  remember (nth i state []) as row eqn:Hrow_def.
  assert (forall r, In r pre -> flag_of r = 1) as Hpre1.
  { intros r Hr. destruct (In_nth pre r [] Hr) as (j & Hj & <-).
    rewrite <- (Hused j) by lia. rewrite Hst, app_nth1 by exact Hj.
    reflexivity. }
  assert (forall r, In r post -> 0 <= flag_of r) as Hpost.
  { intros r Hr. apply (flags_binary_nonneg state); [exact Hflags|].
    rewrite Hst. apply in_or_app. right. right. exact Hr. }
  clear Hrow_def Hused Hflags. subst state.
  rewrite insert_rows_first_free by assumption.
  destruct (row_split row) as (Hsplit & HK & HV).
  { apply Hrows. apply in_or_app. right. left. reflexivity. }
  set (row' := 1 :: zip_with Z.add (KEY KEY_SIZE row) key
                 ++ zip_with Z.add (VALUE KEY_SIZE row) value).
  destruct (row_accessors 1 (zip_with Z.add (KEY KEY_SIZE row) key)
              (zip_with Z.add (VALUE KEY_SIZE row) value))
    as (Hf' & Hk' & Hv').
  { rewrite zip_with_length. lia. }
  fold row' in Hf', Hk', Hv'.
  rewrite <- Hpre, !nth_middle.
  split; [rewrite !length_app in *; simpl in *; lia|].
  split; [exact Hf'|]. split; [exact Hk'|]. split; [exact Hv'|].
  split; [|split].
  - intros Hz. rewrite Hk', Hz. apply zip_add_zeros_l. exact Hklen.
  - intros Hz. rewrite Hv', Hz. apply zip_add_zeros_l. exact Hvlen.
  - intros j Hj. apply nth_other_middle. exact Hj.
Qed.

(** ** Insert on a full table *)

Lemma table_full_spec (state : list (list Z)) :
  table_full state = true <-> (forall r, In r state -> flag_of r = 1).
Proof.
  unfold table_full. rewrite forallb_forall.
  split; intros H r Hr; apply Z.eqb_eq; auto.
Qed.

Lemma insert_full_noop (state : list (list Z)) (key value : list Z) :
  shaped state = true ->
  table_full state = true ->
  is_chunks NK key = true ->
  is_chunks NV value = true ->
  _insert_impl NUMBER_OF_ENTRIES state key value = Some (state, state).
Proof.
  intros Hshape Hfull Hkey Hval.
  apply has_shape_spec in Hshape as [Hlen Hrows].
  apply is_chunks_spec in Hkey as [Hklen Hk].
  apply is_chunks_spec in Hval as [Hvlen Hv].
  rewrite insert_impl_eq by assumption.
  rewrite select_first_free_full.
  2:{ intros f Hf. apply in_map_iff in Hf as [r [<- Hr]].
      apply table_full_spec with (state := state); assumption. }
  rewrite length_map, insert_rows_unselected by assumption.
  reflexivity.
Qed.

Lemma zeros_row_flag : flag_of (zeros ROW) = 0.
Proof. reflexivity. Qed.

Lemma zeros_row_fields :
  KEY KEY_SIZE (zeros ROW) = zeros NK /\ VALUE KEY_SIZE (zeros ROW) = zeros NV.
Proof.
  assert (zeros ROW = 0 :: zeros NK ++ zeros NV) as ->.
  { unfold ROW_SIZE, zeros. rewrite <- repeat_app. reflexivity. }
  destruct (row_accessors 0 (zeros NK) (zeros NV)) as (_ & H1 & H2).
  { unfold zeros. apply repeat_length. }
  split; assumption.
Qed.

Lemma insert_all_fills (pairs : list (list Z * list Z)) (used : list (list Z)) :
  (forall r, In r used -> List.length r = ROW /\ flag_of r = 1) ->
  (List.length used + List.length pairs = NUMBER_OF_ENTRIES)%nat ->
  forallb (fun kv => is_chunks NK (fst kv) && is_chunks NV (snd kv)) pairs
    = true ->
  exists full,
    insert_all NUMBER_OF_ENTRIES
      (used ++ zeros2 (List.length pairs) ROW) pairs = Some full
    /\ List.length full = NUMBER_OF_ENTRIES
    /\ (forall r, In r full -> List.length r = ROW /\ flag_of r = 1).
Proof.
  revert used. induction pairs as [|[key value] pairs IH];
    intros used Hused Hlen Hpairs.
  - simpl in *. rewrite app_nil_r. exists used.
    split; [reflexivity|]. split; [lia|exact Hused].
  - cbn [forallb fst snd] in Hpairs.
    apply andb_true_iff in Hpairs as [Hkv Hpairs].
    apply andb_true_iff in Hkv as [Hkey Hval].
    apply is_chunks_spec in Hkey as [Hklen Hk].
    apply is_chunks_spec in Hval as [Hvlen Hv].
    cbn [List.length zeros2 repeat insert_all] in *.
    fold (zeros2 (List.length pairs) ROW).
    assert (forall r, In r (used ++ zeros ROW :: zeros2 (List.length pairs) ROW)
                      -> List.length r = ROW) as Hrows.
    { intros r Hr. apply in_app_or in Hr as [Hr|[<-|Hr]].
      - apply Hused; exact Hr.
      - apply repeat_length.
      - apply repeat_spec in Hr. subst r. apply repeat_length. }
    rewrite insert_impl_eq; try assumption.
    2:{ rewrite length_app. cbn [List.length]. unfold zeros2.
        rewrite repeat_length. lia. }
    cbn [bind snd].
    rewrite insert_rows_first_free; try assumption.
    2:{ intros r Hr. apply Hused; exact Hr. }
    2:{ apply zeros_row_flag. }
    2:{ intros r Hr. apply repeat_spec in Hr. subst r.
        rewrite zeros_row_flag. lia. }
    destruct zeros_row_fields as [-> ->].
    rewrite !zip_add_zeros_l by assumption.
    change (used ++ (1 :: key ++ value) :: zeros2 (List.length pairs) ROW)
      with (used ++ [1 :: key ++ value] ++ zeros2 (List.length pairs) ROW).
    rewrite app_assoc.
    apply IH; [|rewrite length_app; simpl; lia|exact Hpairs].
    intros r Hr. apply in_app_or in Hr as [Hr|[<-|[]]].
    + apply Hused; exact Hr.
    + split; [|reflexivity]. unfold ROW_SIZE.
      cbn [List.length]. rewrite length_app. lia.
Qed.

(** C4. Insert on a table whose rows all have flag 1 returns the table it
    was given, for every key and value of in-range chunks, and raises
    nothing.  In particular the table reached from the empty one by as
    many inserts as it has rows is full, and one more insert returns it
    unchanged. *)
Theorem insert_on_full_table_is_noop
  (state : list (list Z)) (key value : list Z)
  (pairs : list (list Z * list Z)) :
  is_chunks NK key = true ->
  is_chunks NV value = true ->
  (shaped state = true -> table_full state = true ->
   _insert_impl NUMBER_OF_ENTRIES state key value = Some (state, state))
  /\ (List.length pairs = NUMBER_OF_ENTRIES ->
      forallb (fun kv => is_chunks NK (fst kv) && is_chunks NV (snd kv)) pairs
        = true ->
      exists full,
        insert_all NUMBER_OF_ENTRIES (zeros2 NUMBER_OF_ENTRIES ROW) pairs
          = Some full
        /\ table_full full = true
        /\ _insert_impl NUMBER_OF_ENTRIES full key value = Some (full, full)).
Proof.
  intros Hkey Hval. split.
  - intros Hshape Hfull. apply insert_full_noop; assumption.
  - intros Hlen Hpairs.
    destruct (insert_all_fills pairs []) as (full & Hall & Hfl & Hrows).
    + intros r [].
    + simpl. exact Hlen.
    + exact Hpairs.
    + rewrite Hlen in Hall. exists full. split; [exact Hall|].
      assert (table_full full = true) as Hfull.
      { apply table_full_spec. intros r Hr. apply Hrows; exact Hr. }
      split; [exact Hfull|].
      apply insert_full_noop; try assumption.
      apply has_shape_spec. split; [exact Hfl|].
      intros r Hr. apply Hrows; exact Hr.
Qed.

(** ** The key comparison *)

Lemma mapM_map_comp {A B C : Type} (f : B -> option C) (g : A -> B)
  (h : A -> C) (l : list A) :
  (forall a, In a l -> f (g a) = Some (h a)) ->
  mapM f (map g l) = Some (map h l).
Proof.
  intros H. induction l as [|a l IH]; [reflexivity|].
  cbn [map mapM]. rewrite (H a (or_introl eq_refl)). cbn [bind].
  rewrite IH by (intros b Hb; apply H; right; exact Hb).
  reflexivity.
Qed.

Lemma equal_chunks_count (a b : list Z) :
  List.length a = List.length b ->
  0 <= np_sum (map (fun d => b2z (d =? 0)) (zip_with Z.sub a b))
    <= Z.of_nat (List.length a)
  /\ (np_sum (map (fun d => b2z (d =? 0)) (zip_with Z.sub a b))
      = Z.of_nat (List.length a) <-> a = b).
Proof.
  revert b; induction a as [|x a IH]; intros [|y b] Hlen;
    simpl in Hlen; try discriminate.
  - simpl. split; [lia|tauto].
  - destruct (IH b) as [Hb Hiff]; [congruence|].
    cbn [zip_with map np_sum fold_right List.length].
    fold (np_sum (map (fun d => b2z (d =? 0)) (zip_with Z.sub a b))).
    rewrite Nat2Z.inj_succ.
    destruct (x - y =? 0) eqn:E; cbn [b2z].
    + apply Z.eqb_eq in E. split; [lia|].
      split.
      * intros H. assert (x = y) by lia. subst y. f_equal. apply Hiff. lia.
      * intros H. inversion H; subst. destruct Hiff as [_ Hiff].
        rewrite Hiff by reflexivity. lia.
    + apply Z.eqb_neq in E. split; [lia|].
      split; [lia|]. intros H. inversion H; subst. lia.
Qed.

Lemma key_selection_matches (key row : list Z) :
  List.length row = ROW -> List.length key = NK ->
  key_selection KEY_SIZE key row = b2z (row_matches KEY_SIZE key row).
Proof.
  intros Hrow Hkey. unfold key_selection, row_matches.
  destruct (row_split row Hrow) as (_ & HK & _).
  destruct (equal_chunks_count (KEY KEY_SIZE row) key) as [Hb Hiff];
    [congruence|].
  rewrite HK in Hiff. f_equal.
  destruct (chunks_eqb (KEY KEY_SIZE row) key) eqn:E.
  - apply chunks_eqb_eq in E. apply Z.eqb_eq. apply Hiff. exact E.
  - apply Z.eqb_neq. intros H. apply Hiff in H.
    apply chunks_eqb_eq in H. congruence.
Qed.

Lemma key_selection_bit (key row : list Z) :
  key_selection KEY_SIZE key row = 0 \/ key_selection KEY_SIZE key row = 1.
Proof. unfold key_selection. destruct (_ =? _); simpl; auto. Qed.

Lemma values_in_range_spec (state : list (list Z)) :
  values_in_range KEY_SIZE state = true <->
  (forall row, In row state ->
     forall c, In c (VALUE KEY_SIZE row) -> 0 <= c < 16).
Proof.
  unfold values_in_range. rewrite forallb_forall. split.
  - intros H row Hrow c Hc. specialize (H row Hrow).
    rewrite forallb_forall in H. apply in_range_bounds. auto.
  - intros H row Hrow. apply forallb_forall. intros c Hc.
    apply in_range_bounds. eauto.
Qed.

(** ** Replace *)

(** What [_replace_impl] returns, with the table lookups as products. *)
Lemma replace_impl_eq (state : list (list Z)) (key value : list Z) :
  (forall row, In row state ->
     forall c, In c (VALUE KEY_SIZE row) -> 0 <= c < 16) ->
  (forall c, In c value -> 0 <= c < 16) ->
  let new_state :=
    map (fun row =>
           firstn (1 + NK) row
           ++ zip_with Z.add
                (map (Z.mul (1 - key_selection KEY_SIZE key row))
                     (VALUE KEY_SIZE row))
                (map (Z.mul (key_selection KEY_SIZE key row)) value))
        state in
  _replace_impl KEY_SIZE state key value = Some (new_state, new_state).
Proof.
  intros Hvals Hv new_state. unfold _replace_impl.
  rewrite (mapM_map_comp _ _ (fun row =>
             map (Z.mul (key_selection KEY_SIZE key row)) value)).
  2:{ intros row Hrow. apply keep_selected_mul; [|exact Hv].
      apply key_selection_bit. }
  cbn [bind]. rewrite map_map, combine_map_diag.
  rewrite (mapM_map_comp _ _ (fun row =>
             map (Z.mul (1 - key_selection KEY_SIZE key row))
                 (VALUE KEY_SIZE row))).
  2:{ intros row Hrow. cbn [fst snd]. apply keep_selected_mul.
      - destruct (key_selection_bit key row) as [-> | ->]; auto.
      - apply Hvals; exact Hrow. }
  cbn [bind]. rewrite zip_with_map_l, zip_with_map_r, zip_with_diag.
  rewrite zip_with_map_r, zip_with_diag. reflexivity.
Qed.

Lemma replace_row_eq (key value row : list Z) :
  List.length row = ROW -> List.length key = NK -> List.length value = NV ->
  firstn (1 + NK) row
  ++ zip_with Z.add
       (map (Z.mul (1 - key_selection KEY_SIZE key row)) (VALUE KEY_SIZE row))
       (map (Z.mul (key_selection KEY_SIZE key row)) value)
  = replace_row_spec KEY_SIZE key value row.
Proof.
  intros Hrow Hkey Hval. unfold replace_row_spec.
  rewrite key_selection_matches by assumption.
  destruct (row_split row Hrow) as (Hsplit & HK & HV).
  assert (firstn (1 + NK) row = flag_of row :: KEY KEY_SIZE row) as ->.
  { rewrite Hsplit at 1. cbn [Nat.add firstn]. f_equal.
    rewrite firstn_app, HK, Nat.sub_diag, firstn_O, app_nil_r.
    apply firstn_all2. lia. }
  cbn [app]. f_equal. f_equal.
  destruct (row_matches KEY_SIZE key row); cbn [b2z].
  - change (1 - 1) with 0. rewrite map_mul_0, map_mul_1, HV.
    apply zip_add_zeros_l. exact Hval.
  - change (1 - 0) with 1. rewrite map_mul_0, map_mul_1, Hval.
    apply zip_add_zeros_r. exact HV.
Qed.

Lemma replace_impl_spec (state : list (list Z)) (key value : list Z) :
  shaped state = true ->
  values_in_range KEY_SIZE state = true ->
  List.length key = NK ->
  is_chunks NV value = true ->
  _replace_impl KEY_SIZE state key value
  = Some (map (replace_row_spec KEY_SIZE key value) state,
          map (replace_row_spec KEY_SIZE key value) state).
Proof.
  intros Hshape Hvals Hkey Hval.
  apply has_shape_spec in Hshape as [Hlen Hrows].
  apply is_chunks_spec in Hval as [Hvlen Hv].
  rewrite replace_impl_eq by (try apply values_in_range_spec; assumption).
  cbv zeta.
  assert (forall l1 l2 : list (list Z), l1 = l2 -> Some (l1, l1) = Some (l2, l2))
    as Hpair by (intros; subst; reflexivity).
  apply Hpair. apply map_ext_in. intros row Hrow.
  apply replace_row_eq; auto.
Qed.

Lemma replace_row_spec_fields (key value row : list Z) :
  List.length row = ROW -> List.length value = NV ->
  flag_of (replace_row_spec KEY_SIZE key value row) = flag_of row
  /\ KEY KEY_SIZE (replace_row_spec KEY_SIZE key value row) = KEY KEY_SIZE row
  /\ (KEY KEY_SIZE row = key ->
      VALUE KEY_SIZE (replace_row_spec KEY_SIZE key value row) = value)
  /\ (KEY KEY_SIZE row <> key ->
      VALUE KEY_SIZE (replace_row_spec KEY_SIZE key value row)
      = VALUE KEY_SIZE row).
Proof.
  intros Hrow Hval. unfold replace_row_spec.
  destruct (row_split row Hrow) as (_ & HK & _).
  match goal with
  | |- context [flag_of (?f :: ?k ++ ?v)] =>
      destruct (row_accessors f k v HK) as (H1 & H2 & H3)
  end.
  split; [exact H1|]. split; [exact H2|]. rewrite H3.
  unfold row_matches. split; intros H.
  - apply chunks_eqb_eq in H. rewrite H. reflexivity.
  - destruct (chunks_eqb (KEY KEY_SIZE row) key) eqn:E; [|reflexivity].
    apply chunks_eqb_eq in E. contradiction.
Qed.

(** C5. On a table of the compiled shape whose value chunks are in range,
    with a key of the configured length and a value of in-range chunks,
    replace returns the table in which every row whose key chunks equal
    the given key has its value chunks equal to the given value; the flag
    and the key chunks of every row are unchanged, and a row whose key
    differs keeps its value chunks.  [_replace_impl] writes the array it
    was given: the argument ends up holding the returned table. *)
Theorem replace_overwrites_matching_values
  (state : list (list Z)) (key value : list Z) :
  shaped state = true ->
  values_in_range KEY_SIZE state = true ->
  List.length key = NK ->
  is_chunks NV value = true ->
  exists new_state,
    _replace_impl KEY_SIZE state key value = Some (new_state, new_state)
    /\ new_state = map (replace_row_spec KEY_SIZE key value) state
    /\ List.length new_state = NUMBER_OF_ENTRIES
    /\ (forall i, (i < NUMBER_OF_ENTRIES)%nat ->
        flag_of (nth i new_state []) = flag_of (nth i state [])
        /\ KEY KEY_SIZE (nth i new_state []) = KEY KEY_SIZE (nth i state [])
        /\ (KEY KEY_SIZE (nth i state []) = key ->
            VALUE KEY_SIZE (nth i new_state []) = value)
        /\ (KEY KEY_SIZE (nth i state []) <> key ->
            VALUE KEY_SIZE (nth i new_state [])
            = VALUE KEY_SIZE (nth i state []))).
Proof.
  intros Hshape Hvals Hkey Hval.
  exists (map (replace_row_spec KEY_SIZE key value) state).
  split; [apply replace_impl_spec; assumption|].
  split; [reflexivity|].
  apply has_shape_spec in Hshape as [Hlen Hrows].
  apply is_chunks_spec in Hval as [Hvlen Hv].
  split; [rewrite length_map; exact Hlen|].
  intros i Hi.
  rewrite (nth_indep _ [] (replace_row_spec KEY_SIZE key value []))
    by (rewrite length_map; lia).
  rewrite map_nth.
  apply replace_row_spec_fields; [|exact Hvlen].
  apply Hrows. apply nth_In. lia.
Qed.

(** Replace when no row as stored, used or free, has key chunks equal to
    the given key: the table comes back as it was given.  The comparison
    never reads the flag, so a free row counts with the key it still
    carries. *)
Lemma replace_miss_is_noop (state : list (list Z)) (key value : list Z) :
  shaped state = true ->
  values_in_range KEY_SIZE state = true ->
  List.length key = NK ->
  is_chunks NV value = true ->
  (forall row, In row state -> KEY KEY_SIZE row <> key) ->
  _replace_impl KEY_SIZE state key value = Some (state, state).
Proof.
  intros Hshape Hvals Hkey Hval Hmiss.
  rewrite replace_impl_spec by assumption.
  apply has_shape_spec in Hshape as [Hlen Hrows].
  assert (map (replace_row_spec KEY_SIZE key value) state = state) as ->;
    [|reflexivity].
  rewrite <- (map_id state) at 2. apply map_ext_in. intros row Hrow.
  unfold replace_row_spec, row_matches.
  destruct (chunks_eqb (KEY KEY_SIZE row) key) eqn:E.
  - apply chunks_eqb_eq in E. exfalso. exact (Hmiss row Hrow E).
  - symmetry. apply row_split. apply Hrows. exact Hrow.
Qed.

(** ** Query *)

(** What [_query_impl] returns, with the table lookups as products. *)
Lemma query_impl_eq (state : list (list Z)) (key : list Z) :
  (forall row, In row state ->
     forall c, In c (VALUE KEY_SIZE row) -> 0 <= c < 16) ->
  _query_impl KEY_SIZE VALUE_SIZE state key
  = Some (state,
          np_sum (map (key_selection KEY_SIZE key) state)
          :: np_sum_axis0 NV
               (map (fun row =>
                       map (Z.mul (key_selection KEY_SIZE key row))
                           (VALUE KEY_SIZE row))
                    state)).
Proof.
  intros Hvals. unfold _query_impl.
  rewrite combine_map_diag.
  rewrite (mapM_map_comp _ _ (fun row =>
             map (Z.mul (key_selection KEY_SIZE key row))
                 (VALUE KEY_SIZE row))).
  2:{ intros row Hrow. cbn [fst snd]. apply keep_selected_mul.
      - apply key_selection_bit.
      - apply Hvals; exact Hrow. }
  reflexivity.
Qed.

Lemma np_sum_filter {A : Type} (p : A -> bool) (l : list A) :
  np_sum (map (fun a => b2z (p a)) l) = Z.of_nat (List.length (filter p l)).
Proof.
  induction l as [|a l IH]; [reflexivity|].
  cbn [map np_sum fold_right filter].
  fold (np_sum (map (fun a => b2z (p a)) l)). rewrite IH.
  destruct (p a); cbn [b2z List.length]; lia.
Qed.

Lemma query_impl_spec (state : list (list Z)) (key : list Z) :
  shaped state = true ->
  values_in_range KEY_SIZE state = true ->
  List.length key = NK ->
  _query_impl KEY_SIZE VALUE_SIZE state key
  = Some (state, query_spec KEY_SIZE VALUE_SIZE state key).
Proof.
  intros Hshape Hvals Hkey.
  apply has_shape_spec in Hshape as [Hlen Hrows].
  rewrite query_impl_eq by (apply values_in_range_spec; exact Hvals).
  unfold query_spec. f_equal. f_equal. f_equal.
  - rewrite <- np_sum_filter. f_equal. apply map_ext_in. intros row Hrow.
    apply key_selection_matches; auto.
  - f_equal. apply map_ext_in. intros row Hrow.
    rewrite key_selection_matches by auto. reflexivity.
Qed.

Lemma query_keeps_store (self : KeyValueDatabase) (key : Z)
  (r : KeyValueDatabase * option Z) :
  query NUMBER_OF_ENTRIES KEY_SIZE VALUE_SIZE self key = Some r -> fst r = self.
Proof.
  unfold query. destruct (encode_key KEY_SIZE key) as [k|]; [|discriminate].
  cbn [bind]. destruct (encrypt_run_decrypt _ _) as [result|]; [|discriminate].
  cbn [bind]. destruct (nth 0 result 0 =? 0); intros H; inversion H; reflexivity.
Qed.

(** C3. On a table of the compiled shape whose value chunks are in range,
    with a key of the configured length, query returns the number of rows
    whose key chunks all equal the given key's chunks, whatever their
    flag, followed by the chunk-wise sum over all rows of
    masked_select(sel_i, row.value), sel_i being 1 on those rows and 0 on
    the others.  The array passed in is left as it was, and so is the
    state of the store when the call goes through
    [KeyValueDatabase.query]. *)
Theorem query_counts_and_sums (state : list (list Z)) (key : list Z) :
  shaped state = true ->
  values_in_range KEY_SIZE state = true ->
  List.length key = NK ->
  _query_impl KEY_SIZE VALUE_SIZE state key
  = Some (state,
          Z.of_nat (List.length (filter (row_matches KEY_SIZE key) state))
          :: np_sum_axis0 NV
               (map (fun row =>
                       map (masked_select
                              (b2z (row_matches KEY_SIZE key row)))
                           (VALUE KEY_SIZE row))
                    state))
  /\ (forall self k r,
        query NUMBER_OF_ENTRIES KEY_SIZE VALUE_SIZE self k = Some r ->
        fst r = self).
Proof.
  intros Hshape Hvals Hkey. split.
  - apply query_impl_spec; assumption.
  - apply query_keeps_store.
Qed.

Lemma np_sum_axis0_zeros (width : nat) (rows : list (list Z)) :
  (forall r, In r rows -> r = zeros width) ->
  np_sum_axis0 width rows = zeros width.
Proof.
  intros H. induction rows as [|r rows IH]; [reflexivity|].
  cbn [np_sum_axis0 fold_right]. fold (np_sum_axis0 width rows).
  rewrite IH by (intros r' Hr'; apply H; right; exact Hr').
  rewrite (H r (or_introl eq_refl)).
  apply zip_add_zeros_r. apply repeat_length.
Qed.

Lemma filter_none {A : Type} (p : A -> bool) (l : list A) :
  (forall a, In a l -> p a = false) -> filter p l = [].
Proof.
  induction l as [|a l IH]; intros H; [reflexivity|].
  cbn [filter]. rewrite (H a (or_introl eq_refl)).
  apply IH. intros b Hb; apply H; right; exact Hb.
Qed.

Lemma query_miss (state : list (list Z)) (key : list Z) :
  shaped state = true ->
  values_in_range KEY_SIZE state = true ->
  List.length key = NK ->
  (forall row, In row state -> KEY KEY_SIZE row <> key) ->
  _query_impl KEY_SIZE VALUE_SIZE state key = Some (state, 0 :: zeros NV).
Proof.
  intros Hshape Hvals Hkey Hmiss.
  rewrite query_impl_spec by assumption.
  apply has_shape_spec in Hshape as [Hlen Hrows].
  assert (forall row, In row state -> row_matches KEY_SIZE key row = false)
    as Hno.
  { intros row Hrow. unfold row_matches.
    destruct (chunks_eqb (KEY KEY_SIZE row) key) eqn:E; [|reflexivity].
    apply chunks_eqb_eq in E. exfalso. exact (Hmiss row Hrow E). }
  unfold query_spec. rewrite filter_none by exact Hno.
  rewrite np_sum_axis0_zeros; [reflexivity|].
  intros r Hr. apply in_map_iff in Hr as (row & <- & Hrow).
  rewrite (Hno row Hrow). cbn [b2z]. unfold masked_select.
  change (fun value : Z => 0 * value) with (Z.mul 0).
  rewrite map_mul_0. f_equal.
  apply row_split. apply Hrows; exact Hrow.
Qed.

(** Query when no row as stored, used or free, has key chunks equal to
    the given key: found = 0 with a zero value, and
    [KeyValueDatabase.query] returns [None]. *)
Lemma query_miss_found_zero
  (state : list (list Z)) (key : list Z) (k : Z) :
  shaped state = true ->
  values_in_range KEY_SIZE state = true ->
  List.length key = NK ->
  (forall row, In row state -> KEY KEY_SIZE row <> key) ->
  _query_impl KEY_SIZE VALUE_SIZE state key = Some (state, 0 :: zeros NV)
  /\ (encode_key KEY_SIZE k = Some key ->
      query NUMBER_OF_ENTRIES KEY_SIZE VALUE_SIZE {| _state := state |} k
      = Some ({| _state := state |}, None)).
Proof.
  intros Hshape Hvals Hkey Hmiss.
  pose proof (query_miss state key Hshape Hvals Hkey Hmiss) as Hq.
  split; [exact Hq|].
  intros Henc. unfold query. rewrite Henc. cbn [bind _state].
  rewrite Hshape, Hkey, Nat.eqb_refl, Hq. reflexivity.
Qed.

(** ** Insert, then query, on the empty table *)

Lemma zeros2_unfold :
  (0 < NUMBER_OF_ENTRIES)%nat ->
  zeros2 NUMBER_OF_ENTRIES ROW = zeros ROW :: zeros2 (NUMBER_OF_ENTRIES - 1) ROW.
Proof.
  intros H. unfold zeros2.
  replace NUMBER_OF_ENTRIES with (S (NUMBER_OF_ENTRIES - 1)) at 1 by lia.
  reflexivity.
Qed.

Lemma zeros2_shaped : shaped (zeros2 NUMBER_OF_ENTRIES ROW) = true.
Proof.
  apply has_shape_spec. unfold zeros2. split; [apply repeat_length|].
  intros row Hrow. apply repeat_spec in Hrow. subst row. apply repeat_length.
Qed.

Lemma insert_empty (key value : list Z) :
  (0 < NUMBER_OF_ENTRIES)%nat ->
  is_chunks NK key = true ->
  is_chunks NV value = true ->
  _insert_impl NUMBER_OF_ENTRIES (zeros2 NUMBER_OF_ENTRIES ROW) key value
  = Some (zeros2 NUMBER_OF_ENTRIES ROW,
          (1 :: key ++ value) :: zeros2 (NUMBER_OF_ENTRIES - 1) ROW).
Proof.
  intros HN Hkey Hval.
  apply is_chunks_spec in Hkey as [Hklen Hk].
  apply is_chunks_spec in Hval as [Hvlen Hv].
  pose proof zeros2_shaped as Hshape.
  apply has_shape_spec in Hshape as [Hlen Hrows].
  rewrite insert_impl_eq by assumption.
  f_equal. f_equal.
  rewrite zeros2_unfold in * by exact HN.
  pose proof (insert_rows_first_free [] (zeros2 (NUMBER_OF_ENTRIES - 1) ROW)
                (zeros ROW) key value) as H.
  cbn [app] in H. rewrite H; try assumption.
  - destruct zeros_row_fields as [-> ->].
    rewrite !zip_add_zeros_l by assumption. reflexivity.
  - intros r [].
  - apply zeros_row_flag.
  - intros r Hr. apply repeat_spec in Hr. subst r.
    rewrite zeros_row_flag. lia.
Qed.

Lemma chunks_eqb_sym (a b : list Z) : chunks_eqb a b = chunks_eqb b a.
Proof.
  destruct (chunks_eqb a b) eqn:E1, (chunks_eqb b a) eqn:E2; try reflexivity.
  - apply chunks_eqb_eq in E1. subst b.
    assert (chunks_eqb a a = true) by (apply chunks_eqb_eq; reflexivity).
    congruence.
  - apply chunks_eqb_eq in E2. subst b.
    assert (chunks_eqb a a = true) by (apply chunks_eqb_eq; reflexivity).
    congruence.
Qed.

Lemma filter_repeat {A : Type} (p : A -> bool) (a : A) (n : nat) :
  filter p (repeat a n) = if p a then repeat a n else [].
Proof.
  induction n as [|n IH]; cbn [repeat filter]; [now destruct (p a)|].
  rewrite IH. destruct (p a); reflexivity.
Qed.

Lemma query_after_insert_empty (key value : list Z) :
  (0 < NUMBER_OF_ENTRIES)%nat ->
  is_chunks NK key = true ->
  is_chunks NV value = true ->
  let state := (1 :: key ++ value) :: zeros2 (NUMBER_OF_ENTRIES - 1) ROW in
  shaped state = true
  /\ _query_impl KEY_SIZE VALUE_SIZE state key
     = Some (state,
             (if chunks_eqb key (zeros NK)
              then Z.of_nat NUMBER_OF_ENTRIES else 1) :: value).
Proof.
  intros HN Hkey Hval state.
  apply is_chunks_spec in Hkey as [Hklen Hk].
  apply is_chunks_spec in Hval as [Hvlen Hv].
  destruct (row_accessors 1 key value Hklen) as (Hf0 & Hk0 & Hv0).
  destruct zeros_row_fields as [Hkz Hvz].
  assert (shaped state = true) as Hshape.
  { apply has_shape_spec. subst state. cbn [List.length]. unfold zeros2.
    rewrite repeat_length. split; [lia|].
    intros row [<-|Hrow].
    - unfold ROW_SIZE. cbn [List.length]. rewrite length_app. lia.
    - apply repeat_spec in Hrow. subst row. apply repeat_length. }
  split; [exact Hshape|].
  rewrite query_impl_spec; [|exact Hshape| |exact Hklen].
  2:{ apply values_in_range_spec. subst state. intros row [<-|Hrow] c Hc.
      - rewrite Hv0 in Hc. auto.
      - apply repeat_spec in Hrow. subst row. rewrite Hvz in Hc.
        apply repeat_spec in Hc. lia. }
  assert (row_matches KEY_SIZE key (1 :: key ++ value) = true) as Hm0.
  { unfold row_matches. rewrite Hk0. apply chunks_eqb_eq. reflexivity. }
  assert (row_matches KEY_SIZE key (zeros ROW) = chunks_eqb key (zeros NK))
    as Hmz.
  { unfold row_matches. rewrite Hkz. apply chunks_eqb_sym. }
  unfold query_spec. subst state. cbn [filter map].
  rewrite Hm0, Hv0. cbn [b2z List.length]. unfold zeros2.
  rewrite filter_repeat, Hmz.
  f_equal. f_equal. f_equal.
  - destruct (chunks_eqb key (zeros NK)); cbn [List.length];
      [rewrite repeat_length|]; lia.
  - cbn [np_sum_axis0 fold_right].
    fold (np_sum_axis0 NV
            (map (fun row =>
                    map (masked_select (b2z (row_matches KEY_SIZE key row)))
                        (VALUE KEY_SIZE row))
                 (repeat (zeros ROW) (NUMBER_OF_ENTRIES - 1)))).
    rewrite np_sum_axis0_zeros.
    + unfold masked_select. change (fun value0 : Z => 1 * value0) with (Z.mul 1).
      rewrite map_mul_1. apply zip_add_zeros_r. exact Hvlen.
    + intros r Hr. apply in_map_iff in Hr as (row & <- & Hrow).
      apply repeat_spec in Hrow. subst row. rewrite Hvz.
      unfold zeros. rewrite map_repeat. f_equal. unfold masked_select. lia.
Qed.

(** Insert then query on the empty table, for every key: the value comes
    back, and found counts the inserted row and, when the key chunks are
    all zero, every free row as well. *)
Lemma insert_then_query (key value : list Z) :
  (0 < NUMBER_OF_ENTRIES)%nat ->
  is_chunks NK key = true ->
  is_chunks NV value = true ->
  exists state1,
    _insert_impl NUMBER_OF_ENTRIES (zeros2 NUMBER_OF_ENTRIES ROW) key value
    = Some (zeros2 NUMBER_OF_ENTRIES ROW, state1)
    /\ shaped state1 = true
    /\ _query_impl KEY_SIZE VALUE_SIZE state1 key
       = Some (state1,
               (if chunks_eqb key (zeros NK)
                then Z.of_nat NUMBER_OF_ENTRIES else 1) :: value).
Proof.
  intros HN Hkey Hval.
  exists ((1 :: key ++ value) :: zeros2 (NUMBER_OF_ENTRIES - 1) ROW).
  split; [apply insert_empty; assumption|].
  apply query_after_insert_empty; assumption.
Qed.

(** X4. Insert, then query, through the store: for every capacity of at
    least one row, key and value sizes that are positive multiples of
    CHUNK_SIZE, and every key and value within these sizes, the value
    below 2^63 so that [decode] stays inside [int64], [insert(k, v)]
    on the store as built followed by [query(k)] returns [v]; the found
    cell the circuit returns is 1, or NUMBER_OF_ENTRIES when k is 0. *)
Lemma store_insert_then_query (k v : Z) :
  (0 < NUMBER_OF_ENTRIES)%nat ->
  (KEY_SIZE mod CHUNK_SIZE = 0)%nat -> (0 < KEY_SIZE)%nat ->
  (VALUE_SIZE mod CHUNK_SIZE = 0)%nat -> (0 < VALUE_SIZE)%nat ->
  0 <= k < 2 ^ Z.of_nat KEY_SIZE ->
  0 <= v < 2 ^ Z.of_nat VALUE_SIZE ->
  v < 2 ^ 63 ->
  exists db1 key value,
    insert NUMBER_OF_ENTRIES KEY_SIZE VALUE_SIZE
           (init NUMBER_OF_ENTRIES KEY_SIZE VALUE_SIZE) k v = Some db1
    /\ query NUMBER_OF_ENTRIES KEY_SIZE VALUE_SIZE db1 k = Some (db1, Some v)
    /\ encode_key KEY_SIZE k = Some key
    /\ encode_value VALUE_SIZE v = Some value
    /\ _query_impl KEY_SIZE VALUE_SIZE (_state db1) key
       = Some (_state db1,
               (if k =? 0 then Z.of_nat NUMBER_OF_ENTRIES else 1) :: value).
Proof.
  intros HN HKm HK HVm HV Hk Hv Hv63.
  destruct (encode_is_chunks k KEY_SIZE HKm HK Hk)
    as (key & Hek & Hkc & Hkd & Hkz).
  destruct (encode_is_chunks v VALUE_SIZE HVm HV Hv)
    as (value & Hev & Hvc & Hvd & _).
  fold NK in Hkc, Hkz. fold NV in Hvc.
  destruct (insert_then_query key value HN Hkc Hvc)
    as (state1 & Hins & Hshape1 & Hq).
  pose proof Hkc as Hkc'. apply is_chunks_spec in Hkc' as [Hklen _].
  pose proof Hvc as Hvc'. apply is_chunks_spec in Hvc' as [Hvlen _].
  assert ((if chunks_eqb key (zeros NK) then Z.of_nat NUMBER_OF_ENTRIES else 1)
          = (if k =? 0 then Z.of_nat NUMBER_OF_ENTRIES else 1)) as Hfound.
  { destruct (chunks_eqb key (zeros NK)) eqn:E.
    - apply chunks_eqb_eq in E. apply Hkz in E. rewrite E. reflexivity.
    - destruct (k =? 0) eqn:E0; [|reflexivity].
      apply Z.eqb_eq in E0. apply Hkz in E0.
      apply chunks_eqb_eq in E0. congruence. }
  rewrite Hfound in Hq.
  exists {| _state := state1 |}, key, value.
  split; [|split; [|split; [exact Hek|split; [exact Hev|exact Hq]]]].
  - unfold insert, encode_key, encode_value, init.
    rewrite Hek, Hev. cbn [bind _state].
    rewrite zeros2_shaped, Hklen, Hvlen, !Nat.eqb_refl.
    unfold encrypt_run_decrypt. cbn [andb]. rewrite Hins. reflexivity.
  - unfold query, encode_key. rewrite Hek. cbn [bind _state].
    rewrite Hshape1, Hklen, Nat.eqb_refl.
    unfold encrypt_run_decrypt. cbn [andb]. rewrite Hq. cbn [bind snd nth].
    assert (((if k =? 0 then Z.of_nat NUMBER_OF_ENTRIES else 1) =? 0) = false)
      as ->.
    { apply Z.eqb_neq. destruct (k =? 0); lia. }
    unfold slice_from. cbn [skipn].
    rewrite (decode_chunks NV value Hvc) by lia. rewrite Hvd. reflexivity.
Qed.

End CircuitProofs.

(** ** The store of [KVStore_commented.py]: five rows, 32-bit keys and values *)

(** The scenario the source file runs after building the store. *)
Lemma commented_scenario :
  exists db1 db2 db3 db4,
    Commented.insert Commented.db0 3 4 = Some db1
    /\ Commented.query db1 3 = Some (db1, Some 4)
    /\ Commented.replace db1 3 1 = Some db2
    /\ Commented.query db2 3 = Some (db2, Some 1)
    /\ Commented.insert db2 25 40 = Some db3
    /\ Commented.query db3 25 = Some (db3, Some 40)
    /\ Commented.query db3 4 = Some (db3, None)
    /\ Commented.replace db3 3 5 = Some db4
    /\ Commented.query db4 3 = Some (db4, Some 5).
Proof.
  do 4 eexists. repeat (split; [vm_compute; reflexivity|]).
  vm_compute; reflexivity.
Qed.

Lemma after_replace_zero_reached :
  Commented.replace Commented.db0 0 7
  = Some {| _state := Commented.after_replace_zero |}.
Proof. vm_compute. reflexivity. Qed.

(** C1, as it is stated, fails.  The table below has flags 0, every chunk
    in range and row 0 free; insert of key 3 and value 4 leaves value
    chunks [... 11] in row 0, not the chunks [... 4] of the value.  The
    table is the one [replace(0, 7)] leaves on the empty table. *)
Lemma insert_into_nonzero_free_row :
  let state := Commented.after_replace_zero in
  let key := Commented.chunks_of 3 in
  let value := Commented.chunks_of 4 in
  has_shape 5 32 32 state = true
  /\ flags_binary state = true
  /\ keys_in_range 32 state = true
  /\ values_in_range 32 state = true
  /\ is_chunks 8 key = true
  /\ is_chunks 8 value = true
  /\ flag_of (nth 0 state []) = 0
  /\ exists new_state,
       _insert_impl 5 state key value = Some (state, new_state)
       /\ flag_of (nth 0 new_state []) = 1
       /\ KEY 32 (nth 0 new_state []) = key
       /\ VALUE 32 (nth 0 new_state []) = [0; 0; 0; 0; 0; 0; 0; 11]
       /\ VALUE 32 (nth 0 new_state []) <> value.
Proof.
  cbv zeta. repeat (split; [vm_compute; reflexivity|]).
  eexists. split; [vm_compute; reflexivity|].
  repeat (split; [vm_compute; reflexivity|]).
  vm_compute. discriminate.
Qed.

Lemma insert_fills_first_free_row_witness :
  let state := Commented.two_used in
  let key := Commented.chunks_of 7 in
  let value := Commented.chunks_of 200 in
  has_shape 5 32 32 state = true
  /\ flags_binary state = true
  /\ is_chunks (NUMBER_OF_KEY_CHUNKS 32) key = true
  /\ is_chunks (NUMBER_OF_VALUE_CHUNKS 32) value = true
  /\ (2 < 5)%nat
  /\ flag_of (nth 2 state []) = 0
  /\ (forall j, (j < 2)%nat -> flag_of (nth j state []) = 1)
  /\ exists new_state,
       _insert_impl 5 state key value = Some (state, new_state)
       /\ List.length new_state = 5%nat
       /\ flag_of (nth 2 new_state []) = 1
       /\ KEY 32 (nth 2 new_state []) = key
       /\ VALUE 32 (nth 2 new_state []) = value
       /\ (forall j, j <> 2%nat -> nth j new_state [] = nth j state []).
Proof.
  cbv zeta.
  assert (H1 : has_shape 5 32 32 Commented.two_used = true) by reflexivity.
  assert (H2 : flags_binary Commented.two_used = true) by reflexivity.
  assert (H3 : is_chunks (NUMBER_OF_KEY_CHUNKS 32) (Commented.chunks_of 7) = true)
    by reflexivity.
  assert (H4 : is_chunks (NUMBER_OF_VALUE_CHUNKS 32) (Commented.chunks_of 200)
               = true) by reflexivity.
  assert (H5 : (2 < 5)%nat) by lia.
  assert (H6 : flag_of (nth 2 Commented.two_used []) = 0) by reflexivity.
  assert (H7 : forall j, (j < 2)%nat ->
                 flag_of (nth j Commented.two_used []) = 1).
  { intros [|[|j]] Hj; [reflexivity|reflexivity|lia]. }
  repeat (split; [assumption|]).
  destruct (insert_fills_first_free_row 5 32 32 Commented.two_used
              (Commented.chunks_of 7) (Commented.chunks_of 200) 2
              H1 H2 H3 H4 H5 H6 H7)
    as (new_state & Hi & Hl & Hf & _ & _ & Hk & Hv & Ho).
  exists new_state.
  repeat (split; [assumption|]).
  split; [apply Hk; reflexivity|]. split; [apply Hv; reflexivity|exact Ho].
Defined.

Lemma insert_on_full_table_is_noop_witness :
  let state := Commented.full_table in
  let key := Commented.chunks_of 9 in
  let value := Commented.chunks_of 77 in
  let pairs :=
    map (fun n => (Commented.chunks_of n, Commented.chunks_of (2 * n)))
        [11; 12; 13; 14; 15] in
  is_chunks (NUMBER_OF_KEY_CHUNKS 32) key = true
  /\ is_chunks (NUMBER_OF_VALUE_CHUNKS 32) value = true
  /\ has_shape 5 32 32 state = true
  /\ table_full state = true
  /\ List.length pairs = 5%nat
  /\ forallb (fun kv => is_chunks (NUMBER_OF_KEY_CHUNKS 32) (fst kv)
                        && is_chunks (NUMBER_OF_VALUE_CHUNKS 32) (snd kv))
             pairs = true
  /\ _insert_impl 5 state key value = Some (state, state)
  /\ exists full,
       insert_all 5 (zeros2 5 (ROW_SIZE 32 32)) pairs = Some full
       /\ table_full full = true
       /\ _insert_impl 5 full key value = Some (full, full).
Proof.
  cbv zeta.
  assert (H1 : is_chunks (NUMBER_OF_KEY_CHUNKS 32) (Commented.chunks_of 9) = true)
    by reflexivity.
  assert (H2 : is_chunks (NUMBER_OF_VALUE_CHUNKS 32) (Commented.chunks_of 77)
               = true) by reflexivity.
  assert (H3 : has_shape 5 32 32 Commented.full_table = true) by reflexivity.
  assert (H4 : table_full Commented.full_table = true) by reflexivity.
  pose (pairs := map (fun n => (Commented.chunks_of n,
                                Commented.chunks_of (2 * n)))
                     [11; 12; 13; 14; 15]).
  assert (H5 : List.length pairs = 5%nat) by reflexivity.
  assert (H6 : forallb (fun kv =>
                  is_chunks (NUMBER_OF_KEY_CHUNKS 32) (fst kv)
                  && is_chunks (NUMBER_OF_VALUE_CHUNKS 32) (snd kv))
                 pairs = true) by reflexivity.
  repeat (split; [assumption|]).
  destruct (insert_on_full_table_is_noop 5 32 32 Commented.full_table
              (Commented.chunks_of 9) (Commented.chunks_of 77) pairs H1 H2)
    as [Ha Hb].
  split; [exact (Ha H3 H4)|exact (Hb H5 H6)].
Defined.

Lemma replace_overwrites_matching_values_witness :
  let state := Commented.two_used in
  let key := Commented.chunks_of 25 in
  let value := Commented.chunks_of 99 in
  has_shape 5 32 32 state = true
  /\ values_in_range 32 state = true
  /\ List.length key = NUMBER_OF_KEY_CHUNKS 32
  /\ is_chunks (NUMBER_OF_VALUE_CHUNKS 32) value = true
  /\ exists new_state,
       _replace_impl 32 state key value = Some (new_state, new_state)
       /\ new_state = map (replace_row_spec 32 key value) state
       /\ VALUE 32 (nth 1 new_state []) = value
       /\ VALUE 32 (nth 0 new_state []) = VALUE 32 (nth 0 state []).
Proof.
  cbv zeta.
  assert (H1 : has_shape 5 32 32 Commented.two_used = true) by reflexivity.
  assert (H2 : values_in_range 32 Commented.two_used = true) by reflexivity.
  assert (H3 : List.length (Commented.chunks_of 25) = NUMBER_OF_KEY_CHUNKS 32)
    by reflexivity.
  assert (H4 : is_chunks (NUMBER_OF_VALUE_CHUNKS 32) (Commented.chunks_of 99)
               = true) by reflexivity.
  repeat (split; [assumption|]).
  destruct (replace_overwrites_matching_values 5 32 32 Commented.two_used
              (Commented.chunks_of 25) (Commented.chunks_of 99) H1 H2 H3 H4)
    as (new_state & Hr & He & _ & Hrows).
  exists new_state. split; [exact Hr|]. split; [exact He|]. split.
  - destruct (Hrows 1%nat) as (_ & _ & Hm & _); [lia|].
    apply Hm. reflexivity.
  - destruct (Hrows 0%nat) as (_ & _ & _ & Hn); [lia|].
    apply Hn. vm_compute. discriminate.
Defined.

Lemma query_counts_and_sums_witness :
  let state := Commented.two_used in
  let key := Commented.chunks_of 25 in
  has_shape 5 32 32 state = true
  /\ values_in_range 32 state = true
  /\ List.length key = NUMBER_OF_KEY_CHUNKS 32
  /\ _query_impl 32 32 state key = Some (state, 1 :: Commented.chunks_of 40).
Proof.
  cbv zeta.
  assert (H1 : has_shape 5 32 32 Commented.two_used = true) by reflexivity.
  assert (H2 : values_in_range 32 Commented.two_used = true) by reflexivity.
  assert (H3 : List.length (Commented.chunks_of 25) = NUMBER_OF_KEY_CHUNKS 32)
    by reflexivity.
  repeat (split; [assumption|]).
  exact (proj1 (query_counts_and_sums 5 32 32 Commented.two_used
                  (Commented.chunks_of 25) H1 H2 H3)).
Defined.

(** C2 at the key 0.  On the empty table of the source (five rows, 32-bit
    keys and values), insert of key 0 with value 4 and then query of key 0
    returns the value 4 with found = 5: the four rows still free hold
    zero key chunks and are counted with the inserted row. *)
Theorem insert_query_key_zero_found_5 :
  exists db1 key value,
    Commented.insert Commented.db0 0 4 = Some db1
    /\ encode_key 32 0 = Some key
    /\ encode_value 32 4 = Some value
    /\ _query_impl 32 32 (_state db1) key = Some (_state db1, 5 :: value)
    /\ Commented.query db1 0 = Some (db1, Some 4).
Proof.
  do 3 eexists. repeat (split; [vm_compute; reflexivity|]).
  vm_compute; reflexivity.
Qed.

(** The key 0 on the store as built: nothing was inserted, and
    [query(0)] returns the value 0 instead of [None]; [replace(0, 7)]
    writes 7 into every free row, and the next [insert(3, 4)] then stores
    the value 11 under the key 3. *)
Lemma key_zero_on_empty_store :
  Commented.query Commented.db0 0 = Some (Commented.db0, Some 0)
  /\ exists db1 db2,
       Commented.replace Commented.db0 0 7 = Some db1
       /\ db1 <> Commented.db0
       /\ Commented.insert db1 3 4 = Some db2
       /\ Commented.query db2 3 = Some (db2, Some 11).
Proof.
  split; [vm_compute; reflexivity|].
  do 2 eexists. split; [vm_compute; reflexivity|].
  split; [vm_compute; discriminate|].
  split; [vm_compute; reflexivity|]. vm_compute; reflexivity.
Qed.

(** C8 at the key 0.  The store of the source as built (five rows, 32-bit
    keys and values) has no used row, so no row holds a key; yet
    [replace(0, 7)] does not return the table it was given: the zero key
    chunks of the five free rows equal the chunks of the key 0, the
    selection never reads the flag, and 7 is written into every row. *)
Theorem replace_key_zero_writes_free_rows :
  used_rows (_state Commented.db0) = 0%nat
  /\ encode_key 32 0 = Some (Commented.chunks_of 0)
  /\ encode_value 32 7 = Some (Commented.chunks_of 7)
  /\ _replace_impl 32 (_state Commented.db0)
                   (Commented.chunks_of 0) (Commented.chunks_of 7)
     = Some (Commented.after_replace_zero, Commented.after_replace_zero)
  /\ Commented.after_replace_zero <> _state Commented.db0
  /\ Commented.replace Commented.db0 0 7
     = Some {| _state := Commented.after_replace_zero |}.
Proof.
  split; [reflexivity|]. split; [vm_compute; reflexivity|].
  split; [vm_compute; reflexivity|]. split; [vm_compute; reflexivity|].
  split; [vm_compute; discriminate|]. vm_compute; reflexivity.
Qed.

(** C9 at the key 0.  The store of the source as built has no used row,
    so no row holds a key; yet query of the key 0 returns found = 5, not
    0: each of the five free rows is counted, and
    [KeyValueDatabase.query] returns the value 0 instead of [None]. *)
Theorem query_key_zero_found_on_new_store :
  used_rows (_state Commented.db0) = 0%nat
  /\ encode_key 32 0 = Some (Commented.chunks_of 0)
  /\ _query_impl 32 32 (_state Commented.db0) (Commented.chunks_of 0)
     = Some (_state Commented.db0, 5 :: zeros (NUMBER_OF_VALUE_CHUNKS 32))
  /\ Commented.query Commented.db0 0 = Some (Commented.db0, Some 0).
Proof.
  split; [reflexivity|]. split; [vm_compute; reflexivity|].
  split; vm_compute; reflexivity.
Qed.

(** ** The circuits of [KVStore_4bit.py] agree with those above *)

Lemma lut_zero_select (found f : Z) :
  found = 0 \/ found = 1 -> f = 0 \/ f = 1 ->
  lut_get lut_zero (found * 2 + f) = Some (b2z (found * 2 + f =? 0)).
Proof. intros [-> | ->] [-> | ->]; reflexivity. Qed.

Lemma fourbit_insert_loop (post pre sel : list Z) (found : Z) :
  List.length sel = List.length pre ->
  found = 0 \/ found = 1 ->
  (forall f, In f post -> f = 0 \/ f = 1) ->
  fold_left (FourBit.insert_step (pre ++ post))
            (seq (List.length pre) (List.length post))
            (Some (sel ++ zeros (List.length post), found))
  = Some (sel ++ select_first_free post found,
          found + np_sum (select_first_free post found)).
Proof.
  revert pre sel found.
  induction post as [|f post IH]; intros pre sel found Hlen Hfound Hpost.
  - simpl. rewrite Z.add_0_r. reflexivity.
  - cbn [List.length seq fold_left zeros repeat select_first_free].
    unfold FourBit.insert_step at 2. cbn [bind].
    rewrite nth_middle.
    rewrite lut_zero_select by (auto; apply Hpost; left; reflexivity).
    cbn [bind]. rewrite <- Hlen, list_set_middle.
    specialize (IH (pre ++ [f])
                   (sel ++ [b2z (found * 2 + f =? 0)])
                   (found + b2z (found * 2 + f =? 0))).
    rewrite <- !app_assoc, !length_app in IH. cbn [List.length app] in IH.
    rewrite !Nat.add_1_r in IH. rewrite Hlen.
    fold (zeros (List.length post)).
    rewrite IH.
    + cbn [np_sum fold_right].
      fold (np_sum (select_first_free post
                      (found + b2z (found * 2 + f =? 0)))).
      f_equal. f_equal. lia.
    + congruence.
    + destruct Hfound as [-> | ->];
        destruct (Hpost f (or_introl eq_refl)) as [-> | ->]; simpl; auto.
    + intros g Hg. apply Hpost. right. exact Hg.
Qed.

(** [_insert_impl] of the 4-bit file returns what [_insert_impl] of the
    commented file returns at its sizes (five rows, one chunk per key and
    per value), on every table whose flags are 0 or 1. *)
Lemma fourbit_insert_agrees (state : list (list Z)) (key value : list Z) :
  has_shape 5 4 4 state = true ->
  flags_binary state = true ->
  is_chunks 1 key = true ->
  is_chunks 1 value = true ->
  FourBit._insert_impl state key value = _insert_impl 5 state key value.
Proof.
  intros Hshape Hflags Hkey Hval.
  apply has_shape_spec in Hshape as [Hlen Hrows].
  apply is_chunks_spec in Hkey as [Hklen Hk].
  apply is_chunks_spec in Hval as [Hvlen Hv].
  rewrite insert_impl_eq by assumption.
  unfold FourBit._insert_impl.
  pose proof (fourbit_insert_loop (map flag_of state) [] [] 0 eq_refl
                (or_introl eq_refl)) as Hloop.
  cbn [app List.length] in Hloop. rewrite length_map, Hlen in Hloop.
  change FourBit.NUMBER_OF_ENTRIES with 5%nat.
  rewrite Hloop.
  2:{ intros f Hf. apply in_map_iff in Hf as (row & <- & Hrow).
      unfold flags_binary in Hflags. rewrite forallb_forall in Hflags.
      specialize (Hflags row Hrow). apply orb_true_iff in Hflags.
      rewrite !Z.eqb_eq in Hflags. exact Hflags. }
  cbn [bind fst].
  change FourBit.lut2_select with keep_selected.
  set (sel := select_first_free (map flag_of state) 0).
  rewrite (mapM_map _ (fun s => map (Z.mul s) key)).
  2:{ intros s Hs. apply keep_selected_mul; [|exact Hk].
      eapply select_first_free_bits; exact Hs. }
  cbn [bind].
  rewrite (mapM_map _ (fun s => map (Z.mul s) value)).
  2:{ intros s Hs. apply keep_selected_mul; [|exact Hv].
      eapply select_first_free_bits; exact Hs. }
  cbn [bind]. rewrite combine_map_diag, zip_with_map_r, zip_with_diag.
  reflexivity.
Qed.

Lemma fourbit_replace_loop (post pre : list (list Z)) (sel key : list Z) :
  List.length sel = List.length pre ->
  (forall k, In k post -> List.length k = 1%nat) ->
  List.length key = 1%nat ->
  fold_left (FourBit.replace_step (pre ++ post) key)
            (seq (List.length pre) (List.length post))
            (Some (sel ++ zeros (List.length post)))
  = Some (sel ++ map (fun k => b2z (nth 0 k 0 - nth 0 key 0 =? 0)) post).
Proof.
  revert pre sel.
  induction post as [|k post IH]; intros pre sel Hlen Hpost Hkey.
  - reflexivity.
  - cbn [List.length seq fold_left zeros repeat map].
    unfold FourBit.replace_step at 2. cbn [bind].
    rewrite nth_middle.
    assert (List.length k = 1%nat) as Hk by (apply Hpost; left; reflexivity).
    destruct k as [|a [|a' k']]; try discriminate.
    destruct key as [|b [|b' key']]; try discriminate.
    cbn [zip_with nth]. rewrite <- Hlen, list_set_middle.
    specialize (IH (pre ++ [[a]]) (sel ++ [b2z (a - b =? 0)])).
    rewrite <- !app_assoc, !length_app in IH. cbn [List.length app] in IH.
    rewrite !Nat.add_1_r in IH. rewrite Hlen.
    fold (zeros (List.length post)).
    rewrite IH; [reflexivity|congruence| |reflexivity].
    intros k Hin. apply Hpost. right. exact Hin.
Qed.

Lemma key_selection_one_chunk (key row : list Z) :
  List.length (KEY 4 row) = 1%nat -> List.length key = 1%nat ->
  b2z (nth 0 (KEY 4 row) 0 - nth 0 key 0 =? 0) = key_selection 4 key row.
Proof.
  intros HK Hkey. unfold key_selection.
  destruct (KEY 4 row) as [|a [|a' k']]; try discriminate.
  destruct key as [|b [|b' key']]; try discriminate.
  cbn [zip_with map nth np_sum fold_right].
  destruct (a - b =? 0); reflexivity.
Qed.

(** [_replace_impl] of the 4-bit file returns the table [_replace_impl] of
    the commented file returns at its sizes; it builds a fresh array, so
    the array passed in is left as it was. *)
Lemma fourbit_replace_agrees (state : list (list Z)) (key value : list Z) :
  has_shape 5 4 4 state = true ->
  values_in_range 4 state = true ->
  List.length key = 1%nat ->
  is_chunks 1 value = true ->
  FourBit._replace_impl state key value
  = Some (state, map (replace_row_spec 4 key value) state)
  /\ _replace_impl 4 state key value
     = Some (map (replace_row_spec 4 key value) state,
             map (replace_row_spec 4 key value) state).
Proof.
  intros Hshape Hvals Hkey Hval.
  split; [|apply (replace_impl_spec 5 4 4); assumption].
  apply has_shape_spec in Hshape as [Hlen Hrows].
  apply is_chunks_spec in Hval as [Hvlen Hv].
  pose proof (proj1 (values_in_range_spec 4 state) Hvals) as Hvr.
  unfold FourBit._replace_impl.
  change FourBit.KEY with (KEY 4). change FourBit.VALUE with (VALUE 4).
  change FourBit.lut2_select with keep_selected.
  change FourBit.NUMBER_OF_ENTRIES with 5%nat.
  pose proof (fourbit_replace_loop (map (KEY 4) state) [] [] key eq_refl)
    as Hloop.
  cbn [app List.length] in Hloop. rewrite length_map, Hlen in Hloop.
  rewrite Hloop; [|intros k Hk|exact Hkey].
  2:{ apply in_map_iff in Hk as (row & <- & Hrow).
      apply (row_split 4 4 row). apply Hrows. exact Hrow. }
  cbn [bind]. rewrite map_map.
  rewrite (map_ext_in _ (key_selection 4 key)).
  2:{ intros row Hrow. apply key_selection_one_chunk; [|exact Hkey].
      apply (row_split 4 4 row). apply Hrows. exact Hrow. }
  rewrite (mapM_map_comp _ _ (fun row =>
             map (Z.mul (key_selection 4 key row)) value)).
  2:{ intros row Hrow. apply keep_selected_mul; [|exact Hv].
      apply key_selection_bit. }
  cbn [bind]. rewrite map_map, combine_map_diag.
  rewrite (mapM_map_comp _ _ (fun row =>
             map (Z.mul (1 - key_selection 4 key row)) (VALUE 4 row))).
  2:{ intros row Hrow. cbn [fst snd]. apply keep_selected_mul.
      - destruct (key_selection_bit 4 key row) as [-> | ->]; auto.
      - apply Hvr; exact Hrow. }
  cbn [bind]. rewrite zip_with_map_l, zip_with_map_r, zip_with_diag.
  rewrite zip_with_map_r, zip_with_diag.
  f_equal. f_equal. apply map_ext_in. intros row Hrow.
  specialize (Hrows row Hrow).
  unfold replace_row_spec. f_equal. f_equal.
  rewrite (key_selection_matches 4 4) by assumption.
  destruct (row_split 4 4 row Hrows) as (_ & _ & HV).
  destruct (row_matches 4 key row); cbn [b2z].
  - change (1 - 1) with 0. rewrite map_mul_0, map_mul_1, HV.
    apply zip_add_zeros_r. exact Hvlen.
  - change (1 - 0) with 1. rewrite map_mul_0, map_mul_1, Hvlen.
    apply zip_add_zeros_l. exact HV.
Qed.

(** * Further properties of the code *)

(** ** The codec *)

Lemma numeral_add (a b : list Z) :
  List.length a = List.length b ->
  numeral (zip_with Z.add a b) = numeral a + numeral b.
Proof.
  revert b; induction a as [|x a IH]; intros [|y b] Hlen;
    simpl in Hlen; try discriminate; [reflexivity|].
  cbn [zip_with]. rewrite !numeral_cons, IH by congruence.
  rewrite zip_with_length.
  replace (Nat.min (List.length a) (List.length b)) with (List.length a) by lia.
  replace (List.length b) with (List.length a) by congruence. lia.
Qed.

Lemma numeral_scale (c : Z) (l : list Z) :
  numeral (map (Z.mul c) l) = c * numeral l.
Proof.
  induction l as [|x l IH]; [unfold numeral; simpl; lia|].
  cbn [map]. rewrite !numeral_cons, IH, length_map. lia.
Qed.

(** Chunks multiplied by a count decode to the multiple, as long as the
    multiple is below 2^63. *)
Lemma decode_scaled (f : Z) (n : nat) (value : list Z) :
  0 <= f ->
  is_chunks n value = true ->
  f * numeral value < 2 ^ 63 ->
  decode (map (Z.mul f) value) = f * numeral value.
Proof.
  intros Hf Hc Hlt. apply is_chunks_spec in Hc as [_ Hc].
  rewrite decode_no_overflow; [apply numeral_scale| |rewrite numeral_scale; lia].
  intros c Hin. apply in_map_iff in Hin as (x & <- & Hx).
  apply Hc in Hx. nia.
Qed.

(** What [decode] returns for sixteen chunks or fewer, in [0, 16): the
    numeral, or the numeral less 2^64 when the numeral reaches 2^63. *)
Lemma decode_chunks_cases (chunks : list Z) :
  (List.length chunks <= 16)%nat ->
  (forall c, In c chunks -> 0 <= c < 16) ->
  (numeral chunks < 2 ^ 63 /\ decode chunks = numeral chunks)
  \/ (2 ^ 63 <= numeral chunks /\ decode chunks = numeral chunks - 2 ^ 64).
Proof.
  intros Hlen Hr.
  pose proof (numeral_bounds chunks Hr) as Hb.
  assert (2 ^ (4 * Z.of_nat (List.length chunks)) <= 2 ^ 64) as Hp
    by (apply Z.pow_le_mono_r; lia).
  rewrite decode_wraps by exact Hlen.
  destruct (Z_lt_le_dec (numeral chunks) (2 ^ 63)) as [Hlt|Hge].
  - left. split; [exact Hlt|]. apply wrap64_small. lia.
  - right. split; [exact Hge|].
    replace (numeral chunks) with (numeral chunks - 2 ^ 64 + 2 ^ 64 * 1) at 1
      by lia.
    rewrite wrap64_shift. apply wrap64_small. lia.
Qed.

(** X1. Encoding what [decode] returns gives the chunks back: for every
    non-empty list of at most sixteen chunks in [0, 16) that [decode]
    takes to a non-negative number (the numeral is below 2^63, so the
    [int64] arithmetic of [decode] keeps it), [encode(decode(chunks),
    4 * len(chunks))] is the list itself. *)
Theorem encode_decode_roundtrip (chunks : list Z) :
  chunks <> [] ->
  (List.length chunks <= 16)%nat ->
  (forall c, In c chunks -> 0 <= c < 16) ->
  0 <= decode chunks ->
  encode (decode chunks) (CHUNK_SIZE * List.length chunks) = Some chunks.
Proof.
  intros Hne Hlen Hr Hpos. change CHUNK_SIZE with 4%nat.
  pose proof (numeral_bounds chunks Hr) as Hb.
  assert (2 ^ (4 * Z.of_nat (List.length chunks)) <= 2 ^ 64) as Hp
    by (apply Z.pow_le_mono_r; lia).
  destruct (decode_chunks_cases chunks Hlen Hr) as [[_ Hd]|[Hge Hd]];
    [|lia].
  rewrite Hd.
  destruct (encode_numeral_chunks (numeral chunks) (4 * List.length chunks))
    as (chunks' & He & Hd' & Hl & Hr').
  - change CHUNK_SIZE with 4%nat. rewrite Nat.mul_comm. apply Nat.Div0.mod_mul.
  - rewrite Nat2Z.inj_mul. exact Hb.
  - assert (0 < List.length chunks)%nat as Hlpos
      by (destruct chunks; simpl; [congruence|lia]).
    rewrite He. f_equal. apply numeral_injective; auto.
    rewrite Hl. change CHUNK_SIZE with 4%nat.
    rewrite Nat.mul_comm, Nat.div_mul by lia. lia.
Qed.

Lemma encode_decode_roundtrip_witness :
  [0; 0; 0; 0; 0; 0; 1; 9] <> []
  /\ (List.length [0; 0; 0; 0; 0; 0; 1; 9] <= 16)%nat
  /\ (forall c, In c [0; 0; 0; 0; 0; 0; 1; 9] -> 0 <= c < 16)
  /\ 0 <= decode [0; 0; 0; 0; 0; 0; 1; 9]
  /\ encode (decode [0; 0; 0; 0; 0; 0; 1; 9]) (CHUNK_SIZE * 8)
     = Some [0; 0; 0; 0; 0; 0; 1; 9].
Proof.
  assert (H1 : [0; 0; 0; 0; 0; 0; 1; 9] <> []) by discriminate.
  assert (H2 : (List.length [0; 0; 0; 0; 0; 0; 1; 9] <= 16)%nat)
    by (simpl; lia).
  assert (H3 : forall c, In c [0; 0; 0; 0; 0; 0; 1; 9] -> 0 <= c < 16).
  { intros c Hc. simpl in Hc. lia. }
  assert (H4 : 0 <= decode [0; 0; 0; 0; 0; 0; 1; 9])
    by (vm_compute; discriminate).
  split; [exact H1|]. split; [exact H2|]. split; [exact H3|].
  split; [exact H4|].
  exact (encode_decode_roundtrip [0; 0; 0; 0; 0; 0; 1; 9] H1 H2 H3 H4).
Defined.

(** X2. [decode] is additive and homogeneous, in [int64], on arrays of at
    most sixteen cells holding any integers: the chunk-wise sum of two
    arrays of the same length decodes to the sum of what they decode to,
    and an array multiplied by a constant decodes to the multiple, both
    reduced to [int64].  Chunks above 15, as query returns them when
    several rows match, are carried into the higher positions. *)
Theorem decode_linear (c : Z) (a b : list Z) :
  List.length a = List.length b ->
  (List.length a <= 16)%nat ->
  decode (zip_with Z.add a b) = wrap64 (decode a + decode b)
  /\ decode (map (Z.mul c) a) = wrap64 (c * decode a).
Proof.
  intros Hlen H16. split.
  - rewrite !decode_wraps; [|lia|lia|rewrite zip_with_length; lia].
    rewrite numeral_add by exact Hlen. symmetry. apply wrap64_add.
  - rewrite !decode_wraps; [|lia|rewrite length_map; lia].
    rewrite numeral_scale. symmetry. apply wrap64_mul_r.
Qed.

Lemma decode_linear_witness :
  List.length [0; 9; 12] = List.length [1; 8; 7]
  /\ (List.length [0; 9; 12] <= 16)%nat
  /\ decode (zip_with Z.add [0; 9; 12] [1; 8; 7])
     = wrap64 (decode [0; 9; 12] + decode [1; 8; 7])
  /\ decode (map (Z.mul 3) [0; 9; 12]) = wrap64 (3 * decode [0; 9; 12]).
Proof.
  assert (H : List.length [0; 9; 12] = List.length [1; 8; 7]) by reflexivity.
  assert (H16 : (List.length [0; 9; 12] <= 16)%nat) by (simpl; lia).
  split; [exact H|]. split; [exact H16|].
  exact (decode_linear 3 [0; 9; 12] [1; 8; 7] H H16).
Defined.

(** X3. A negative key is not refused: for a width divisible by
    CHUNK_SIZE and n in [-2^(width-1), 0), [encode(n, width)] is
    [encode(n + 2^width, width)], so [insert], [replace] and [query] of the
    store treat the key n as the key n + 2^KEY_SIZE. *)
Theorem negative_key_aliases
  (NUMBER_OF_ENTRIES KEY_SIZE VALUE_SIZE : nat)
  (self : KeyValueDatabase) (n value : Z) :
  (KEY_SIZE mod CHUNK_SIZE = 0)%nat -> (0 < KEY_SIZE)%nat ->
  - 2 ^ (Z.of_nat KEY_SIZE - 1) <= n < 0 ->
  encode n KEY_SIZE = encode (n + 2 ^ Z.of_nat KEY_SIZE) KEY_SIZE
  /\ insert NUMBER_OF_ENTRIES KEY_SIZE VALUE_SIZE self n value
     = insert NUMBER_OF_ENTRIES KEY_SIZE VALUE_SIZE self
              (n + 2 ^ Z.of_nat KEY_SIZE) value
  /\ replace NUMBER_OF_ENTRIES KEY_SIZE VALUE_SIZE self n value
     = replace NUMBER_OF_ENTRIES KEY_SIZE VALUE_SIZE self
               (n + 2 ^ Z.of_nat KEY_SIZE) value
  /\ query NUMBER_OF_ENTRIES KEY_SIZE VALUE_SIZE self n
     = query NUMBER_OF_ENTRIES KEY_SIZE VALUE_SIZE self
             (n + 2 ^ Z.of_nat KEY_SIZE).
Proof.
  intros Hmod Hw Hn.
  pose proof (encode_negative_chunks n KEY_SIZE Hmod Hw Hn) as He.
  split; [exact He|].
  unfold insert, replace, query, encode_key. rewrite He.
  repeat split; reflexivity.
Qed.

Lemma negative_key_aliases_witness :
  (32 mod CHUNK_SIZE = 0)%nat /\ (0 < 32)%nat
  /\ - 2 ^ (Z.of_nat 32 - 1) <= -1 < 0
  /\ encode (-1) 32 = encode (-1 + 2 ^ Z.of_nat 32) 32.
Proof.
  assert (H1 : (32 mod CHUNK_SIZE = 0)%nat) by reflexivity.
  assert (H2 : (0 < 32)%nat) by lia.
  assert (H3 : - 2 ^ (Z.of_nat 32 - 1) <= -1 < 0)
    by (vm_compute; split; [discriminate|reflexivity]).
  split; [exact H1|]. split; [exact H2|]. split; [exact H3|].
  exact (proj1 (negative_key_aliases 5 32 32 Commented.db0 (-1) 4 H1 H2 H3)).
Defined.

(** ** The circuits, on every size *)

Section MoreCircuitProofs.

Variable NUMBER_OF_ENTRIES : nat.
Variable KEY_SIZE : nat.
Variable VALUE_SIZE : nat.

Local Abbreviation NK := (NUMBER_OF_KEY_CHUNKS KEY_SIZE).
Local Abbreviation NV := (NUMBER_OF_VALUE_CHUNKS VALUE_SIZE).
Local Abbreviation ROW := (ROW_SIZE KEY_SIZE VALUE_SIZE).
Local Abbreviation shaped := (has_shape NUMBER_OF_ENTRIES KEY_SIZE VALUE_SIZE).
Local Abbreviation matches := (row_matches KEY_SIZE).

Lemma np_sum_axis0_length (width : nat) (rows : list (list Z)) :
  (forall r, In r rows -> List.length r = width) ->
  List.length (np_sum_axis0 width rows) = width.
Proof.
  intros H. induction rows as [|r rows IH]; [apply repeat_length|].
  cbn [np_sum_axis0 fold_right]. fold (np_sum_axis0 width rows).
  rewrite zip_with_length, IH, (H r (or_introl eq_refl)) by
    (intros r' Hr'; apply H; right; exact Hr').
  lia.
Qed.

Lemma np_sum_axis0_app (width : nat) (a b : list (list Z)) :
  (forall r, In r b -> r = zeros width) ->
  np_sum_axis0 width (a ++ b) = np_sum_axis0 width a.
Proof.
  intros Hb. unfold np_sum_axis0. rewrite fold_right_app.
  fold (np_sum_axis0 width b). rewrite np_sum_axis0_zeros by exact Hb.
  reflexivity.
Qed.

(** The masked sum of [_query_impl] is the sum of the values of the rows
    that match. *)
Lemma masked_values_sum (state : list (list Z)) (key : list Z) :
  (forall row, In row state -> List.length (VALUE KEY_SIZE row) = NV) ->
  np_sum_axis0 NV
    (map (fun row => map (masked_select (b2z (matches key row)))
                         (VALUE KEY_SIZE row)) state)
  = np_sum_axis0 NV (map (VALUE KEY_SIZE) (filter (matches key) state)).
Proof.
  intros Hlen. induction state as [|row state IH]; [reflexivity|].
  cbn [map filter np_sum_axis0 fold_right].
  fold (np_sum_axis0 NV
          (map (fun row => map (masked_select (b2z (matches key row)))
                               (VALUE KEY_SIZE row)) state)).
  rewrite IH by (intros r Hr; apply Hlen; right; exact Hr).
  unfold masked_select.
  destruct (matches key row); cbn [b2z].
  - change (fun value : Z => 1 * value) with (Z.mul 1). rewrite map_mul_1.
    reflexivity.
  - change (fun value : Z => 0 * value) with (Z.mul 0). rewrite map_mul_0.
    rewrite (Hlen row (or_introl eq_refl)).
    apply zip_add_zeros_l. apply np_sum_axis0_length.
    intros r Hr. apply in_map_iff in Hr as (row' & <- & Hrow').
    apply filter_In in Hrow' as [Hrow' _]. apply Hlen. right. exact Hrow'.
Qed.

Lemma shaped_value_length (state : list (list Z)) :
  shaped state = true ->
  forall row, In row state -> List.length (VALUE KEY_SIZE row) = NV.
Proof.
  intros Hshape row Hrow. apply has_shape_spec in Hshape as [_ Hrows].
  apply (row_split KEY_SIZE VALUE_SIZE row). apply Hrows. exact Hrow.
Qed.

Lemma query_matching (state : list (list Z)) (key : list Z) :
  shaped state = true ->
  values_in_range KEY_SIZE state = true ->
  List.length key = NK ->
  _query_impl KEY_SIZE VALUE_SIZE state key
  = Some (state,
          Z.of_nat (List.length (filter (matches key) state))
          :: np_sum_axis0 NV
               (map (VALUE KEY_SIZE) (filter (matches key) state))).
Proof.
  intros Hshape Hvals Hkey.
  rewrite (query_impl_spec NUMBER_OF_ENTRIES) by assumption.
  unfold query_spec. rewrite masked_values_sum; [reflexivity|].
  apply shaped_value_length. exact Hshape.
Qed.

Lemma matches_spec (key row : list Z) :
  matches key row = true <-> KEY KEY_SIZE row = key.
Proof. unfold row_matches. apply chunks_eqb_eq. Qed.

Lemma matches_false (key row : list Z) :
  matches key row = false <-> KEY KEY_SIZE row <> key.
Proof.
  rewrite <- matches_spec. destruct (matches key row); split; congruence.
Qed.

(** X5. When exactly one row of the table has key chunks equal to the
    given key, query returns found = 1 and the value chunks of that row,
    and [KeyValueDatabase.query] returns what they decode to. *)
Theorem query_unique_match
  (state : list (list Z)) (key : list Z) (i : nat) (k : Z) :
  shaped state = true ->
  values_in_range KEY_SIZE state = true ->
  List.length key = NK ->
  (i < NUMBER_OF_ENTRIES)%nat ->
  KEY KEY_SIZE (nth i state []) = key ->
  (forall j, (j < NUMBER_OF_ENTRIES)%nat -> j <> i ->
             KEY KEY_SIZE (nth j state []) <> key) ->
  _query_impl KEY_SIZE VALUE_SIZE state key
  = Some (state, 1 :: VALUE KEY_SIZE (nth i state []))
  /\ (encode_key KEY_SIZE k = Some key ->
      query NUMBER_OF_ENTRIES KEY_SIZE VALUE_SIZE {| _state := state |} k
      = Some ({| _state := state |},
              Some (decode (VALUE KEY_SIZE (nth i state []))))).
Proof.
  intros Hshape Hvals Hkey Hi Hrow Hothers.
  assert (_query_impl KEY_SIZE VALUE_SIZE state key
          = Some (state, 1 :: VALUE KEY_SIZE (nth i state []))) as Hq.
  { rewrite query_matching by assumption.
    pose proof (shaped_value_length state Hshape) as Hvlen.
    apply has_shape_spec in Hshape as [Hlen Hrows].
    destruct (nth_split (n:=i) state []) as (pre & post & Hst & Hpre);
      [lia|].
    remember (nth i state []) as row eqn:Hrow_def.
    assert (filter (matches key) pre = []) as Hfpre.
    { apply filter_none. intros r Hr. apply matches_false.
      destruct (In_nth pre r [] Hr) as (j & Hj & <-).
      specialize (Hothers j ltac:(rewrite <- Hlen, Hst, length_app; lia)
                            ltac:(lia)).
      rewrite Hst, app_nth1 in Hothers by exact Hj. exact Hothers. }
    assert (filter (matches key) post = []) as Hfpost.
    { apply filter_none. intros r Hr. apply matches_false.
      destruct (In_nth post r [] Hr) as (j & Hj & <-).
      specialize (Hothers (i + S j)%nat
                    ltac:(rewrite <- Hlen, Hst, length_app; simpl; lia)
                    ltac:(lia)).
      rewrite Hst, app_nth2 in Hothers by lia.
      replace (i + S j - List.length pre)%nat with (S j) in Hothers by lia.
      exact Hothers. }
    assert (filter (matches key) state = [row]) as Hf.
    { rewrite Hst at 1. rewrite filter_app. cbn [filter].
      rewrite Hfpre, Hfpost.
      rewrite (proj2 (matches_spec key row) Hrow). reflexivity. }
    rewrite Hf. cbn [List.length map np_sum_axis0 fold_right].
    rewrite zip_add_zeros_r; [reflexivity|].
    apply Hvlen. rewrite Hst. apply in_or_app. right. left. reflexivity. }
  split; [exact Hq|].
  intros Henc. unfold query. rewrite Henc. cbn [bind _state].
  rewrite Hshape, Hkey, Nat.eqb_refl, Hq. reflexivity.
Qed.

(** ** Replace, composed *)

Lemma forallb_map_keep {A : Type} (f g : A -> bool) (h : A -> A) (l : list A) :
  forallb f l = true ->
  (forall a, In a l -> f a = true -> g (h a) = true) ->
  forallb g (map h l) = true.
Proof.
  intros Hf H. apply forallb_forall. intros b Hb.
  apply in_map_iff in Hb as (a & <- & Ha).
  apply H; [exact Ha|]. rewrite forallb_forall in Hf. auto.
Qed.

Lemma replaced_row_length (key value row : list Z) :
  List.length row = ROW -> List.length value = NV ->
  List.length (replace_row_spec KEY_SIZE key value row) = ROW.
Proof.
  intros Hrow Hval. unfold replace_row_spec.
  destruct (row_split KEY_SIZE VALUE_SIZE row Hrow) as (_ & HK & HV).
  cbn [List.length]. rewrite length_app, HK.
  destruct (row_matches KEY_SIZE key row); unfold ROW_SIZE; lia.
Qed.

Lemma replaced_row_matches (key value key' row : list Z) :
  List.length row = ROW -> List.length value = NV ->
  matches key' (replace_row_spec KEY_SIZE key value row) = matches key' row.
Proof.
  intros Hrow Hval. unfold row_matches.
  destruct (replace_row_spec_fields KEY_SIZE VALUE_SIZE key value row Hrow Hval)
    as (_ & -> & _). reflexivity.
Qed.

Lemma replaced_row_other (key value row : list Z) :
  List.length row = ROW -> KEY KEY_SIZE row <> key ->
  replace_row_spec KEY_SIZE key value row = row.
Proof.
  intros Hrow Hne. unfold replace_row_spec.
  rewrite (proj2 (matches_false key row) Hne).
  symmetry. apply (row_split KEY_SIZE VALUE_SIZE). exact Hrow.
Qed.

Lemma replace_shaped (state : list (list Z)) (key value : list Z) :
  shaped state = true -> List.length value = NV ->
  shaped (map (replace_row_spec KEY_SIZE key value) state) = true.
Proof.
  intros Hshape Hval. apply has_shape_spec in Hshape as [Hlen Hrows].
  apply has_shape_spec. rewrite length_map. split; [exact Hlen|].
  intros r Hr. apply in_map_iff in Hr as (row & <- & Hrow).
  apply replaced_row_length; auto.
Qed.

Lemma replace_values_in_range (state : list (list Z)) (key value : list Z) :
  shaped state = true ->
  values_in_range KEY_SIZE state = true ->
  is_chunks NV value = true ->
  values_in_range KEY_SIZE (map (replace_row_spec KEY_SIZE key value) state)
  = true.
Proof.
  intros Hshape Hvals Hval.
  apply has_shape_spec in Hshape as [Hlen Hrows].
  apply is_chunks_spec in Hval as [Hvlen Hv].
  apply values_in_range_spec. intros r Hr c Hc.
  apply in_map_iff in Hr as (row & <- & Hrow).
  destruct (replace_row_spec_fields KEY_SIZE VALUE_SIZE key value row
              (Hrows row Hrow) Hvlen) as (_ & _ & Hm & Hn).
  destruct (list_eq_dec Z.eq_dec (KEY KEY_SIZE row) key) as [E|E].
  - rewrite (Hm E) in Hc. auto.
  - rewrite (Hn E) in Hc.
    apply (proj1 (values_in_range_spec KEY_SIZE state) Hvals row Hrow c Hc).
Qed.

(** X6. Replace is idempotent: on a table of the compiled shape with
    in-range value chunks, running replace with the same key and value on
    the table replace returned gives that table again. *)
Theorem replace_idempotent (state : list (list Z)) (key value : list Z) :
  shaped state = true ->
  values_in_range KEY_SIZE state = true ->
  List.length key = NK ->
  is_chunks NV value = true ->
  exists new_state,
    _replace_impl KEY_SIZE state key value = Some (new_state, new_state)
    /\ _replace_impl KEY_SIZE new_state key value
       = Some (new_state, new_state).
Proof.
  intros Hshape Hvals Hkey Hval.
  exists (map (replace_row_spec KEY_SIZE key value) state).
  split; [apply (replace_impl_spec NUMBER_OF_ENTRIES KEY_SIZE VALUE_SIZE);
          assumption|].
  rewrite (replace_impl_spec NUMBER_OF_ENTRIES KEY_SIZE VALUE_SIZE);
    [|apply replace_shaped; [exact Hshape|]
     |apply replace_values_in_range; assumption|exact Hkey|exact Hval].
  2:{ apply is_chunks_spec in Hval as [Hvlen _]. exact Hvlen. }
  apply has_shape_spec in Hshape as [Hlen Hrows].
  apply is_chunks_spec in Hval as [Hvlen Hv].
  assert (map (replace_row_spec KEY_SIZE key value)
              (map (replace_row_spec KEY_SIZE key value) state)
          = map (replace_row_spec KEY_SIZE key value) state) as ->;
    [|reflexivity].
  rewrite map_map. apply map_ext_in. intros row Hrow.
  specialize (Hrows row Hrow).
  destruct (replace_row_spec_fields KEY_SIZE VALUE_SIZE key value row
              Hrows Hvlen) as (Hf & Hk & Hm & Hn).
  destruct (row_matches KEY_SIZE key row) eqn:E.
  - unfold replace_row_spec at 1.
    rewrite Hf, Hk, (replaced_row_matches key value key row Hrows Hvlen), E.
    unfold replace_row_spec. rewrite E. reflexivity.
  - apply matches_false in E.
    rewrite !(replaced_row_other key value row Hrows E). reflexivity.
Qed.

Lemma np_sum_axis0_copies (value : list Z) (n : nat) :
  List.length value = NV ->
  np_sum_axis0 NV (repeat value n) = map (Z.mul (Z.of_nat n)) value.
Proof.
  intros Hlen. induction n as [|n IH].
  - cbn [repeat np_sum_axis0 fold_right]. change (Z.of_nat 0) with 0.
    rewrite map_mul_0, Hlen. reflexivity.
  - cbn [repeat np_sum_axis0 fold_right]. fold (np_sum_axis0 NV (repeat value n)).
    rewrite IH, zip_with_map_r, zip_with_diag.
    apply map_ext. intros a. lia.
Qed.

Lemma replace_query_same_key (state : list (list Z)) (key value : list Z) :
  shaped state = true ->
  values_in_range KEY_SIZE state = true ->
  List.length key = NK ->
  is_chunks NV value = true ->
  let found := Z.of_nat (List.length (filter (matches key) state)) in
  _query_impl KEY_SIZE VALUE_SIZE
    (map (replace_row_spec KEY_SIZE key value) state) key
  = Some (map (replace_row_spec KEY_SIZE key value) state,
          found :: map (Z.mul found) value).
Proof.
  intros Hshape Hvals Hkey Hval found.
  pose proof Hval as Hval'. apply is_chunks_spec in Hval' as [Hvlen Hv].
  rewrite query_matching;
    [|apply replace_shaped; assumption
     |apply replace_values_in_range; assumption|exact Hkey].
  apply has_shape_spec in Hshape as [Hlen Hrows].
  assert (map (VALUE KEY_SIZE)
              (filter (matches key)
                 (map (replace_row_spec KEY_SIZE key value) state))
          = repeat value (List.length (filter (matches key) state))) as Hf.
  { clear Hlen. induction state as [|row state IH]; [reflexivity|].
    cbn [map filter].
    rewrite replaced_row_matches
      by (auto; apply Hrows; left; reflexivity).
    assert (forall r, In r state -> List.length r = ROW) as Hrows'
      by (intros r Hr; apply Hrows; right; exact Hr).
    assert (values_in_range KEY_SIZE state = true) as Hvals'.
    { unfold values_in_range in *. cbn [forallb] in Hvals.
      apply andb_true_iff in Hvals. tauto. }
    destruct (matches key row) eqn:E.
    - cbn [map List.length repeat]. rewrite IH by assumption. f_equal.
      destruct (replace_row_spec_fields KEY_SIZE VALUE_SIZE key value row
                  (Hrows row (or_introl eq_refl)) Hvlen) as (_ & _ & Hm & _).
      apply Hm. apply matches_spec. exact E.
    - apply IH; assumption. }
  rewrite Hf, np_sum_axis0_copies by exact Hvlen.
  assert (List.length
            (filter (matches key)
               (map (replace_row_spec KEY_SIZE key value) state))
          = List.length (filter (matches key) state)) as ->.
  { rewrite <- (length_map (VALUE KEY_SIZE)), Hf. apply repeat_length. }
  reflexivity.
Qed.

(** X7. After replace with a key and a value, query of that key returns
    as found the number of rows whose key chunks equal the key, and as
    value the given value chunks each multiplied by found; as long as
    found * 2^(CHUNK_SIZE * NUMBER_OF_VALUE_CHUNKS) does not exceed 2^63
    the value decodes to found times what the given value decodes to. *)
Theorem replace_then_query (state : list (list Z)) (key value : list Z) :
  shaped state = true ->
  values_in_range KEY_SIZE state = true ->
  List.length key = NK ->
  is_chunks NV value = true ->
  let found := Z.of_nat (List.length (filter (matches key) state)) in
  exists new_state,
    _replace_impl KEY_SIZE state key value = Some (new_state, new_state)
    /\ _query_impl KEY_SIZE VALUE_SIZE new_state key
       = Some (new_state, found :: map (Z.mul found) value)
    /\ (found * 2 ^ (Z.of_nat CHUNK_SIZE * Z.of_nat NV) <= 2 ^ 63 ->
        decode (map (Z.mul found) value) = found * decode value).
Proof.
  intros Hshape Hvals Hkey Hval found.
  exists (map (replace_row_spec KEY_SIZE key value) state).
  split; [apply (replace_impl_spec NUMBER_OF_ENTRIES KEY_SIZE VALUE_SIZE);
          assumption|].
  split; [apply replace_query_same_key; assumption|].
  intros Hbound.
  pose proof Hval as Hval'. apply is_chunks_spec in Hval' as [Hvlen Hv].
  pose proof (numeral_bounds value Hv) as Hb. rewrite Hvlen in Hb.
  change (Z.of_nat CHUNK_SIZE) with 4 in Hbound.
  assert (0 <= found) as Hf by (unfold found; lia).
  destruct (Z.eq_dec found 0) as [E|E].
  - rewrite E. rewrite (decode_scaled 0 NV value); [lia|lia|exact Hval|lia].
  - rewrite (decode_chunks NV value Hval) by nia.
    apply (decode_scaled found NV value); [exact Hf|exact Hval|nia].
Qed.

(** X8. Replace with one key leaves the answers for every other key
    as they were: query of a different key returns the same found and
    the same value chunks on the table replace returned as on the table
    it was given. *)
Theorem replace_keeps_other_keys
  (state : list (list Z)) (key value key' : list Z) :
  shaped state = true ->
  values_in_range KEY_SIZE state = true ->
  List.length key = NK ->
  is_chunks NV value = true ->
  List.length key' = NK ->
  key' <> key ->
  exists new_state result,
    _replace_impl KEY_SIZE state key value = Some (new_state, new_state)
    /\ _query_impl KEY_SIZE VALUE_SIZE state key' = Some (state, result)
    /\ _query_impl KEY_SIZE VALUE_SIZE new_state key'
       = Some (new_state, result).
Proof.
  intros Hshape Hvals Hkey Hval Hkey' Hne.
  exists (map (replace_row_spec KEY_SIZE key value) state).
  eexists.
  split; [apply (replace_impl_spec NUMBER_OF_ENTRIES KEY_SIZE VALUE_SIZE);
          assumption|].
  split; [apply query_matching; assumption|].
  pose proof Hval as Hval'. apply is_chunks_spec in Hval' as [Hvlen Hv].
  rewrite query_matching;
    [|apply replace_shaped; assumption
     |apply replace_values_in_range; assumption|exact Hkey'].
  apply has_shape_spec in Hshape as [Hlen Hrows].
  assert (filter (matches key')
                 (map (replace_row_spec KEY_SIZE key value) state)
          = filter (matches key') state) as ->; [|reflexivity].
  clear Hlen Hvals. induction state as [|row state IH]; [reflexivity|].
  cbn [map filter].
  rewrite replaced_row_matches by (auto; apply Hrows; left; reflexivity).
  rewrite IH by (intros r Hr; apply Hrows; right; exact Hr).
  destruct (matches key' row) eqn:E; [|reflexivity].
  f_equal. apply replaced_row_other; [apply Hrows; left; reflexivity|].
  apply matches_spec in E. congruence.
Qed.

(** ** Well-formed tables *)

Lemma well_formed_spec (state : list (list Z)) :
  well_formed NUMBER_OF_ENTRIES KEY_SIZE VALUE_SIZE state = true <->
  shaped state = true /\ flags_binary state = true
  /\ keys_in_range KEY_SIZE state = true
  /\ values_in_range KEY_SIZE state = true
  /\ free_rows_zero KEY_SIZE VALUE_SIZE state = true.
Proof. unfold well_formed. rewrite !andb_true_iff. tauto. Qed.

Lemma forallb_middle {A : Type} (f : A -> bool) (pre post : list A) (x y : A) :
  forallb f (pre ++ x :: post) = true -> f y = true ->
  forallb f (pre ++ y :: post) = true.
Proof.
  rewrite !forallb_app. cbn [forallb]. rewrite !andb_true_iff.
  intros (H1 & _ & H2) Hy. auto.
Qed.

Lemma first_free_split (state : list (list Z)) :
  flags_binary state = true ->
  table_full state = true
  \/ exists pre row post,
       state = pre ++ row :: post
       /\ (forall r, In r pre -> flag_of r = 1)
       /\ flag_of row = 0.
Proof.
  induction state as [|row state IH]; intros Hb; [left; reflexivity|].
  unfold flags_binary in Hb. cbn [forallb] in Hb.
  apply andb_true_iff in Hb as [Hrow Hb].
  apply orb_true_iff in Hrow. rewrite !Z.eqb_eq in Hrow.
  destruct Hrow as [H0|H1].
  - right. exists [], row, state. split; [reflexivity|].
    split; [intros r []|exact H0].
  - destruct (IH Hb) as [Hfull|(pre & r & post & -> & Hpre & Hr)].
    + left. unfold table_full. cbn [forallb]. rewrite H1.
      exact Hfull.
    + right. exists (row :: pre), r, post. split; [reflexivity|].
      split; [|exact Hr]. intros r' [<-|Hr']; auto.
Qed.

Lemma free_rows_zero_spec (state : list (list Z)) :
  free_rows_zero KEY_SIZE VALUE_SIZE state = true <->
  (forall row, In row state -> flag_of row = 0 -> row = zeros ROW).
Proof.
  unfold free_rows_zero. rewrite forallb_forall. split.
  - intros H row Hrow Hf. specialize (H row Hrow).
    rewrite Hf in H. cbn in H. apply chunks_eqb_eq in H. exact H.
  - intros H row Hrow. destruct (flag_of row =? 0) eqn:E; [|reflexivity].
    apply Z.eqb_eq in E. cbn [negb orb]. apply chunks_eqb_eq. auto.
Qed.

(** On a well-formed table a key that is not all zero is held by a used
    row or by no row at all. *)
Lemma live_miss_all_rows (state : list (list Z)) (key : list Z) :
  well_formed NUMBER_OF_ENTRIES KEY_SIZE VALUE_SIZE state = true ->
  key <> zeros NK ->
  (forall row, In row state -> flag_of row = 1 -> KEY KEY_SIZE row <> key) ->
  forall row, In row state -> KEY KEY_SIZE row <> key.
Proof.
  intros Hwf Hkey Hlive row Hrow.
  apply well_formed_spec in Hwf as (_ & Hflags & _ & _ & Hfree).
  unfold flags_binary in Hflags. rewrite forallb_forall in Hflags.
  specialize (Hflags row Hrow). apply orb_true_iff in Hflags.
  destruct Hflags as [H0|H1].
  - apply Z.eqb_eq in H0.
    rewrite (proj1 (free_rows_zero_spec state) Hfree row Hrow H0).
    destruct (zeros_row_fields KEY_SIZE VALUE_SIZE) as [-> _]. congruence.
  - apply Z.eqb_eq in H1. apply Hlive; assumption.
Qed.

(** Replace of a key that no used row holds, on a well-formed table, for
    a key that is not all zero: the table comes back as it was given. *)
Lemma replace_live_miss_is_noop (state : list (list Z)) (key value : list Z) :
  well_formed NUMBER_OF_ENTRIES KEY_SIZE VALUE_SIZE state = true ->
  List.length key = NK ->
  key <> zeros NK ->
  is_chunks NV value = true ->
  (forall row, In row state -> flag_of row = 1 -> KEY KEY_SIZE row <> key) ->
  _replace_impl KEY_SIZE state key value = Some (state, state).
Proof.
  intros Hwf Hlen Hkey Hval Hlive.
  pose proof (live_miss_all_rows state key Hwf Hkey Hlive) as Hmiss.
  apply well_formed_spec in Hwf as (Hshape & _ & _ & Hvals & _).
  apply (replace_miss_is_noop NUMBER_OF_ENTRIES KEY_SIZE VALUE_SIZE);
    assumption.
Qed.

(** Query of a key that no used row holds, on a well-formed table, for a
    key that is not all zero: found = 0. *)
Lemma query_live_miss_found_zero (state : list (list Z)) (key : list Z) :
  well_formed NUMBER_OF_ENTRIES KEY_SIZE VALUE_SIZE state = true ->
  List.length key = NK ->
  key <> zeros NK ->
  (forall row, In row state -> flag_of row = 1 -> KEY KEY_SIZE row <> key) ->
  _query_impl KEY_SIZE VALUE_SIZE state key = Some (state, 0 :: zeros NV).
Proof.
  intros Hwf Hlen Hkey Hlive.
  pose proof (live_miss_all_rows state key Hwf Hkey Hlive) as Hmiss.
  apply well_formed_spec in Hwf as (Hshape & _ & _ & Hvals & _).
  apply (query_miss NUMBER_OF_ENTRIES KEY_SIZE VALUE_SIZE); assumption.
Qed.

Lemma stored_row_fields (key value : list Z) :
  List.length key = NK ->
  flag_of (1 :: key ++ value) = 1
  /\ KEY KEY_SIZE (1 :: key ++ value) = key
  /\ VALUE KEY_SIZE (1 :: key ++ value) = value.
Proof. apply (row_accessors KEY_SIZE). Qed.

(** What insert does on a well-formed table: nothing when the table is
    full, and otherwise the first free row becomes the stored pair. *)
Lemma insert_cases (state : list (list Z)) (key value : list Z) :
  well_formed NUMBER_OF_ENTRIES KEY_SIZE VALUE_SIZE state = true ->
  is_chunks NK key = true ->
  is_chunks NV value = true ->
  (table_full state = true
   /\ _insert_impl NUMBER_OF_ENTRIES state key value = Some (state, state))
  \/ exists pre post,
       state = pre ++ zeros ROW :: post
       /\ (forall r, In r pre -> flag_of r = 1)
       /\ _insert_impl NUMBER_OF_ENTRIES state key value
          = Some (state, pre ++ (1 :: key ++ value) :: post).
Proof.
  intros Hwf Hkey Hval.
  apply well_formed_spec in Hwf as (Hshape & Hflags & Hkeys & Hvals & Hfree).
  destruct (first_free_split state Hflags)
    as [Hfull|(pre & row & post & Hst & Hpre & Hrow)].
  - left. split; [exact Hfull|].
    apply (insert_full_noop NUMBER_OF_ENTRIES KEY_SIZE VALUE_SIZE); assumption.
  - right. exists pre, post.
    assert (row = zeros ROW) as ->.
    { apply (proj1 (free_rows_zero_spec state) Hfree); [|exact Hrow].
      rewrite Hst. apply in_or_app. right. left. reflexivity. }
    split; [exact Hst|]. split; [exact Hpre|].
    apply has_shape_spec in Hshape as [Hlen Hrows].
    apply is_chunks_spec in Hkey as [Hklen Hk].
    apply is_chunks_spec in Hval as [Hvlen Hv].
    rewrite (insert_impl_eq NUMBER_OF_ENTRIES) by assumption.
    f_equal. f_equal.
    assert (forall r, In r post -> 0 <= flag_of r) as Hpost.
    { intros r Hr. apply (flags_binary_nonneg state); [exact Hflags|].
      rewrite Hst. apply in_or_app. right. right. exact Hr. }
    rewrite Hst in Hrows |- *.
    rewrite (insert_rows_first_free KEY_SIZE VALUE_SIZE) by assumption.
    destruct (zeros_row_fields KEY_SIZE VALUE_SIZE) as [-> ->].
    rewrite !zip_add_zeros_l by assumption. reflexivity.
Qed.

Lemma stored_row_ok (key value : list Z) :
  is_chunks NK key = true ->
  is_chunks NV value = true ->
  List.length (1 :: key ++ value) = ROW
  /\ ((flag_of (1 :: key ++ value) =? 0) || (flag_of (1 :: key ++ value) =? 1)
      = true)
  /\ forallb in_range (KEY KEY_SIZE (1 :: key ++ value)) = true
  /\ forallb in_range (VALUE KEY_SIZE (1 :: key ++ value)) = true
  /\ (negb (flag_of (1 :: key ++ value) =? 0)
      || chunks_eqb (1 :: key ++ value) (zeros ROW)) = true.
Proof.
  unfold is_chunks. rewrite !andb_true_iff, !Nat.eqb_eq.
  intros [Hklen Hk] [Hvlen Hv].
  destruct (stored_row_fields key value Hklen) as (Hf & HK & HV).
  rewrite Hf, HK, HV. repeat split; auto.
  cbn [List.length]. rewrite length_app. unfold ROW_SIZE. lia.
Qed.

Lemma used_rows_middle (pre post : list (list Z)) (row : list Z) :
  used_rows (pre ++ row :: post)
  = (used_rows pre + (if (flag_of row =? 1)%Z then 1 else 0)
     + used_rows post)%nat.
Proof.
  unfold used_rows. rewrite filter_app, length_app. cbn [filter].
  destruct (flag_of row =? 1); cbn [List.length]; lia.
Qed.

Lemma used_rows_le (state : list (list Z)) :
  (used_rows state <= List.length state)%nat.
Proof. apply filter_length_le. Qed.

Lemma used_rows_full (state : list (list Z)) :
  table_full state = true -> used_rows state = List.length state.
Proof.
  unfold table_full, used_rows. intros H. f_equal.
  induction state as [|row state IH]; [reflexivity|].
  cbn [forallb] in H. apply andb_true_iff in H as [Hr H].
  cbn [filter]. rewrite Hr, IH by exact H. reflexivity.
Qed.

(** X10. Insert keeps tables well formed: on a table of the compiled
    shape with flags 0 or 1, chunks in range and zeroed free rows, insert
    of an in-range key and value returns such a table again, and the
    number of used rows grows by one, or stays at NUMBER_OF_ENTRIES when
    the table was full. *)
Theorem insert_keeps_well_formed (state : list (list Z)) (key value : list Z) :
  well_formed NUMBER_OF_ENTRIES KEY_SIZE VALUE_SIZE state = true ->
  is_chunks NK key = true ->
  is_chunks NV value = true ->
  exists new_state,
    _insert_impl NUMBER_OF_ENTRIES state key value = Some (state, new_state)
    /\ well_formed NUMBER_OF_ENTRIES KEY_SIZE VALUE_SIZE new_state = true
    /\ used_rows new_state
       = Nat.min NUMBER_OF_ENTRIES (S (used_rows state)).
Proof.
  intros Hwf Hkey Hval.
  destruct (insert_cases state key value Hwf Hkey Hval)
    as [[Hfull Hins]|(pre & post & Hst & Hpre & Hins)].
  - exists state. split; [exact Hins|]. split; [exact Hwf|].
    apply well_formed_spec in Hwf as (Hshape & _).
    apply has_shape_spec in Hshape as [Hlen _].
    rewrite used_rows_full, Hlen by exact Hfull. lia.
  - exists (pre ++ (1 :: key ++ value) :: post). split; [exact Hins|].
    destruct (stored_row_ok key value Hkey Hval) as (Hl & Hb & Hk & Hv & Hz).
    apply well_formed_spec in Hwf as (Hshape & Hflags & Hkeys & Hvals & Hfree).
    subst state. split.
    + apply well_formed_spec.
      split; [|split; [|split; [|split]]];
        try (eapply forallb_middle; [eassumption|assumption]).
      unfold has_shape in *. apply andb_true_iff in Hshape as [Hn Hrows].
      apply andb_true_iff. split.
      * rewrite length_app in *. exact Hn.
      * eapply forallb_middle; [exact Hrows|]. apply Nat.eqb_eq. exact Hl.
    + apply has_shape_spec in Hshape as [Hlen _].
      rewrite !used_rows_middle.
      destruct (stored_row_fields key value) as (-> & _).
      { apply is_chunks_spec in Hkey. tauto. }
      rewrite (zeros_row_flag KEY_SIZE VALUE_SIZE).
      change (1 =? 1) with true. change (0 =? 1) with false.
      cbv iota.
      rewrite length_app in Hlen. cbn [List.length] in Hlen.
      pose proof (used_rows_le pre). pose proof (used_rows_le post). lia.
Qed.

Lemma insert_result_queryable
  (pre post : list (list Z)) (key value : list Z) :
  well_formed NUMBER_OF_ENTRIES KEY_SIZE VALUE_SIZE (pre ++ zeros ROW :: post)
    = true ->
  is_chunks NK key = true ->
  is_chunks NV value = true ->
  shaped (pre ++ (1 :: key ++ value) :: post) = true
  /\ values_in_range KEY_SIZE (pre ++ (1 :: key ++ value) :: post) = true.
Proof.
  intros Hwf Hkey Hval.
  destruct (stored_row_ok key value Hkey Hval) as (Hl & _ & _ & Hv & _).
  apply well_formed_spec in Hwf as (Hshape & _ & _ & Hvals & _).
  split; [|eapply forallb_middle; [exact Hvals|exact Hv]].
  unfold has_shape in *. apply andb_true_iff in Hshape as [Hn Hrows].
  apply andb_true_iff. split.
  - rewrite length_app in *. exact Hn.
  - eapply forallb_middle; [exact Hrows|]. apply Nat.eqb_eq. exact Hl.
Qed.

(** X11. Insert then query on any well-formed table: when the table has
    a free row and no row with key chunks equal to the given key, insert
    of the key with a value followed by query of the key returns found = 1
    and the value chunks given. *)
Theorem insert_then_query_absent_key
  (state : list (list Z)) (key value : list Z) :
  well_formed NUMBER_OF_ENTRIES KEY_SIZE VALUE_SIZE state = true ->
  table_full state = false ->
  is_chunks NK key = true ->
  is_chunks NV value = true ->
  (forall row, In row state -> KEY KEY_SIZE row <> key) ->
  exists new_state,
    _insert_impl NUMBER_OF_ENTRIES state key value = Some (state, new_state)
    /\ _query_impl KEY_SIZE VALUE_SIZE new_state key
       = Some (new_state, 1 :: value).
Proof.
  intros Hwf Hnot Hkey Hval Hmiss.
  destruct (insert_cases state key value Hwf Hkey Hval)
    as [[Hfull _]|(pre & post & Hst & Hpre & Hins)]; [congruence|].
  exists (pre ++ (1 :: key ++ value) :: post). split; [exact Hins|].
  subst state.
  destruct (insert_result_queryable pre post key value Hwf Hkey Hval)
    as [Hshape' Hvals'].
  pose proof Hkey as Hkey'. apply is_chunks_spec in Hkey' as [Hklen _].
  pose proof Hval as Hval'. apply is_chunks_spec in Hval' as [Hvlen _].
  rewrite query_matching by assumption.
  destruct (stored_row_fields key value Hklen) as (_ & HK & HV).
  rewrite filter_app. cbn [filter].
  rewrite (proj2 (matches_spec key (1 :: key ++ value)) HK).
  rewrite !filter_none.
  - cbn [app List.length map np_sum_axis0 fold_right]. rewrite HV.
    rewrite zip_add_zeros_r by exact Hvlen. reflexivity.
  - intros r Hr. apply matches_false. apply Hmiss.
    apply in_or_app. right. right. exact Hr.
  - intros r Hr. apply matches_false. apply Hmiss.
    apply in_or_app. left. exact Hr.
Qed.

(** X12. Insert of one key leaves the answers for the other keys as they
    were: on a well-formed table, query of a key that differs from the
    inserted key and is not all zero returns the same found and the same
    value chunks after the insert as before. *)
Theorem insert_keeps_other_keys
  (state : list (list Z)) (key value key' : list Z) :
  well_formed NUMBER_OF_ENTRIES KEY_SIZE VALUE_SIZE state = true ->
  is_chunks NK key = true ->
  is_chunks NV value = true ->
  List.length key' = NK ->
  key' <> key ->
  key' <> zeros NK ->
  exists new_state result,
    _insert_impl NUMBER_OF_ENTRIES state key value = Some (state, new_state)
    /\ _query_impl KEY_SIZE VALUE_SIZE state key' = Some (state, result)
    /\ _query_impl KEY_SIZE VALUE_SIZE new_state key'
       = Some (new_state, result).
Proof.
  intros Hwf Hkey Hval Hkey' Hne Hnz.
  pose proof Hwf as Hwf'.
  apply well_formed_spec in Hwf' as (Hshape & _ & _ & Hvals & _).
  destruct (insert_cases state key value Hwf Hkey Hval)
    as [[Hfull Hins]|(pre & post & Hst & Hpre & Hins)].
  - exists state. eexists. split; [exact Hins|].
    split; apply query_matching; assumption.
  - exists (pre ++ (1 :: key ++ value) :: post). eexists.
    split; [exact Hins|].
    split; [apply query_matching; assumption|].
    subst state.
    destruct (insert_result_queryable pre post key value Hwf Hkey Hval)
      as [Hshape' Hvals'].
    rewrite query_matching by assumption.
    pose proof Hkey as Hk. apply is_chunks_spec in Hk as [Hklen _].
    destruct (stored_row_fields key value Hklen) as (_ & HK & _).
    destruct (zeros_row_fields KEY_SIZE VALUE_SIZE) as [HKz _].
    rewrite !filter_app. cbn [filter].
    assert (matches key' (1 :: key ++ value) = false) as ->
      by (apply matches_false; congruence).
    assert (matches key' (zeros ROW) = false) as ->
      by (apply matches_false; congruence).
    reflexivity.
Qed.

Lemma filter_map_length {A : Type} (p : A -> bool) (h : A -> A) (l : list A) :
  (forall a, In a l -> p (h a) = p a) ->
  List.length (filter p (map h l)) = List.length (filter p l).
Proof.
  induction l as [|a l IH]; intros H; [reflexivity|].
  cbn [map filter]. rewrite (H a (or_introl eq_refl)).
  destruct (p a); cbn [List.length];
    rewrite IH by (intros b Hb; apply H; right; exact Hb); reflexivity.
Qed.

(** X9. Replace keeps tables well formed when the key is not all zero:
    on a table of the compiled shape with flags 0 or 1, chunks in range
    and zeroed free rows, replace with such a key and an in-range value
    returns a table with these properties and as many used rows. *)
Theorem replace_keeps_well_formed
  (state : list (list Z)) (key value : list Z) :
  well_formed NUMBER_OF_ENTRIES KEY_SIZE VALUE_SIZE state = true ->
  List.length key = NK ->
  key <> zeros NK ->
  is_chunks NV value = true ->
  exists new_state,
    _replace_impl KEY_SIZE state key value = Some (new_state, new_state)
    /\ well_formed NUMBER_OF_ENTRIES KEY_SIZE VALUE_SIZE new_state = true
    /\ used_rows new_state = used_rows state.
Proof.
  intros Hwf Hkey Hnz Hval.
  apply well_formed_spec in Hwf as (Hshape & Hflags & Hkeys & Hvals & Hfree).
  exists (map (replace_row_spec KEY_SIZE key value) state).
  split; [apply (replace_impl_spec NUMBER_OF_ENTRIES KEY_SIZE VALUE_SIZE);
          assumption|].
  pose proof Hval as Hval'. apply is_chunks_spec in Hval' as [Hvlen Hv].
  pose proof Hshape as Hshape'.
  apply has_shape_spec in Hshape' as [Hlen Hrows].
  assert (forall row, In row state ->
            flag_of (replace_row_spec KEY_SIZE key value row) = flag_of row
            /\ KEY KEY_SIZE (replace_row_spec KEY_SIZE key value row)
               = KEY KEY_SIZE row) as Hsame.
  { intros row Hrow.
    destruct (replace_row_spec_fields KEY_SIZE VALUE_SIZE key value row
                (Hrows row Hrow) Hvlen) as (Hf & Hk & _).
    split; assumption. }
  split.
  - apply well_formed_spec.
    split; [apply replace_shaped; assumption|].
    split; [|split; [|split; [apply replace_values_in_range; assumption|]]].
    + eapply forallb_map_keep; [exact Hflags|].
      intros row Hrow H. destruct (Hsame row Hrow) as [-> _]. exact H.
    + eapply forallb_map_keep; [exact Hkeys|].
      intros row Hrow H. destruct (Hsame row Hrow) as [_ ->]. exact H.
    + eapply forallb_map_keep; [exact Hfree|].
      intros row Hrow H. destruct (Hsame row Hrow) as [-> _].
      cbv beta in H.
      destruct (flag_of row =? 0) eqn:E; [|reflexivity].
      cbn [negb orb] in *. apply chunks_eqb_eq in H.
      rewrite replaced_row_other; [apply chunks_eqb_eq; exact H
                                  |apply Hrows; exact Hrow|].
      rewrite H. destruct (zeros_row_fields KEY_SIZE VALUE_SIZE) as [-> _].
      congruence.
  - unfold used_rows. apply filter_map_length.
    intros row Hrow. destruct (Hsame row Hrow) as [-> _]. reflexivity.
Qed.

(** ** A sequence of inserts on the empty table *)

Lemma stored_rows_ok (pairs : list (list Z * list Z)) :
  forallb (fun kv => is_chunks NK (fst kv) && is_chunks NV (snd kv)) pairs
    = true ->
  forall r, In r (stored_rows pairs) -> List.length r = ROW /\ flag_of r = 1.
Proof.
  intros Hp r Hr. apply in_map_iff in Hr as ([k v] & <- & Hkv).
  rewrite forallb_forall in Hp. specialize (Hp (k, v) Hkv).
  cbn [fst snd] in *. apply andb_true_iff in Hp as [Hk Hv].
  destruct (stored_row_ok k v Hk Hv) as (Hl & _).
  split; [exact Hl|reflexivity].
Qed.

Lemma insert_all_rows (pairs : list (list Z * list Z))
  (used : list (list Z)) (m : nat) :
  (forall r, In r used -> List.length r = ROW /\ flag_of r = 1) ->
  (List.length used + m = NUMBER_OF_ENTRIES)%nat ->
  forallb (fun kv => is_chunks NK (fst kv) && is_chunks NV (snd kv)) pairs
    = true ->
  insert_all NUMBER_OF_ENTRIES (used ++ zeros2 m ROW) pairs
  = Some (used ++ stored_rows (firstn m pairs)
            ++ zeros2 (m - List.length pairs) ROW).
Proof.
  revert used m. induction pairs as [|[key value] pairs IH];
    intros used m Hused Hlen Hpairs.
  - rewrite firstn_nil, Nat.sub_0_r. reflexivity.
  - cbn [forallb fst snd] in Hpairs.
    apply andb_true_iff in Hpairs as [Hkv Hpairs].
    apply andb_true_iff in Hkv as [Hkey Hval].
    cbn [insert_all].
    destruct m as [|m].
    + cbn [zeros2 repeat firstn stored_rows map Nat.sub app].
      rewrite app_nil_r.
      rewrite (insert_full_noop NUMBER_OF_ENTRIES KEY_SIZE VALUE_SIZE);
        try assumption.
      * cbn [bind snd]. specialize (IH used 0%nat Hused Hlen Hpairs).
        cbn [zeros2 repeat firstn stored_rows map Nat.sub app] in IH.
        rewrite app_nil_r in IH. exact IH.
      * apply has_shape_spec. split; [lia|]. intros r Hr. apply Hused; exact Hr.
      * apply table_full_spec. intros r Hr. apply Hused; exact Hr.
    + pose proof Hkey as Hk'. apply is_chunks_spec in Hk' as [Hklen Hk].
      pose proof Hval as Hv'. apply is_chunks_spec in Hv' as [Hvlen Hv].
      cbn [zeros2 repeat]. fold (zeros2 m ROW).
      assert (forall r, In r (used ++ zeros ROW :: zeros2 m ROW)
                        -> List.length r = ROW) as Hrows.
      { intros r Hr. apply in_app_or in Hr as [Hr|[<-|Hr]].
        - apply Hused; exact Hr.
        - apply repeat_length.
        - apply repeat_spec in Hr. subst r. apply repeat_length. }
      rewrite (insert_impl_eq NUMBER_OF_ENTRIES); try assumption.
      2:{ rewrite length_app. cbn [List.length]. unfold zeros2.
          rewrite repeat_length. lia. }
      cbn [bind snd].
      rewrite (insert_rows_first_free KEY_SIZE VALUE_SIZE); try assumption.
      2:{ intros r Hr. apply Hused; exact Hr. }
      2:{ apply zeros_row_flag. }
      2:{ intros r Hr. apply repeat_spec in Hr. subst r.
          rewrite zeros_row_flag. lia. }
      destruct (zeros_row_fields KEY_SIZE VALUE_SIZE) as [-> ->].
      rewrite !zip_add_zeros_l by assumption.
      change (used ++ (1 :: key ++ value) :: zeros2 m ROW)
        with (used ++ [1 :: key ++ value] ++ zeros2 m ROW).
      rewrite app_assoc.
      rewrite (IH (used ++ [1 :: key ++ value]) m).
      * cbn [firstn stored_rows map fst snd List.length Nat.sub].
        rewrite <- !app_assoc. reflexivity.
      * intros r Hr. apply in_app_or in Hr as [Hr|[<-|[]]].
        -- apply Hused; exact Hr.
        -- destruct (stored_row_ok key value Hkey Hval) as (Hl & _).
           split; [exact Hl|reflexivity].
      * rewrite length_app. simpl. lia.
      * exact Hpairs.
Qed.

(** X13. A sequence of inserts on the empty table, each with an in-range
    key and value, never fails and leaves the pairs in the rows in the
    order they were inserted, followed by the rows still free; only the
    first NUMBER_OF_ENTRIES pairs are kept, the later ones are dropped. *)
Theorem insert_all_from_empty (pairs : list (list Z * list Z)) :
  forallb (fun kv => is_chunks NK (fst kv) && is_chunks NV (snd kv)) pairs
    = true ->
  insert_all NUMBER_OF_ENTRIES (zeros2 NUMBER_OF_ENTRIES ROW) pairs
  = Some (stored_rows (firstn NUMBER_OF_ENTRIES pairs)
            ++ zeros2 (NUMBER_OF_ENTRIES - List.length pairs) ROW).
Proof.
  intros Hpairs.
  apply (insert_all_rows pairs [] NUMBER_OF_ENTRIES);
    [intros r []|reflexivity|exact Hpairs].
Qed.

Lemma filter_stored_rows (key : list Z) (pairs : list (list Z * list Z)) :
  forallb (fun kv => is_chunks NK (fst kv) && is_chunks NV (snd kv)) pairs
    = true ->
  map (VALUE KEY_SIZE) (filter (matches key) (stored_rows pairs))
  = map snd (filter (fun kv => chunks_eqb (fst kv) key) pairs).
Proof.
  induction pairs as [|[k v] pairs IH]; intros Hp; [reflexivity|].
  cbn [forallb fst snd] in Hp. apply andb_true_iff in Hp as [Hkv Hp].
  apply andb_true_iff in Hkv as [Hk Hv].
  apply is_chunks_spec in Hk as [Hklen _].
  destruct (stored_row_fields k v Hklen) as (_ & HK & HV).
  cbn [stored_rows map filter fst snd]. fold (stored_rows pairs).
  unfold row_matches at 1. rewrite HK.
  destruct (chunks_eqb k key); cbn [map snd]; rewrite IH by exact Hp;
    [rewrite HV|]; reflexivity.
Qed.

(** X14. Query after a sequence of inserts on the empty table: found is
    the number of kept pairs whose key chunks equal the given key, plus
    the number of free rows when the given key is all zero, and the value
    is the chunk-wise sum of the values of those pairs. *)
Theorem query_after_inserts
  (pairs : list (list Z * list Z)) (key : list Z) :
  forallb (fun kv => is_chunks NK (fst kv) && is_chunks NV (snd kv)) pairs
    = true ->
  List.length key = NK ->
  let kept :=
    filter (fun kv => chunks_eqb (fst kv) key)
           (firstn NUMBER_OF_ENTRIES pairs) in
  let free := (NUMBER_OF_ENTRIES - List.length pairs)%nat in
  exists table,
    insert_all NUMBER_OF_ENTRIES (zeros2 NUMBER_OF_ENTRIES ROW) pairs
    = Some table
    /\ _query_impl KEY_SIZE VALUE_SIZE table key
       = Some (table,
               (Z.of_nat (List.length kept)
                + (if chunks_eqb key (zeros NK) then Z.of_nat free else 0))
               :: np_sum_axis0 NV (map snd kept)).
Proof.
  intros Hpairs Hkey kept free.
  eexists. split; [apply (insert_all_rows pairs [] NUMBER_OF_ENTRIES);
                   [intros r []|reflexivity|exact Hpairs]|].
  cbn [app].
  set (ps := firstn NUMBER_OF_ENTRIES pairs) in *. fold free.
  assert (forallb (fun kv => is_chunks NK (fst kv) && is_chunks NV (snd kv)) ps
          = true) as Hps.
  { apply forallb_forall. intros kv Hkv. rewrite forallb_forall in Hpairs.
    apply Hpairs. subst ps. rewrite <- (firstn_skipn NUMBER_OF_ENTRIES pairs).
    apply in_or_app. left. exact Hkv. }
  assert (List.length ps + free = NUMBER_OF_ENTRIES)%nat as Hlen.
  { subst ps free. rewrite length_firstn. lia. }
  destruct (zeros_row_fields KEY_SIZE VALUE_SIZE) as [HKz HVz].
  assert (shaped (stored_rows ps ++ zeros2 free ROW) = true) as Hshape.
  { apply has_shape_spec. split.
    - rewrite length_app. unfold stored_rows, zeros2.
      rewrite length_map, repeat_length. exact Hlen.
    - intros r Hr. apply in_app_or in Hr as [Hr|Hr].
      + apply (stored_rows_ok ps Hps r Hr).
      + apply repeat_spec in Hr. subst r. apply repeat_length. }
  assert (values_in_range KEY_SIZE (stored_rows ps ++ zeros2 free ROW) = true)
    as Hvals.
  { apply values_in_range_spec. intros r Hr c Hc.
    apply in_app_or in Hr as [Hr|Hr].
    - apply in_map_iff in Hr as ([k v] & <- & Hkv).
      rewrite forallb_forall in Hps. specialize (Hps (k, v) Hkv).
      cbn [fst snd] in *. apply andb_true_iff in Hps as [Hk Hv].
      destruct (stored_row_ok k v Hk Hv) as (_ & _ & _ & Hvr & _).
      rewrite forallb_forall in Hvr. apply in_range_bounds. auto.
    - apply repeat_spec in Hr. subst r. rewrite HVz in Hc.
      apply repeat_spec in Hc. lia. }
  rewrite query_matching by assumption.
  rewrite filter_app, map_app, length_app.
  unfold zeros2 at 1 2. rewrite filter_repeat.
  assert (matches key (zeros ROW) = chunks_eqb key (zeros NK)) as ->.
  { unfold row_matches. rewrite HKz. apply chunks_eqb_sym. }
  rewrite <- (length_map (VALUE KEY_SIZE) (filter _ (stored_rows ps))).
  rewrite filter_stored_rows by exact Hps. rewrite length_map. fold kept.
  f_equal. f_equal. f_equal.
  - destruct (chunks_eqb key (zeros NK)); cbn [List.length];
      [rewrite repeat_length|]; lia.
  - apply np_sum_axis0_app. intros r Hr.
    apply in_map_iff in Hr as (row & <- & Hrow).
    apply filter_In in Hrow as [Hrow _].
    apply repeat_spec in Hrow. subst row. exact HVz.
Qed.

End MoreCircuitProofs.

(** ** The circuits and the store of [KVStore_4bit.py] *)

Lemma np_sum_axis0_one (rows : list (list Z)) :
  (forall r, In r rows -> List.length r = 1%nat) ->
  np_sum_axis0 1 rows = [np_sum (List.concat rows)].
Proof.
  intros H. induction rows as [|r rows IH]; [reflexivity|].
  cbn [np_sum_axis0 fold_right List.concat].
  fold (np_sum_axis0 1 rows).
  rewrite IH by (intros r' Hr'; apply H; right; exact Hr').
  pose proof (H r (or_introl eq_refl)) as Hr.
  destruct r as [|a [|a' r']]; try discriminate.
  reflexivity.
Qed.

Lemma fourbit_query_agrees (state : list (list Z)) (key : list Z) :
  has_shape 5 4 4 state = true ->
  values_in_range 4 state = true ->
  List.length key = 1%nat ->
  FourBit._query_impl state key = _query_impl 4 4 state key.
Proof.
  intros Hshape Hvals Hkey.
  apply has_shape_spec in Hshape as [Hlen Hrows].
  pose proof (proj1 (values_in_range_spec 4 state) Hvals) as Hvr.
  rewrite query_impl_eq by exact Hvr.
  unfold FourBit._query_impl.
  change FourBit.KEY with (KEY 4). change FourBit.VALUE with (VALUE 4).
  change FourBit.lut2_select with keep_selected.
  change FourBit.NUMBER_OF_ENTRIES with 5%nat.
  pose proof (fourbit_replace_loop (map (KEY 4) state) [] [] key eq_refl)
    as Hloop.
  cbn [app List.length] in Hloop. rewrite length_map, Hlen in Hloop.
  rewrite Hloop; [|intros k Hk|exact Hkey].
  2:{ apply in_map_iff in Hk as (row & <- & Hrow).
      apply (row_split 4 4 row). apply Hrows. exact Hrow. }
  cbn [bind]. rewrite map_map.
  rewrite (map_ext_in _ (key_selection 4 key)).
  2:{ intros row Hrow. apply key_selection_one_chunk; [|exact Hkey].
      apply (row_split 4 4 row). apply Hrows. exact Hrow. }
  rewrite combine_map_diag.
  rewrite (mapM_map_comp _ _ (fun row =>
             map (Z.mul (key_selection 4 key row)) (VALUE 4 row))).
  2:{ intros row Hrow. cbn [fst snd]. apply keep_selected_mul.
      - apply key_selection_bit.
      - apply Hvr; exact Hrow. }
  cbn [bind]. change (NUMBER_OF_VALUE_CHUNKS 4) with 1%nat.
  rewrite np_sum_axis0_one; [reflexivity|].
  intros r Hr. apply in_map_iff in Hr as (row & <- & Hrow).
  rewrite length_map. apply (row_split 4 4 row). apply Hrows. exact Hrow.
Qed.

(** X15. The three circuits of the 4-bit file compute what the circuits
    of the commented file compute at its sizes (five rows, one chunk per
    key and per value), on every table of that shape with flags 0 or 1
    and in-range value chunks: the same table from insert, the same table
    from replace (built afresh, the argument left as it was), the same
    found and value from query. *)
Theorem fourbit_circuits_agree (state : list (list Z)) (key value : list Z) :
  has_shape 5 4 4 state = true ->
  flags_binary state = true ->
  values_in_range 4 state = true ->
  is_chunks 1 key = true ->
  is_chunks 1 value = true ->
  FourBit._insert_impl state key value = _insert_impl 5 state key value
  /\ (exists new_state,
        _replace_impl 4 state key value = Some (new_state, new_state)
        /\ FourBit._replace_impl state key value = Some (state, new_state))
  /\ FourBit._query_impl state key = _query_impl 4 4 state key.
Proof.
  intros Hshape Hflags Hvals Hkey Hval.
  pose proof Hkey as Hk. apply is_chunks_spec in Hk as [Hklen _].
  split; [apply fourbit_insert_agrees; assumption|].
  split; [|apply fourbit_query_agrees; assumption].
  destruct (fourbit_replace_agrees state key value Hshape Hvals Hklen Hval)
    as [H4 Hc].
  eexists. split; [exact Hc|exact H4].
Qed.

Lemma one_chunk (c : Z) : 0 <= c < 16 -> is_chunks 1 [c] = true.
Proof.
  intros Hc. apply is_chunks_spec. split; [reflexivity|].
  intros d [<-|[]]. exact Hc.
Qed.

(** X16. The store of the 4-bit file returns what was inserted: on the
    store as built, for every key chunk and value chunk in [0, 16),
    [insert([k], [v])] then [query([k])] returns v. *)
Theorem fourbit_store_insert_then_query (k v : Z) :
  0 <= k < 16 -> 0 <= v < 16 ->
  exists db1,
    FourBit.insert FourBit.init [k] [v] = Some db1
    /\ FourBit.query db1 [k] = Some (db1, Some v).
Proof.
  intros Hk Hv.
  pose proof (one_chunk k Hk) as Hkc. pose proof (one_chunk v Hv) as Hvc.
  pose proof (insert_empty 5 4 4 [k] [v] ltac:(lia) Hkc Hvc) as Hins.
  destruct (query_after_insert_empty 5 4 4 [k] [v] ltac:(lia) Hkc Hvc)
    as [Hshape Hq].
  change (ROW_SIZE 4 4) with 3%nat in *.
  pose (state1 := [1; k; v] :: zeros2 4 3).
  change ((1 :: [k] ++ [v]) :: zeros2 (5 - 1) 3) with state1
    in Hins, Hshape, Hq.
  exists {| _state := state1 |}. split.
  - unfold FourBit.insert, FourBit.init, FourBit.state_ok. cbn [_state].
    rewrite fourbit_insert_agrees by (try assumption; reflexivity).
    change FourBit.NUMBER_OF_ENTRIES with 5%nat.
    change (1 + 1 + 1)%nat with 3%nat.
    rewrite Hins. reflexivity.
  - unfold FourBit.query, FourBit.state_ok. cbn [_state].
    change FourBit.NUMBER_OF_ENTRIES with 5%nat.
    change FourBit.KEY_SIZE with 4%nat. change FourBit.VALUE_SIZE with 4%nat.
    rewrite Hshape.
    rewrite fourbit_query_agrees; [|exact Hshape| |reflexivity].
    2:{ apply values_in_range_spec. subst state1.
        intros row [<-|Hrow] c Hc.
        - destruct Hc as [<-|[]]. exact Hv.
        - apply repeat_spec in Hrow. subst row.
          destruct Hc as [<-|[]]. lia. }
    cbn [List.length Nat.eqb andb]. unfold encrypt_run_decrypt.
    change FourBit.NUMBER_OF_KEY_CHUNKS with 1%nat. cbn [Nat.eqb andb].
    rewrite Hq. cbn [bind snd nth].
    destruct (chunks_eqb [k] (zeros (NUMBER_OF_KEY_CHUNKS 4))); reflexivity.
Qed.

(** ** The store, from the state it is built with *)

Section StoreProofs.

Variable NUMBER_OF_ENTRIES : nat.
Variable KEY_SIZE : nat.
Variable VALUE_SIZE : nat.

Local Abbreviation NK := (NUMBER_OF_KEY_CHUNKS KEY_SIZE).
Local Abbreviation NV := (NUMBER_OF_VALUE_CHUNKS VALUE_SIZE).
Local Abbreviation ROW := (ROW_SIZE KEY_SIZE VALUE_SIZE).
Local Abbreviation shaped := (has_shape NUMBER_OF_ENTRIES KEY_SIZE VALUE_SIZE).
Local Abbreviation db0 := (init NUMBER_OF_ENTRIES KEY_SIZE VALUE_SIZE).

Lemma zeros2_values_in_range (n : nat) :
  values_in_range KEY_SIZE (zeros2 n ROW) = true.
Proof.
  apply forallb_repeat.
  destruct (zeros_row_fields KEY_SIZE VALUE_SIZE) as [_ ->].
  apply forallb_repeat. reflexivity.
Qed.

Lemma zeros2_well_formed :
  well_formed NUMBER_OF_ENTRIES KEY_SIZE VALUE_SIZE
    (zeros2 NUMBER_OF_ENTRIES ROW) = true.
Proof.
  apply well_formed_spec.
  destruct (zeros_row_fields KEY_SIZE VALUE_SIZE) as [HK HV].
  split; [apply zeros2_shaped|].
  split; [apply forallb_repeat; reflexivity|].
  split; [apply forallb_repeat; rewrite HK; apply forallb_repeat; reflexivity|].
  split; [apply zeros2_values_in_range|].
  apply forallb_repeat. rewrite (zeros_row_flag KEY_SIZE VALUE_SIZE).
  cbn [Z.eqb negb orb]. apply chunks_eqb_eq. reflexivity.
Qed.

(** X18. Query on the store as built, before any insert: for every key
    within the key size, [query(k)] returns [None] when k is not 0, and
    returns the value 0 when k is 0, every free row holding the key
    chunks of 0. *)
Theorem query_on_new_store (k : Z) :
  (KEY_SIZE mod CHUNK_SIZE = 0)%nat -> (0 < KEY_SIZE)%nat ->
  0 <= k < 2 ^ Z.of_nat KEY_SIZE ->
  (0 < NUMBER_OF_ENTRIES)%nat ->
  query NUMBER_OF_ENTRIES KEY_SIZE VALUE_SIZE db0 k
  = Some (db0, if k =? 0 then Some 0 else None).
Proof.
  intros HKm HK Hk HN.
  destruct (encode_is_chunks k KEY_SIZE HKm HK Hk)
    as (key & Hek & Hkc & Hkd & Hkz).
  fold NK in Hkc, Hkz.
  apply is_chunks_spec in Hkc as [Hklen _].
  unfold query, encode_key, init. rewrite Hek. cbn [bind _state].
  rewrite zeros2_shaped, Hklen, Nat.eqb_refl.
  unfold encrypt_run_decrypt. cbn [andb].
  rewrite (query_matching NUMBER_OF_ENTRIES);
    [|apply zeros2_shaped|apply zeros2_values_in_range|exact Hklen].
  cbn [bind snd nth]. unfold zeros2. rewrite filter_repeat.
  destruct (zeros_row_fields KEY_SIZE VALUE_SIZE) as [HKz HVz].
  unfold row_matches. rewrite HKz, chunks_eqb_sym.
  destruct (chunks_eqb key (zeros NK)) eqn:E.
  - apply chunks_eqb_eq in E. apply Hkz in E. rewrite E.
    rewrite repeat_length. change (0 =? 0) with true. cbv iota.
    assert ((Z.of_nat NUMBER_OF_ENTRIES =? 0) = false) as ->
      by (apply Z.eqb_neq; lia).
    unfold slice_from. cbn [skipn].
    rewrite np_sum_axis0_zeros.
    + rewrite decode_zeros. reflexivity.
    + intros r Hr. apply in_map_iff in Hr as (row & <- & Hrow).
      apply repeat_spec in Hrow. subst row. exact HVz.
  - assert ((k =? 0) = false) as ->.
    { apply Z.eqb_neq. intros ->. destruct Hkz as [_ Hkz].
      specialize (Hkz eq_refl). subst key.
      assert (chunks_eqb (zeros NK) (zeros NK) = true)
        by (apply chunks_eqb_eq; reflexivity).
      congruence. }
    reflexivity.
Qed.

(** X17. Insert, replace, query through the store: on the store as
    built, [insert(k, v)], then [replace(k, w)], then [query(k)] returns w
    when k is not 0.  When k is 0 every free row was overwritten as well
    and the sum NUMBER_OF_ENTRIES * w is returned.  The number returned
    is taken below 2^63, so that [decode] stays inside [int64]. *)
Theorem store_insert_replace_query (k v w : Z) :
  (0 < NUMBER_OF_ENTRIES)%nat ->
  (KEY_SIZE mod CHUNK_SIZE = 0)%nat -> (0 < KEY_SIZE)%nat ->
  (VALUE_SIZE mod CHUNK_SIZE = 0)%nat -> (0 < VALUE_SIZE)%nat ->
  0 <= k < 2 ^ Z.of_nat KEY_SIZE ->
  0 <= v < 2 ^ Z.of_nat VALUE_SIZE ->
  0 <= w < 2 ^ Z.of_nat VALUE_SIZE ->
  (if k =? 0 then Z.of_nat NUMBER_OF_ENTRIES else 1) * w < 2 ^ 63 ->
  exists db1 db2,
    insert NUMBER_OF_ENTRIES KEY_SIZE VALUE_SIZE db0 k v = Some db1
    /\ replace NUMBER_OF_ENTRIES KEY_SIZE VALUE_SIZE db1 k w = Some db2
    /\ query NUMBER_OF_ENTRIES KEY_SIZE VALUE_SIZE db2 k
       = Some (db2,
               Some ((if k =? 0 then Z.of_nat NUMBER_OF_ENTRIES else 1) * w)).
Proof.
  intros HN HKm HK HVm HV Hk Hv Hw H63.
  destruct (encode_is_chunks k KEY_SIZE HKm HK Hk)
    as (key & Hek & Hkc & Hkd & Hkz).
  destruct (encode_is_chunks v VALUE_SIZE HVm HV Hv)
    as (value & Hev & Hvc & Hvd & _).
  destruct (encode_is_chunks w VALUE_SIZE HVm HV Hw)
    as (value' & Hew & Hwc & Hwd & _).
  fold NK in Hkc, Hkz. fold NV in Hvc, Hwc.
  pose proof Hkc as Hkc'. apply is_chunks_spec in Hkc' as [Hklen _].
  pose proof Hvc as Hvc'. apply is_chunks_spec in Hvc' as [Hvlen _].
  pose proof Hwc as Hwc'. apply is_chunks_spec in Hwc' as [Hwlen _].
  pose proof (insert_empty NUMBER_OF_ENTRIES KEY_SIZE VALUE_SIZE
                key value HN Hkc Hvc) as Hins.
  destruct (query_after_insert_empty NUMBER_OF_ENTRIES KEY_SIZE VALUE_SIZE
              key value HN Hkc Hvc) as [Hshape1 Hq1].
  set (state1 := (1 :: key ++ value) :: zeros2 (NUMBER_OF_ENTRIES - 1) ROW)
    in *.
  assert (values_in_range KEY_SIZE state1 = true) as Hvals1.
  { pose proof zeros2_well_formed as Hwf.
    rewrite (zeros2_unfold NUMBER_OF_ENTRIES KEY_SIZE VALUE_SIZE HN) in Hwf.
    apply (insert_result_queryable NUMBER_OF_ENTRIES KEY_SIZE VALUE_SIZE
             [] _ key value Hwf Hkc Hvc). }
  assert (Z.of_nat (List.length (filter (row_matches KEY_SIZE key) state1))
          = (if k =? 0 then Z.of_nat NUMBER_OF_ENTRIES else 1)) as Hfound.
  { pose proof (query_matching NUMBER_OF_ENTRIES KEY_SIZE VALUE_SIZE
                  state1 key Hshape1 Hvals1 Hklen) as Hqm.
    rewrite Hq1 in Hqm.
    assert (Z.of_nat (List.length (filter (row_matches KEY_SIZE key) state1))
            = (if chunks_eqb key (zeros NK)
               then Z.of_nat NUMBER_OF_ENTRIES else 1)) as -> by congruence.
    destruct (chunks_eqb key (zeros NK)) eqn:E.
    - apply chunks_eqb_eq in E. apply Hkz in E. rewrite E. reflexivity.
    - destruct (k =? 0) eqn:E0; [|reflexivity].
      apply Z.eqb_eq in E0. apply Hkz in E0.
      apply chunks_eqb_eq in E0. congruence. }
  pose (state2 := map (replace_row_spec KEY_SIZE key value') state1).
  pose proof (replace_impl_spec NUMBER_OF_ENTRIES KEY_SIZE VALUE_SIZE
                state1 key value' Hshape1 Hvals1 Hklen Hwc) as Hrep.
  pose proof (replace_query_same_key NUMBER_OF_ENTRIES KEY_SIZE VALUE_SIZE
                state1 key value' Hshape1 Hvals1 Hklen Hwc) as Hq2.
  cbv zeta in Hq2. rewrite Hfound in Hq2.
  assert (decode (map (Z.mul (if k =? 0 then Z.of_nat NUMBER_OF_ENTRIES else 1))
                      value')
          = (if k =? 0 then Z.of_nat NUMBER_OF_ENTRIES else 1) * numeral value')
    as Hdec.
  { apply (decode_scaled _ NV value'); [destruct (k =? 0); lia|exact Hwc|].
    rewrite Hwd. exact H63. }
  pose proof (replace_shaped NUMBER_OF_ENTRIES KEY_SIZE VALUE_SIZE
                state1 key value' Hshape1 Hwlen) as Hshape2.
  fold state2 in Hrep, Hq2, Hshape2.
  exists {| _state := state1 |}, {| _state := state2 |}.
  split; [|split].
  - unfold insert, encode_key, encode_value, init.
    rewrite Hek, Hev. cbn [bind _state].
    rewrite zeros2_shaped, Hklen, Hvlen, !Nat.eqb_refl.
    unfold encrypt_run_decrypt. cbn [andb]. rewrite Hins. reflexivity.
  - unfold replace, encode_key, encode_value.
    rewrite Hek, Hew. cbn [bind _state].
    rewrite Hshape1, Hklen, Hwlen, !Nat.eqb_refl.
    unfold encrypt_run_decrypt. cbn [andb]. rewrite Hrep. reflexivity.
  - unfold query, encode_key. rewrite Hek. cbn [bind _state].
    rewrite Hshape2, Hklen, Nat.eqb_refl.
    unfold encrypt_run_decrypt. cbn [andb]. rewrite Hq2. cbn [bind snd nth].
    assert (((if k =? 0 then Z.of_nat NUMBER_OF_ENTRIES else 1) =? 0) = false)
      as ->.
    { apply Z.eqb_neq. destruct (k =? 0); lia. }
    unfold slice_from. cbn [skipn]. rewrite Hdec, Hwd. reflexivity.
Qed.

End StoreProofs.

(** ** The theorems above at the sizes of the source *)

Lemma store_insert_then_query_witness :
  (0 < 5)%nat
  /\ (32 mod CHUNK_SIZE = 0)%nat /\ (0 < 32)%nat
  /\ 0 <= 25 < 2 ^ Z.of_nat 32
  /\ 0 <= 40 < 2 ^ Z.of_nat 32
  /\ 40 < 2 ^ 63
  /\ exists db1,
       Commented.insert Commented.db0 25 40 = Some db1
       /\ Commented.query db1 25 = Some (db1, Some 40).
Proof.
  assert (H1 : (0 < 5)%nat) by lia.
  assert (H2 : (32 mod CHUNK_SIZE = 0)%nat) by reflexivity.
  assert (H3 : (0 < 32)%nat) by lia.
  assert (H4 : 0 <= 25 < 2 ^ Z.of_nat 32)
    by (vm_compute; split; [discriminate|reflexivity]).
  assert (H5 : 0 <= 40 < 2 ^ Z.of_nat 32)
    by (vm_compute; split; [discriminate|reflexivity]).
  assert (H6 : 40 < 2 ^ 63) by reflexivity.
  repeat (split; [assumption|]).
  destruct (store_insert_then_query 5 32 32 25 40 H1 H2 H3 H2 H3 H4 H5 H6)
    as (db1 & key & value & Hi & Hq & _).
  exists db1. split; [exact Hi|exact Hq].
Defined.

Lemma query_unique_match_witness :
  let state := Commented.two_used in
  let key := Commented.chunks_of 25 in
  has_shape 5 32 32 state = true
  /\ values_in_range 32 state = true
  /\ List.length key = NUMBER_OF_KEY_CHUNKS 32
  /\ (1 < 5)%nat
  /\ KEY 32 (nth 1 state []) = key
  /\ (forall j, (j < 5)%nat -> j <> 1%nat -> KEY 32 (nth j state []) <> key)
  /\ _query_impl 32 32 state key = Some (state, 1 :: VALUE 32 (nth 1 state [])).
Proof.
  cbv zeta.
  assert (H1 : has_shape 5 32 32 Commented.two_used = true) by reflexivity.
  assert (H2 : values_in_range 32 Commented.two_used = true) by reflexivity.
  assert (H3 : List.length (Commented.chunks_of 25) = NUMBER_OF_KEY_CHUNKS 32)
    by reflexivity.
  assert (H4 : (1 < 5)%nat) by lia.
  assert (H5 : KEY 32 (nth 1 Commented.two_used []) = Commented.chunks_of 25)
    by reflexivity.
  assert (H6 : forall j, (j < 5)%nat -> j <> 1%nat ->
                 KEY 32 (nth j Commented.two_used []) <> Commented.chunks_of 25).
  { intros [|[|[|[|[|j]]]]] Hj Hne; try lia; vm_compute; discriminate. }
  repeat (split; [assumption|]).
  exact (proj1 (query_unique_match 5 32 32 Commented.two_used
                  (Commented.chunks_of 25) 1 25 H1 H2 H3 H4 H5 H6)).
Defined.

Lemma replace_idempotent_witness :
  let state := Commented.two_used in
  let key := Commented.chunks_of 3 in
  let value := Commented.chunks_of 9 in
  has_shape 5 32 32 state = true
  /\ values_in_range 32 state = true
  /\ List.length key = NUMBER_OF_KEY_CHUNKS 32
  /\ is_chunks (NUMBER_OF_VALUE_CHUNKS 32) value = true
  /\ exists new_state,
       _replace_impl 32 state key value = Some (new_state, new_state)
       /\ _replace_impl 32 new_state key value = Some (new_state, new_state).
Proof.
  cbv zeta.
  assert (H1 : has_shape 5 32 32 Commented.two_used = true) by reflexivity.
  assert (H2 : values_in_range 32 Commented.two_used = true) by reflexivity.
  assert (H3 : List.length (Commented.chunks_of 3) = NUMBER_OF_KEY_CHUNKS 32)
    by reflexivity.
  assert (H4 : is_chunks (NUMBER_OF_VALUE_CHUNKS 32) (Commented.chunks_of 9)
               = true) by reflexivity.
  repeat (split; [assumption|]).
  exact (replace_idempotent 5 32 32 Commented.two_used
           (Commented.chunks_of 3) (Commented.chunks_of 9) H1 H2 H3 H4).
Defined.

Lemma replace_then_query_witness :
  let state := Commented.two_used in
  let key := Commented.chunks_of 3 in
  let value := Commented.chunks_of 9 in
  has_shape 5 32 32 state = true
  /\ values_in_range 32 state = true
  /\ List.length key = NUMBER_OF_KEY_CHUNKS 32
  /\ is_chunks (NUMBER_OF_VALUE_CHUNKS 32) value = true
  /\ exists new_state,
       _replace_impl 32 state key value = Some (new_state, new_state)
       /\ _query_impl 32 32 new_state key
          = Some (new_state, 1 :: map (Z.mul 1) value)
       /\ decode (map (Z.mul 1) value) = 1 * decode value.
Proof.
  cbv zeta.
  assert (H1 : has_shape 5 32 32 Commented.two_used = true) by reflexivity.
  assert (H2 : values_in_range 32 Commented.two_used = true) by reflexivity.
  assert (H3 : List.length (Commented.chunks_of 3) = NUMBER_OF_KEY_CHUNKS 32)
    by reflexivity.
  assert (H4 : is_chunks (NUMBER_OF_VALUE_CHUNKS 32) (Commented.chunks_of 9)
               = true) by reflexivity.
  repeat (split; [assumption|]).
  destruct (replace_then_query 5 32 32 Commented.two_used
              (Commented.chunks_of 3) (Commented.chunks_of 9) H1 H2 H3 H4)
    as (new_state & Hr & Hq & Hd).
  exists new_state. split; [exact Hr|]. split; [exact Hq|].
  apply Hd. vm_compute. discriminate.
Defined.

Lemma replace_keeps_other_keys_witness :
  let state := Commented.two_used in
  let key := Commented.chunks_of 3 in
  let value := Commented.chunks_of 9 in
  let key' := Commented.chunks_of 25 in
  has_shape 5 32 32 state = true
  /\ values_in_range 32 state = true
  /\ List.length key = NUMBER_OF_KEY_CHUNKS 32
  /\ is_chunks (NUMBER_OF_VALUE_CHUNKS 32) value = true
  /\ List.length key' = NUMBER_OF_KEY_CHUNKS 32
  /\ key' <> key
  /\ exists new_state result,
       _replace_impl 32 state key value = Some (new_state, new_state)
       /\ _query_impl 32 32 state key' = Some (state, result)
       /\ _query_impl 32 32 new_state key' = Some (new_state, result).
Proof.
  cbv zeta.
  assert (H1 : has_shape 5 32 32 Commented.two_used = true) by reflexivity.
  assert (H2 : values_in_range 32 Commented.two_used = true) by reflexivity.
  assert (H3 : List.length (Commented.chunks_of 3) = NUMBER_OF_KEY_CHUNKS 32)
    by reflexivity.
  assert (H4 : is_chunks (NUMBER_OF_VALUE_CHUNKS 32) (Commented.chunks_of 9)
               = true) by reflexivity.
  assert (H5 : List.length (Commented.chunks_of 25) = NUMBER_OF_KEY_CHUNKS 32)
    by reflexivity.
  assert (H6 : Commented.chunks_of 25 <> Commented.chunks_of 3)
    by (vm_compute; discriminate).
  repeat (split; [assumption|]).
  exact (replace_keeps_other_keys 5 32 32 Commented.two_used
           (Commented.chunks_of 3) (Commented.chunks_of 9)
           (Commented.chunks_of 25) H1 H2 H3 H4 H5 H6).
Defined.

Lemma replace_keeps_well_formed_witness :
  let state := Commented.two_used in
  let key := Commented.chunks_of 3 in
  let value := Commented.chunks_of 9 in
  well_formed 5 32 32 state = true
  /\ List.length key = NUMBER_OF_KEY_CHUNKS 32
  /\ key <> zeros (NUMBER_OF_KEY_CHUNKS 32)
  /\ is_chunks (NUMBER_OF_VALUE_CHUNKS 32) value = true
  /\ exists new_state,
       _replace_impl 32 state key value = Some (new_state, new_state)
       /\ well_formed 5 32 32 new_state = true
       /\ used_rows new_state = used_rows state.
Proof.
  cbv zeta.
  assert (H1 : well_formed 5 32 32 Commented.two_used = true) by reflexivity.
  assert (H2 : List.length (Commented.chunks_of 3) = NUMBER_OF_KEY_CHUNKS 32)
    by reflexivity.
  assert (H3 : Commented.chunks_of 3 <> zeros (NUMBER_OF_KEY_CHUNKS 32))
    by (vm_compute; discriminate).
  assert (H4 : is_chunks (NUMBER_OF_VALUE_CHUNKS 32) (Commented.chunks_of 9)
               = true) by reflexivity.
  repeat (split; [assumption|]).
  exact (replace_keeps_well_formed 5 32 32 Commented.two_used
           (Commented.chunks_of 3) (Commented.chunks_of 9) H1 H2 H3 H4).
Defined.

Lemma insert_keeps_well_formed_witness :
  let state := Commented.two_used in
  let key := Commented.chunks_of 7 in
  let value := Commented.chunks_of 200 in
  well_formed 5 32 32 state = true
  /\ is_chunks (NUMBER_OF_KEY_CHUNKS 32) key = true
  /\ is_chunks (NUMBER_OF_VALUE_CHUNKS 32) value = true
  /\ exists new_state,
       _insert_impl 5 state key value = Some (state, new_state)
       /\ well_formed 5 32 32 new_state = true
       /\ used_rows new_state = Nat.min 5 (S (used_rows state)).
Proof.
  cbv zeta.
  assert (H1 : well_formed 5 32 32 Commented.two_used = true) by reflexivity.
  assert (H2 : is_chunks (NUMBER_OF_KEY_CHUNKS 32) (Commented.chunks_of 7) = true)
    by reflexivity.
  assert (H3 : is_chunks (NUMBER_OF_VALUE_CHUNKS 32) (Commented.chunks_of 200)
               = true) by reflexivity.
  repeat (split; [assumption|]).
  exact (insert_keeps_well_formed 5 32 32 Commented.two_used
           (Commented.chunks_of 7) (Commented.chunks_of 200) H1 H2 H3).
Defined.

Lemma no_row_holds_key_7 (row : list Z) :
  In row Commented.two_used -> KEY 32 row <> Commented.chunks_of 7.
Proof.
  intros Hin. repeat (destruct Hin as [<-|Hin]; [vm_compute; discriminate|]).
  destruct Hin.
Defined.

Lemma insert_then_query_absent_key_witness :
  let state := Commented.two_used in
  let key := Commented.chunks_of 7 in
  let value := Commented.chunks_of 200 in
  well_formed 5 32 32 state = true
  /\ table_full state = false
  /\ is_chunks (NUMBER_OF_KEY_CHUNKS 32) key = true
  /\ is_chunks (NUMBER_OF_VALUE_CHUNKS 32) value = true
  /\ (forall row, In row state -> KEY 32 row <> key)
  /\ exists new_state,
       _insert_impl 5 state key value = Some (state, new_state)
       /\ _query_impl 32 32 new_state key = Some (new_state, 1 :: value).
Proof.
  cbv zeta.
  assert (H1 : well_formed 5 32 32 Commented.two_used = true) by reflexivity.
  assert (H2 : table_full Commented.two_used = false) by reflexivity.
  assert (H3 : is_chunks (NUMBER_OF_KEY_CHUNKS 32) (Commented.chunks_of 7) = true)
    by reflexivity.
  assert (H4 : is_chunks (NUMBER_OF_VALUE_CHUNKS 32) (Commented.chunks_of 200)
               = true) by reflexivity.
  repeat (split; [assumption|]).
  split; [exact no_row_holds_key_7|].
  exact (insert_then_query_absent_key 5 32 32 Commented.two_used
           (Commented.chunks_of 7) (Commented.chunks_of 200)
           H1 H2 H3 H4 no_row_holds_key_7).
Defined.

Lemma insert_keeps_other_keys_witness :
  let state := Commented.two_used in
  let key := Commented.chunks_of 7 in
  let value := Commented.chunks_of 200 in
  let key' := Commented.chunks_of 25 in
  well_formed 5 32 32 state = true
  /\ is_chunks (NUMBER_OF_KEY_CHUNKS 32) key = true
  /\ is_chunks (NUMBER_OF_VALUE_CHUNKS 32) value = true
  /\ List.length key' = NUMBER_OF_KEY_CHUNKS 32
  /\ key' <> key
  /\ key' <> zeros (NUMBER_OF_KEY_CHUNKS 32)
  /\ exists new_state result,
       _insert_impl 5 state key value = Some (state, new_state)
       /\ _query_impl 32 32 state key' = Some (state, result)
       /\ _query_impl 32 32 new_state key' = Some (new_state, result).
Proof.
  cbv zeta.
  assert (H1 : well_formed 5 32 32 Commented.two_used = true) by reflexivity.
  assert (H2 : is_chunks (NUMBER_OF_KEY_CHUNKS 32) (Commented.chunks_of 7) = true)
    by reflexivity.
  assert (H3 : is_chunks (NUMBER_OF_VALUE_CHUNKS 32) (Commented.chunks_of 200)
               = true) by reflexivity.
  assert (H4 : List.length (Commented.chunks_of 25) = NUMBER_OF_KEY_CHUNKS 32)
    by reflexivity.
  assert (H5 : Commented.chunks_of 25 <> Commented.chunks_of 7)
    by (vm_compute; discriminate).
  assert (H6 : Commented.chunks_of 25 <> zeros (NUMBER_OF_KEY_CHUNKS 32))
    by (vm_compute; discriminate).
  repeat (split; [assumption|]).
  exact (insert_keeps_other_keys 5 32 32 Commented.two_used
           (Commented.chunks_of 7) (Commented.chunks_of 200)
           (Commented.chunks_of 25) H1 H2 H3 H4 H5 H6).
Defined.

Lemma insert_all_from_empty_witness :
  let pairs :=
    [(Commented.chunks_of 3, Commented.chunks_of 4);
     (Commented.chunks_of 25, Commented.chunks_of 40)] in
  forallb (fun kv => is_chunks (NUMBER_OF_KEY_CHUNKS 32) (fst kv)
                     && is_chunks (NUMBER_OF_VALUE_CHUNKS 32) (snd kv))
          pairs = true
  /\ insert_all 5 (zeros2 5 (ROW_SIZE 32 32)) pairs = Some Commented.two_used.
Proof.
  cbv zeta.
  pose (pairs := [(Commented.chunks_of 3, Commented.chunks_of 4);
                  (Commented.chunks_of 25, Commented.chunks_of 40)]).
  assert (H1 : forallb (fun kv =>
                  is_chunks (NUMBER_OF_KEY_CHUNKS 32) (fst kv)
                  && is_chunks (NUMBER_OF_VALUE_CHUNKS 32) (snd kv))
                 pairs = true) by reflexivity.
  split; [exact H1|].
  exact (insert_all_from_empty 5 32 32 pairs H1).
Defined.

Lemma query_after_inserts_witness :
  let pairs :=
    [(Commented.chunks_of 3, Commented.chunks_of 4);
     (Commented.chunks_of 25, Commented.chunks_of 40);
     (Commented.chunks_of 3, Commented.chunks_of 9)] in
  let key := Commented.chunks_of 3 in
  forallb (fun kv => is_chunks (NUMBER_OF_KEY_CHUNKS 32) (fst kv)
                     && is_chunks (NUMBER_OF_VALUE_CHUNKS 32) (snd kv))
          pairs = true
  /\ List.length key = NUMBER_OF_KEY_CHUNKS 32
  /\ exists table,
       insert_all 5 (zeros2 5 (ROW_SIZE 32 32)) pairs = Some table
       /\ _query_impl 32 32 table key
          = Some (table, [2; 0; 0; 0; 0; 0; 0; 0; 13]).
Proof.
  cbv zeta.
  pose (pairs := [(Commented.chunks_of 3, Commented.chunks_of 4);
                  (Commented.chunks_of 25, Commented.chunks_of 40);
                  (Commented.chunks_of 3, Commented.chunks_of 9)]).
  assert (H1 : forallb (fun kv =>
                  is_chunks (NUMBER_OF_KEY_CHUNKS 32) (fst kv)
                  && is_chunks (NUMBER_OF_VALUE_CHUNKS 32) (snd kv))
                 pairs = true) by reflexivity.
  assert (H2 : List.length (Commented.chunks_of 3) = NUMBER_OF_KEY_CHUNKS 32)
    by reflexivity.
  split; [exact H1|]. split; [exact H2|].
  exact (query_after_inserts 5 32 32 pairs (Commented.chunks_of 3) H1 H2).
Defined.

Lemma fourbit_circuits_agree_witness :
  let state := [[1; 3; 4]; [0; 0; 0]; [1; 2; 3]; [0; 0; 0]; [0; 0; 0]] in
  has_shape 5 4 4 state = true
  /\ flags_binary state = true
  /\ values_in_range 4 state = true
  /\ is_chunks 1 [2] = true
  /\ is_chunks 1 [9] = true
  /\ FourBit._insert_impl state [2] [9] = _insert_impl 5 state [2] [9]
  /\ FourBit._query_impl state [2] = _query_impl 4 4 state [2].
Proof.
  cbv zeta.
  pose (state := [[1; 3; 4]; [0; 0; 0]; [1; 2; 3]; [0; 0; 0]; [0; 0; 0]]).
  assert (H1 : has_shape 5 4 4 state = true) by reflexivity.
  assert (H2 : flags_binary state = true) by reflexivity.
  assert (H3 : values_in_range 4 state = true) by reflexivity.
  assert (H4 : is_chunks 1 [2] = true) by reflexivity.
  assert (H5 : is_chunks 1 [9] = true) by reflexivity.
  repeat (split; [assumption|]).
  destruct (fourbit_circuits_agree state [2] [9] H1 H2 H3 H4 H5)
    as (Hi & _ & Hq).
  split; [exact Hi|exact Hq].
Defined.

Lemma fourbit_store_insert_then_query_witness :
  0 <= 3 < 16 /\ 0 <= 4 < 16
  /\ exists db1,
       FourBit.insert FourBit.init [3] [4] = Some db1
       /\ FourBit.query db1 [3] = Some (db1, Some 4).
Proof.
  assert (H1 : 0 <= 3 < 16) by lia.
  assert (H2 : 0 <= 4 < 16) by lia.
  split; [exact H1|]. split; [exact H2|].
  exact (fourbit_store_insert_then_query 3 4 H1 H2).
Defined.

Lemma query_on_new_store_witness :
  (32 mod CHUNK_SIZE = 0)%nat /\ (0 < 32)%nat
  /\ 0 <= 4 < 2 ^ Z.of_nat 32
  /\ (0 < 5)%nat
  /\ Commented.query Commented.db0 4 = Some (Commented.db0, None).
Proof.
  assert (H1 : (32 mod CHUNK_SIZE = 0)%nat) by reflexivity.
  assert (H2 : (0 < 32)%nat) by lia.
  assert (H3 : 0 <= 4 < 2 ^ Z.of_nat 32)
    by (vm_compute; split; [discriminate|reflexivity]).
  assert (H4 : (0 < 5)%nat) by lia.
  repeat (split; [assumption|]).
  exact (query_on_new_store 5 32 32 4 H1 H2 H3 H4).
Defined.

Lemma store_insert_replace_query_witness :
  (0 < 5)%nat
  /\ (32 mod CHUNK_SIZE = 0)%nat /\ (0 < 32)%nat
  /\ 0 <= 3 < 2 ^ Z.of_nat 32
  /\ 0 <= 4 < 2 ^ Z.of_nat 32
  /\ 0 <= 1 < 2 ^ Z.of_nat 32
  /\ (if 3 =? 0 then Z.of_nat 5 else 1) * 1 < 2 ^ 63
  /\ exists db1 db2,
       Commented.insert Commented.db0 3 4 = Some db1
       /\ Commented.replace db1 3 1 = Some db2
       /\ Commented.query db2 3 = Some (db2, Some 1).
Proof.
  assert (H1 : (0 < 5)%nat) by lia.
  assert (H2 : (32 mod CHUNK_SIZE = 0)%nat) by reflexivity.
  assert (H3 : (0 < 32)%nat) by lia.
  assert (H4 : 0 <= 3 < 2 ^ Z.of_nat 32)
    by (vm_compute; split; [discriminate|reflexivity]).
  assert (H5 : 0 <= 4 < 2 ^ Z.of_nat 32)
    by (vm_compute; split; [discriminate|reflexivity]).
  assert (H6 : 0 <= 1 < 2 ^ Z.of_nat 32)
    by (vm_compute; split; [discriminate|reflexivity]).
  assert (H7 : (if 3 =? 0 then Z.of_nat 5 else 1) * 1 < 2 ^ 63)
    by reflexivity.
  repeat (split; [assumption|]).
  exact (store_insert_replace_query 5 32 32 3 4 1 H1 H2 H3 H2 H3 H4 H5 H6 H7).
Defined.
